(** * md-to-html: lexer, parser and renderer of the Markdown converter

    A shallow embedding of [src/parser/lexer.js], [src/parser/parser.js],
    [src/parser/renderer.js] and [src/converter.js].

    JavaScript strings are modelled as [string]: a sequence of code units,
    here restricted to the range 0..255.  Arrays are lists, object
    properties that may be missing are [option]s, [throw] is the [Throws]
    outcome, and every [for]/[while] loop of the source is a [Fixpoint] on a
    fuel argument that returns [Diverges] when the fuel is used up; the
    callers pass a fuel that is proved to be enough. *)

From Stdlib Require Import String Ascii List Arith Bool Lia.
Import ListNotations.
Open Scope string_scope.
Open Scope list_scope.
Open Scope nat_scope.

(** ** Outcomes of a call *)

Inductive Outcome (A : Type) : Type :=
| Returns (a : A)
| Throws (message : string)
| Diverges.

Arguments Returns {A} a.
Arguments Throws {A} message.
Arguments Diverges {A}.

Definition bind {A B} (m : Outcome A) (k : A -> Outcome B) : Outcome B :=
  match m with
  | Returns a => k a
  | Throws msg => Throws msg
  | Diverges => Diverges
  end.

Notation "x <- m ;; k" := (bind m (fun x => k))
  (at level 61, m at next level, right associativity).
Notation "' p <- m ;; k" := (bind m (fun x => let 'p := x in k))
  (at level 61, p pattern, m at next level, right associativity).

(** [array.map(f)] for an [f] that may throw. *)
Definition mapM {A B} (f : A -> Outcome B) : list A -> Outcome (list B) :=
  fix go (l : list A) : Outcome (list B) :=
    match l with
    | [] => Returns []
    | a :: l' => b <- f a ;; bs <- go l' ;; Returns (b :: bs)
    end.

(** ** JavaScript string methods *)

Module Js.

(** Values a caller can hand to [convert]. *)
Inductive Value : Type :=
| VString (s : string)
| VUndefined
| VNull
| VNumber (n : nat)
| VBoolean (b : bool).

Definition chr (n : nat) : ascii := ascii_of_nat n.

(** [WhiteSpace] and [LineTerminator] code units below 256: what
    [String.prototype.trim] strips and what [\s] matches. *)
Definition is_space (c : ascii) : bool :=
  let n := nat_of_ascii c in
  (n =? 9) || (n =? 10) || (n =? 11) || (n =? 12) || (n =? 13) ||
  (n =? 32) || (n =? 160).

(** Line terminators below 256: what [.] does not match. *)
Definition is_line_terminator (c : ascii) : bool :=
  let n := nat_of_ascii c in (n =? 10) || (n =? 13).

(** [\d] *)
Definition is_digit (c : ascii) : bool :=
  let n := nat_of_ascii c in (48 <=? n) && (n <=? 57).

Definition newline : ascii := chr 10.
Definition nl : string := String newline "".

(** [s.split(c)] for a one-character separator: never empty, [""] gives
    [[""]]. *)
Fixpoint split (c : ascii) (s : string) : list string :=
  match s with
  | "" => [""]
  | String a s' =>
      if Ascii.eqb a c then "" :: split c s'
      else match split c s' with
           | piece :: pieces => String a piece :: pieces
           | [] => [String a ""]
           end
  end.

(** [pieces.join(sep)] *)
Definition join (sep : string) (pieces : list string) : string :=
  String.concat sep pieces.

Fixpoint trimStart (s : string) : string :=
  match s with
  | String c s' => if is_space c then trimStart s' else s
  | "" => ""
  end.

Fixpoint trimEnd (s : string) : string :=
  match s with
  | String c s' =>
      match trimEnd s' with
      | "" => if is_space c then "" else String c ""
      | r => String c r
      end
  | "" => ""
  end.

Definition trim (s : string) : string := trimEnd (trimStart s).

(** [s.startsWith(p)] *)
Definition startsWith (p s : string) : bool := String.prefix p s.

Fixpoint drop (n : nat) (s : string) : string :=
  match n, s with
  | S n', String _ s' => drop n' s'
  | _, _ => s
  end.

(** [s.endsWith(p)] *)
Definition endsWith (p s : string) : bool :=
  (String.length p <=? String.length s) &&
  String.eqb (drop (String.length s - String.length p) s) p.

(** [s.substring(a, b)]: both indices are clamped to the length and swapped
    when [a > b]. *)
Definition substring (a b : nat) (s : string) : string :=
  String.substring (Nat.min a b) (Nat.max a b - Nat.min a b) s.

(** [s.substring(a)] *)
Definition substringFrom (a : nat) (s : string) : string :=
  substring a (String.length s) s.

(** [s.indexOf(p, from)] for a non-empty [p]; [None] stands for [-1]. *)
Definition indexOf (p : string) (from : nat) (s : string) : option nat :=
  String.index from p s.

(** [s.includes(p)] for a non-empty [p]. *)
Definition includes (p s : string) : bool :=
  match indexOf p 0 s with
  | Some _ => true
  | None => false
  end.

(** [s[i]]; [None] stands for [undefined]. *)
Definition charAt (i : nat) (s : string) : option ascii := String.get i s.

(** [s[i] === c] *)
Definition charIs (i : nat) (c : ascii) (s : string) : bool :=
  match charAt i s with
  | Some a => Ascii.eqb a c
  | None => false
  end.

(** [s.replace(/c/g, r)] for a one-character pattern. *)
Fixpoint replaceAll (c : ascii) (r : string) (s : string) : string :=
  match s with
  | "" => ""
  | String a s' =>
      if Ascii.eqb a c then (r ++ replaceAll c r s')%string
      else String a (replaceAll c r s')
  end.

(** Truthiness of a string: [!s] is true exactly for [""]. *)
Definition truthy (s : string) : bool := negb (String.eqb s "").

Fixpoint all_chars (p : ascii -> bool) (s : string) : bool :=
  match s with
  | "" => true
  | String c s' => p c && all_chars p s'
  end.

(** Decimal rendering of a number inside a template literal. *)
Fixpoint digits_of (fuel n : nat) (acc : string) : string :=
  match fuel with
  | O => acc
  | S fuel' =>
      let acc' := String (chr (48 + n mod 10)) acc in
      if n / 10 =? 0 then acc' else digits_of fuel' (n / 10) acc'
  end.

Definition toString (n : nat) : string := digits_of (S n) n "".

End Js.

(** ** The lexer: [MarkdownLexer] *)

Module Lexer.

Inductive TokenType : Type :=
| line_break | header | code_block | list_item | ordered_list_item
| blockquote | hr | table_row | paragraph
| other.

Definition type_eqb (a b : TokenType) : bool :=
  match a, b with
  | line_break, line_break | header, header | code_block, code_block
  | list_item, list_item | ordered_list_item, ordered_list_item
  | blockquote, blockquote | hr, hr | table_row, table_row
  | paragraph, paragraph | other, other => true
  | _, _ => false
  end.

(** A token object; a property the lexer does not set on a token of some type
    is [None] there. *)
Record Token : Type := mkToken {
  type : TokenType;
  value : string;
  content : string;
  position : nat;
  length : nat;
  level : option nat;
  text : option string;
  language : option string;
  code : option string;
  cells : option (list string)
}.

Definition fence : string := "```".

(** *** The regular expressions of [tokenize]

    Each matcher is the backtracking search of the expression written out:
    a greedy quantifier first tries one more repetition and, when the rest
    of the expression then fails, goes on from where it stands. *)

(** [(.+)$] *)
Definition rest_of_line (s : string) : option string :=
  if Js.truthy s && Js.all_chars (fun c => negb (Js.is_line_terminator c)) s
  then Some s else None.

(** [\s*(.+)$] *)
Fixpoint spaces_then_rest (s : string) : option string :=
  match s with
  | String c s' =>
      if Js.is_space c then
        match spaces_then_rest s' with
        | Some r => Some r
        | None => rest_of_line s
        end
      else rest_of_line s
  | "" => None
  end.

(** [\s+(.+)$] *)
Definition space_then_rest (s : string) : option string :=
  match s with
  | String c s' => if Js.is_space c then spaces_then_rest s' else None
  | "" => None
  end.

(** [#{count, count + more}\s+(.+)$] with [count] of the [#] already read;
    the group [(#{1,6})] needs at least one. *)
Fixpoint hashes_then_rest (more count : nat) (s : string)
  : option (nat * string) :=
  let here :=
    if 1 <=? count then
      match space_then_rest s with
      | Some r => Some (count, r)
      | None => None
      end
    else None in
  match more, s with
  | S more', String c s' =>
      if Ascii.eqb c "#" then
        match hashes_then_rest more' (S count) s' with
        | Some r => Some r
        | None => here
        end
      else here
  | _, _ => here
  end.

(** [/^(#{1,6})\s+(.+)$/]: the length of group 1 and group 2. *)
Definition match_header (s : string) : option (nat * string) :=
  hashes_then_rest 6 0 s.

Definition is_bullet (c : ascii) : bool :=
  Ascii.eqb c "-" || Ascii.eqb c "*" || Ascii.eqb c "+".

(** [/^[\s]*[-*+]\s+(.+)$/]: group 1. *)
Fixpoint match_list (s : string) : option string :=
  match s with
  | String c s' =>
      let here := if is_bullet c then space_then_rest s' else None in
      if Js.is_space c then
        match match_list s' with
        | Some r => Some r
        | None => here
        end
      else here
  | "" => None
  end.

(** [\d*\.\s+(.+)$] *)
Fixpoint digits_then_rest (s : string) : option string :=
  match s with
  | String c s' =>
      let here := if Ascii.eqb c "." then space_then_rest s' else None in
      if Js.is_digit c then
        match digits_then_rest s' with
        | Some r => Some r
        | None => here
        end
      else here
  | "" => None
  end.

(** [/^[\s]*\d+\.\s+(.+)$/]: group 1. *)
Fixpoint match_ordered (s : string) : option string :=
  match s with
  | String c s' =>
      let here := if Js.is_digit c then digits_then_rest s' else None in
      if Js.is_space c then
        match match_ordered s' with
        | Some r => Some r
        | None => here
        end
      else here
  | "" => None
  end.

Definition is_rule_char (c : ascii) : bool :=
  Ascii.eqb c "-" || Ascii.eqb c "*" || Ascii.eqb c "_".

(** [/^[-*_]{3,}$/.test(s)] *)
Definition test_hr (s : string) : bool :=
  (3 <=? String.length s) && Js.all_chars is_rule_char s.

(** [trimmedLine.split('|').map(cell => cell.trim()).filter(cell => cell)] *)
Definition table_cells (trimmedLine : string) : list string :=
  filter Js.truthy (map Js.trim (Js.split "|" trimmedLine)).

(** The inner [while] of the code-block branch: from line [j] on, push
    lines until one whose trimmed form starts with the fence, or the end. *)
Fixpoint fence_loop (fuel : nat) (lines : list string) (j : nat)
    (codeLines : list string) : Outcome (nat * list string) :=
  match fuel with
  | O => Diverges
  | S fuel' =>
      match nth_error lines j with
      | None => Returns (j, codeLines)
      | Some l =>
          if Js.startsWith fence (Js.trim l) then Returns (j, codeLines)
          else fence_loop fuel' lines (S j) (codeLines ++ [l])
      end
  end.

(** The body of the [for] loop at index [i], where [lines[i]] is [line]:
    the token it pushes and the value of [i] when it reaches [continue]
    (or the end of the body). *)
Definition tokenize_line (lines : list string) (i : nat) (line : string)
  : Outcome (Token * nat) :=
  let trimmedLine := Js.trim line in
  if negb (Js.truthy trimmedLine) then
    Returns (mkToken line_break Js.nl Js.nl i 1 None None None None None, i)
  else
  match match_header trimmedLine with
  | Some (hashes, txt) =>
      Returns (mkToken header line txt i (String.length line)
                 (Some hashes) (Some txt) None None None, i)
  | None =>
  if Js.startsWith fence trimmedLine then
    let language := Js.trim (Js.substringFrom 3 trimmedLine) in
    ' (j, codeLines) <- fence_loop (S (List.length lines)) lines (i + 1) [] ;;
    Returns (mkToken code_block line (Js.join Js.nl codeLines) i (j - i + 1)
               None None (Some language) (Some (Js.join Js.nl codeLines)) None,
             j)
  else
  match match_list trimmedLine with
  | Some item =>
      Returns (mkToken list_item line item i (String.length line)
                 None None None None None, i)
  | None =>
  match match_ordered trimmedLine with
  | Some item =>
      Returns (mkToken ordered_list_item line item i (String.length line)
                 None None None None None, i)
  | None =>
  if Js.startsWith ">" trimmedLine then
    Returns (mkToken blockquote line (Js.trim (Js.substringFrom 1 trimmedLine))
               i (String.length line) None None None None None, i)
  else
  if test_hr trimmedLine then
    Returns (mkToken hr line line i (String.length line)
               None None None None None, i)
  else
  if Js.startsWith "|" trimmedLine && Js.endsWith "|" trimmedLine then
    Returns (mkToken table_row line trimmedLine i (String.length line)
               None None None None (Some (table_cells trimmedLine)), i)
  else
    Returns (mkToken paragraph line line i (String.length line)
               None None None None None, i)
  end end end.

(** [for (let i = 0; i < lines.length; i++) { ... }] *)
Fixpoint tokenize_loop (fuel : nat) (lines : list string) (i : nat)
    (tokens : list Token) : Outcome (list Token) :=
  match fuel with
  | O => Diverges
  | S fuel' =>
      match nth_error lines i with
      | None => Returns tokens
      | Some line =>
          ' (token, i') <- tokenize_line lines i line ;;
          tokenize_loop fuel' lines (S i') (tokens ++ [token])
      end
  end.

(** [tokenize(text)] for a string. *)
Definition tokenize_string (text : string) : Outcome (list Token) :=
  let lines := Js.split Js.newline text in
  tokenize_loop (S (List.length lines)) lines 0 [].

(** [tokenize(text)]: [text.split] exists on strings only. *)
Definition tokenize (text : Js.Value) : Outcome (list Token) :=
  match text with
  | Js.VString s => tokenize_string s
  | Js.VUndefined =>
      Throws "Cannot read properties of undefined (reading 'split')"
  | Js.VNull => Throws "Cannot read properties of null (reading 'split')"
  | Js.VNumber _ | Js.VBoolean _ => Throws "text.split is not a function"
  end.

End Lexer.

(** ** The syntax tree *)

Module NodeType.
Inductive t : Type :=
| document | header | code_block | list | ordered_list | list_item
| blockquote | hr | table | table_row | paragraph
| text | bold | italic | inline_code | link | image.
End NodeType.

Module Ast.

(** A node object.  The parser sets a few properties on each node and the
    renderer reads a property whether or not it was set, so every property
    is optional here; [children], [items] and [rows] hold nodes. *)
#[warnings="-register-all"]
Inductive Node : Type := mkNode {
  type : NodeType.t;
  content : option string;
  children : option (list Node);
  level : option nat;
  text : option string;
  language : option string;
  code : option string;
  items : option (list Node);
  rows : option (list Node);
  cells : option (list string);
  url : option string;
  src : option string;
  alt : option string
}.

(** [{ type: ty }] *)
Definition object (ty : NodeType.t) : Node :=
  mkNode ty None None None None None None None None None None None None.

(** [{ type: ty, content: c }] *)
Definition leaf (ty : NodeType.t) (c : string) : Node :=
  mkNode ty (Some c) None None None None None None None None None None None.

(** [{ type: ty, content: c, children: ch }] *)
Definition block (ty : NodeType.t) (c : string) (ch : list Node) : Node :=
  mkNode ty (Some c) (Some ch) None None None None None None None None
    None None.

End Ast.

(** ** The parser: [MarkdownParser] *)

Module Parser.

Import Ast.

(** [if (currentText) { children.push({ type: 'text', content: currentText });
    currentText = ''; }] *)
Definition flush (currentText : string) (children : list Node)
  : string * list Node :=
  if Js.truthy currentText
  then ("", children ++ [leaf NodeType.text currentText])
  else (currentText, children).

(** The state of the scan of [parseInlineContent]. *)
Record Scan : Type := mkScan {
  i : nat;
  currentText : string;
  children : list Node
}.

(** What one marker check does: [continue] with a new state, or go on to
    the next check with the buffer and the children it leaves. *)
Inductive Check : Type :=
| Continue (s : Scan)
| Next (currentText : string) (children : list Node).

(** [**text**] *)
Definition check_bold (text : string) (st : Scan) : Check :=
  if String.eqb (Js.substring (i st) (i st + 2) text) "**" then
    let (cur, ch) := flush (currentText st) (children st) in
    match Js.indexOf "**" (i st + 2) text with
    | Some endIndex =>
        Continue (mkScan (endIndex + 2) cur
                    (ch ++ [leaf NodeType.bold
                              (Js.substring (i st + 2) endIndex text)]))
    | None => Next cur ch
    end
  else Next (currentText st) (children st).

(** [*text*] (but not [**text**]) *)
Definition check_italic (text : string) (st : Scan) : Check :=
  if Js.charIs (i st) "*" text && negb (Js.charIs (i st + 1) "*" text) then
    let (cur, ch) := flush (currentText st) (children st) in
    match Js.indexOf "*" (i st + 1) text with
    | Some endIndex =>
        if negb (Js.charIs (endIndex + 1) "*" text) then
          Continue (mkScan (endIndex + 1) cur
                      (ch ++ [leaf NodeType.italic
                                (Js.substring (i st + 1) endIndex text)]))
        else Next cur ch
    | None => Next cur ch
    end
  else Next (currentText st) (children st).

(** [`text`] *)
Definition check_code (text : string) (st : Scan) : Check :=
  if Js.charIs (i st) "`" text then
    let (cur, ch) := flush (currentText st) (children st) in
    match Js.indexOf "`" (i st + 1) text with
    | Some endIndex =>
        Continue (mkScan (endIndex + 1) cur
                    (ch ++ [leaf NodeType.inline_code
                              (Js.substring (i st + 1) endIndex text)]))
    | None => Next cur ch
    end
  else Next (currentText st) (children st).

(** [{ type: 'link', content: linkText, url: url }] *)
Definition link_node (linkText url : string) : Node :=
  mkNode NodeType.link (Some linkText) None None None None None None None
    None (Some url) None None.

(** [{ type: 'image', content: alt, src: src, alt: alt }] *)
Definition image_node (alt src : string) : Node :=
  mkNode NodeType.image (Some alt) None None None None None None None
    None None (Some src) (Some alt).

(** [[text](url)] *)
Definition check_link (text : string) (st : Scan) : Check :=
  if Js.charIs (i st) "[" text then
    let (cur, ch) := flush (currentText st) (children st) in
    match Js.indexOf "]" (i st) text with
    | Some linkEnd =>
        if Js.charIs (linkEnd + 1) "(" text then
          let urlStart := linkEnd + 2 in
          match Js.indexOf ")" urlStart text with
          | Some urlEnd =>
              Continue (mkScan (urlEnd + 1) cur
                          (ch ++ [link_node
                                    (Js.substring (i st + 1) linkEnd text)
                                    (Js.substring urlStart urlEnd text)]))
          | None => Next cur ch
          end
        else Next cur ch
    | None => Next cur ch
    end
  else Next (currentText st) (children st).

(** [![alt](src)] *)
Definition check_image (text : string) (st : Scan) : Check :=
  if String.eqb (Js.substring (i st) (i st + 2) text) "![" then
    let (cur, ch) := flush (currentText st) (children st) in
    match Js.indexOf "]" (i st + 2) text with
    | Some altEnd =>
        if Js.charIs (altEnd + 1) "(" text then
          let srcStart := altEnd + 2 in
          match Js.indexOf ")" srcStart text with
          | Some srcEnd =>
              Continue (mkScan (srcEnd + 1) cur
                          (ch ++ [image_node
                                    (Js.substring (i st + 2) altEnd text)
                                    (Js.substring srcStart srcEnd text)]))
          | None => Next cur ch
          end
        else Next cur ch
    | None => Next cur ch
    end
  else Next (currentText st) (children st).

(** [currentText += text[i]; i++;] *)
Definition regular_character (text : string) (st : Scan) : Scan :=
  let c := match Js.charAt (i st) text with
           | Some c => String c ""
           | None => "undefined"
           end in
  mkScan (i st + 1) (currentText st ++ c) (children st).

(** A check that did not [continue] hands its buffer and children on. *)
Definition and_then (c : Check) (st : Scan) (k : Scan -> Scan) : Scan :=
  match c with
  | Continue st' => st'
  | Next cur ch => k (mkScan (i st) cur ch)
  end.

(** The body of the [while] loop of [parseInlineContent]. *)
Definition inline_step (text : string) (st : Scan) : Scan :=
  and_then (check_bold text st) st (fun st =>
  and_then (check_italic text st) st (fun st =>
  and_then (check_code text st) st (fun st =>
  and_then (check_link text st) st (fun st =>
  and_then (check_image text st) st (fun st =>
  regular_character text st))))).

(** [while (i < text.length) { ... }] *)
Fixpoint inline_loop (fuel : nat) (text : string) (st : Scan)
  : Outcome Scan :=
  match fuel with
  | O => Diverges
  | S fuel' =>
      if i st <? String.length text
      then inline_loop fuel' text (inline_step text st)
      else Returns st
  end.

(** [parseInlineContent(text)]; [None] is [undefined]. *)
Definition parseInlineContent (text : option string) : Outcome (list Node) :=
  match text with
  | None => Returns []
  | Some text =>
      if negb (Js.truthy text) then Returns []
      else
        st <- inline_loop (S (String.length text)) text (mkScan 0 "" []) ;;
        Returns (snd (flush (currentText st) (children st)))
  end.

(** *** The token cursor *)

Import Lexer.

(** Reading a property of [undefined]. *)
Definition undefined_property {A} (property : string) : Outcome A :=
  Throws ("Cannot read properties of undefined (reading '" ++ property ++ "')").

(** [isAtEnd()] *)
Definition isAtEnd (tokens : list Token) (current : nat) : bool :=
  List.length tokens <=? current.

(** [peek()]; [None] is [null]. *)
Definition peek (tokens : list Token) (current : nat) : option Token :=
  if isAtEnd tokens current then None else nth_error tokens current.

(** [advance()]: the token it returns ([None] is [undefined]) and the new
    cursor. *)
Definition advance (tokens : list Token) (current : nat)
  : option Token * nat :=
  let current := if negb (isAtEnd tokens current) then current + 1
                 else current in
  (match current with
   | S previous => nth_error tokens previous
   | O => None
   end, current).

(** *** One function for each kind of node *)

Definition parseHeader (tokens : list Token) (current : nat)
  : Outcome (Node * nat) :=
  let (token, current) := advance tokens current in
  match token with
  | None => undefined_property "level"
  | Some token =>
      ch <- parseInlineContent (Lexer.text token) ;;
      Returns (mkNode NodeType.header None (Some ch) (Lexer.level token)
                 (Lexer.text token) None None None None None None None None,
               current)
  end.

Definition parseCodeBlock (tokens : list Token) (current : nat)
  : Outcome (Node * nat) :=
  let (token, current) := advance tokens current in
  match token with
  | None => undefined_property "language"
  | Some token =>
      Returns (mkNode NodeType.code_block None None None None
                 (Lexer.language token) (Lexer.code token)
                 None None None None None None,
               current)
  end.

(** The [while] loop of [parseList] (for ['list_item']) and of
    [parseOrderedList] (for ['ordered_list_item']). *)
Fixpoint items_loop (item_type : TokenType) (fuel : nat)
    (tokens : list Token) (current : nat) (items : list Node)
  : Outcome (list Node * nat) :=
  match fuel with
  | O => Diverges
  | S fuel' =>
      if isAtEnd tokens current then Returns (items, current)
      else
        match peek tokens current with
        | None => Throws "Cannot read properties of null (reading 'type')"
        | Some next =>
            if type_eqb (Lexer.type next) item_type then
              let (token, current) := advance tokens current in
              match token with
              | None => undefined_property "content"
              | Some token =>
                  ch <- parseInlineContent (Some (Lexer.content token)) ;;
                  items_loop item_type fuel' tokens current
                    (items ++ [block NodeType.list_item
                                 (Lexer.content token) ch])
              end
            else Returns (items, current)
        end
  end.

(** [{ type: ty, items: items }] *)
Definition list_node (ty : NodeType.t) (items : list Node) : Node :=
  mkNode ty None None None None None None (Some items) None None None
    None None.

Definition parseList (tokens : list Token) (current : nat)
  : Outcome (Node * nat) :=
  ' (items, current) <-
      items_loop list_item (S (List.length tokens)) tokens current [] ;;
  Returns (list_node NodeType.list items, current).

Definition parseOrderedList (tokens : list Token) (current : nat)
  : Outcome (Node * nat) :=
  ' (items, current) <-
      items_loop ordered_list_item (S (List.length tokens)) tokens current [] ;;
  Returns (list_node NodeType.ordered_list items, current).

Definition parseBlockquote (tokens : list Token) (current : nat)
  : Outcome (Node * nat) :=
  let (token, current) := advance tokens current in
  match token with
  | None => undefined_property "content"
  | Some token =>
      ch <- parseInlineContent (Some (Lexer.content token)) ;;
      Returns (block NodeType.blockquote (Lexer.content token) ch, current)
  end.

Definition parseHorizontalRule (tokens : list Token) (current : nat)
  : Outcome (Node * nat) :=
  let (_, current) := advance tokens current in
  Returns (object NodeType.hr, current).

(** [{ type: 'table_row', cells: token.cells || [] }] *)
Definition row_node (cells : option (list string)) : Node :=
  mkNode NodeType.table_row None None None None None None None None
    (Some (match cells with Some c => c | None => [] end)) None None None.

(** The [while] loop of [parseTable]. *)
Fixpoint rows_loop (fuel : nat) (tokens : list Token) (current : nat)
    (rows : list Node) : Outcome (list Node * nat) :=
  match fuel with
  | O => Diverges
  | S fuel' =>
      if isAtEnd tokens current then Returns (rows, current)
      else
        match peek tokens current with
        | None => Throws "Cannot read properties of null (reading 'type')"
        | Some next =>
            if type_eqb (Lexer.type next) table_row then
              let (token, current) := advance tokens current in
              match token with
              | None => undefined_property "cells"
              | Some token =>
                  rows_loop fuel' tokens current
                    (rows ++ [row_node (Lexer.cells token)])
              end
            else Returns (rows, current)
        end
  end.

Definition parseTable (tokens : list Token) (current : nat)
  : Outcome (Node * nat) :=
  ' (rows, current) <-
      rows_loop (S (List.length tokens)) tokens current [] ;;
  Returns (mkNode NodeType.table None None None None None None None
             (Some rows) None None None None,
           current).

Definition parseParagraph (tokens : list Token) (current : nat)
  : Outcome (Node * nat) :=
  let (token, current) := advance tokens current in
  match token with
  | None => undefined_property "content"
  | Some token =>
      ch <- parseInlineContent (Some (Lexer.content token)) ;;
      Returns (block NodeType.paragraph (Lexer.content token) ch, current)
  end.

Definition parseText (tokens : list Token) (current : nat)
  : Outcome (Node * nat) :=
  let (token, current) := advance tokens current in
  match token with
  | None => undefined_property "content"
  | Some token => Returns (leaf NodeType.text (Lexer.content token), current)
  end.

(** [parseNode()]: the node or [null], and the new cursor. *)
Definition parseNode (tokens : list Token) (current : nat)
  : Outcome (option Node * nat) :=
  let some (r : Outcome (Node * nat)) : Outcome (option Node * nat) :=
    ' (node, current) <- r ;; Returns (Some node, current) in
  match peek tokens current with
  | None => Returns (None, current)
  | Some token =>
      match Lexer.type token with
      | header => some (parseHeader tokens current)
      | code_block => some (parseCodeBlock tokens current)
      | list_item => some (parseList tokens current)
      | ordered_list_item => some (parseOrderedList tokens current)
      | blockquote => some (parseBlockquote tokens current)
      | hr => some (parseHorizontalRule tokens current)
      | table_row => some (parseTable tokens current)
      | line_break => Returns (None, snd (advance tokens current))
      | paragraph => some (parseParagraph tokens current)
      | other => some (parseText tokens current)
      end
  end.

(** [while (!this.isAtEnd()) { ... }] of [parse]. *)
Fixpoint parse_loop (fuel : nat) (tokens : list Token) (current : nat)
    (children : list Node) : Outcome (list Node) :=
  match fuel with
  | O => Diverges
  | S fuel' =>
      if negb (isAtEnd tokens current) then
        ' (node, current) <- parseNode tokens current ;;
        parse_loop fuel' tokens current
          (match node with
           | Some node => children ++ [node]
           | None => children
           end)
      else Returns children
  end.

(** [{ type: 'document', children: children }] *)
Definition document_node (children : list Node) : Node :=
  mkNode NodeType.document None (Some children) None None None None None
    None None None None None.

(** [parse(tokens)] *)
Definition parse (tokens : list Token) : Outcome Node :=
  children <- parse_loop (S (List.length tokens)) tokens 0 [] ;;
  Returns (document_node children).

End Parser.

(** ** The renderer: [HTMLRenderer] *)

Module Renderer.

Import Ast.

(** [this.options]: the two keys the renderer reads. *)
Record Options : Type := mkOptions {
  highlight : bool;
  theme : string
}.

(** The double quote. *)
Definition dq : string := String (Js.chr 34) "".

(** [escapeHtml(text)]; [None] is a value that is not a string. *)
Definition escapeHtml (text : option string) : string :=
  match text with
  | None => ""
  | Some text =>
      Js.replaceAll "'" "&#39;"
        (Js.replaceAll (Js.chr 34) "&quot;"
           (Js.replaceAll ">" "&gt;"
              (Js.replaceAll "<" "&lt;"
                 (Js.replaceAll "&" "&amp;" text))))
  end.

(** [value || ''] *)
Definition or_empty (value : option string) : string :=
  match value with
  | Some s => s
  | None => ""
  end.

(** Truthiness of a property that holds a string when it is set. *)
Definition is_set (value : option string) : bool :=
  match value with
  | Some s => Js.truthy s
  | None => false
  end.

(** A number property inside a template literal. *)
Definition show_level (level : option nat) : string :=
  match level with
  | Some n => Js.toString n
  | None => "undefined"
  end.

Definition renderHorizontalRule : string := "<hr>".

(** [wrapInDocument(content)] *)
Definition wrapInDocument (options : Options) (content : string) : string :=
  let themeClass :=
    if String.eqb (theme options) "dark" then "dark-theme"
    else "light-theme" in
  Js.join Js.nl
    [ "<!DOCTYPE html>";
      "<html lang=" ++ dq ++ "en" ++ dq ++ " class=" ++ dq ++ themeClass
        ++ dq ++ ">";
      "<head>";
      "    <meta charset=" ++ dq ++ "UTF-8" ++ dq ++ ">";
      "    <meta name=" ++ dq ++ "viewport" ++ dq ++ " content=" ++ dq
        ++ "width=device-width, initial-scale=1.0" ++ dq ++ ">";
      "    <title>Markdown Document</title>";
      "    <link rel=" ++ dq ++ "stylesheet" ++ dq ++ " href=" ++ dq
        ++ "styles.css" ++ dq ++ ">";
      "</head>";
      "<body>";
      "    <div class=" ++ dq ++ "container" ++ dq ++ ">";
      "        " ++ content;
      "    </div>";
      "</body>";
      "</html>" ]%string.

(** [cells.map(cell => `<${tag}>${this.escapeHtml(cell)}</${tag}>`).join('')] *)
Definition render_cells (tag : string) (cells : list string) : string :=
  Js.join ""
    (map (fun cell =>
            "<" ++ tag ++ ">" ++ escapeHtml (Some cell) ++ "</" ++ tag ++ ">")%string
         cells).

(** [rows.map((row, index) => ...)] from [index] on. *)
Fixpoint render_rows (index : nat) (rows : list Node)
  : Outcome (list string) :=
  match rows with
  | [] => Returns []
  | row :: rows' =>
      match Ast.cells row with
      | None => Throws "Cannot read properties of undefined (reading 'map')"
      | Some cells =>
          let tag := if index =? 0 then "th" else "td" in
          rest <- render_rows (S index) rows' ;;
          Returns (("<tr>" ++ render_cells tag cells ++ "</tr>")%string :: rest)
      end
  end.

(** [renderTable(node)] *)
Definition renderTable (node : Node) : Outcome string :=
  match rows node with
  | None | Some [] => Returns ""
  | Some rows =>
      rendered <- render_rows 0 rows ;;
      Returns ("<table>" ++ Js.nl ++ Js.join Js.nl rendered ++ Js.nl
                 ++ "</table>")%string
  end.

Section WithHighlighter.

(** [hljs.highlight(code, { language }).value], or [None] when the call
    throws: the highlighter is a dependency of the repository. *)
Variable hljs_highlight : option string -> string -> option string.

Variable options : Options.

(** [renderCodeBlock(node)] *)
Definition renderCodeBlock (node : Node) : string :=
  let code :=
    if highlight options && is_set (language node) then
      match hljs_highlight (code node) (or_empty (language node)) with
      | Some highlighted => highlighted
      | None => escapeHtml (code node)
      end
    else escapeHtml (code node) in
  let languageClass :=
    if is_set (language node)
    then (" class=" ++ dq ++ "language-" ++ or_empty (language node) ++ dq)%string
    else "" in
  ("<pre><code" ++ languageClass ++ ">" ++ code ++ "</code></pre>")%string.

(** The methods that call back into [renderNode] take it as [self]. *)
Section Methods.

Variable self : Node -> Outcome string.

(** [nodes.map(child => this.renderNode(child)).join('')] *)
Definition render_children (nodes : list Node) : Outcome string :=
  parts <- mapM self nodes ;; Returns (Js.join "" parts).

(** [renderInlineContent(node)] *)
Definition renderInlineContent (node : Node) : Outcome string :=
  match Ast.children node with
  | Some (child :: rest) => render_children (child :: rest)
  | _ => Returns (escapeHtml (Some (or_empty (content node))))
  end.

(** [renderHeader(node)] *)
Definition renderHeader (node : Node) : Outcome string :=
  inner <- renderInlineContent node ;;
  Returns ("<h" ++ show_level (level node) ++ ">" ++ inner
             ++ "</h" ++ show_level (level node) ++ ">")%string.

(** [renderParagraph(node)] *)
Definition renderParagraph (node : Node) : Outcome string :=
  match Ast.children node with
  | Some (child :: rest) =>
      inner <- render_children (child :: rest) ;;
      Returns ("<p>" ++ inner ++ "</p>")%string
  | _ => Returns ("<p>" ++ escapeHtml (content node) ++ "</p>")%string
  end.

(** [item.children ? item.children.map(...).join('') :
    this.escapeHtml(item.content)] *)
Definition children_or_content (node : Node) : Outcome string :=
  match Ast.children node with
  | Some nodes => render_children nodes
  | None => Returns (escapeHtml (content node))
  end.

(** [node.items.map(item => ...).join('\n')] *)
Definition render_items (node : Node) : Outcome string :=
  match items node with
  | None => Throws "Cannot read properties of undefined (reading 'map')"
  | Some items =>
      rendered <-
        mapM (fun item =>
                inner <- children_or_content item ;;
                Returns ("<li>" ++ inner ++ "</li>")%string)
             items ;;
      Returns (Js.join Js.nl rendered)
  end.

(** [renderList(node)] *)
Definition renderList (node : Node) : Outcome string :=
  rendered <- render_items node ;;
  Returns ("<ul>" ++ Js.nl ++ rendered ++ Js.nl ++ "</ul>")%string.

(** [renderOrderedList(node)] *)
Definition renderOrderedList (node : Node) : Outcome string :=
  rendered <- render_items node ;;
  Returns ("<ol>" ++ Js.nl ++ rendered ++ Js.nl ++ "</ol>")%string.

(** [renderBlockquote(node)] *)
Definition renderBlockquote (node : Node) : Outcome string :=
  inner <- children_or_content node ;;
  Returns ("<blockquote>" ++ inner ++ "</blockquote>")%string.

(** The [switch] of [renderNode(node)]. *)
Definition render_case (node : Node) : Outcome string :=
  match Ast.type node with
  | NodeType.document =>
      match Ast.children node with
      | None => Throws "Cannot read properties of undefined (reading 'map')"
      | Some nodes =>
          parts <- mapM self nodes ;; Returns (Js.join Js.nl parts)
      end
  | NodeType.header => renderHeader node
  | NodeType.paragraph => renderParagraph node
  | NodeType.code_block => Returns (renderCodeBlock node)
  | NodeType.list => renderList node
  | NodeType.ordered_list => renderOrderedList node
  | NodeType.blockquote => renderBlockquote node
  | NodeType.hr => Returns renderHorizontalRule
  | NodeType.table => renderTable node
  | NodeType.text => Returns (escapeHtml (content node))
  | NodeType.bold =>
      inner <- renderInlineContent node ;;
      Returns ("<strong>" ++ inner ++ "</strong>")%string
  | NodeType.italic =>
      inner <- renderInlineContent node ;;
      Returns ("<em>" ++ inner ++ "</em>")%string
  | NodeType.inline_code =>
      Returns ("<code>" ++ escapeHtml (content node) ++ "</code>")%string
  | NodeType.link =>
      inner <- renderInlineContent node ;;
      Returns ("<a href=" ++ dq ++ escapeHtml (url node) ++ dq ++ ">"
                 ++ inner ++ "</a>")%string
  | NodeType.image =>
      Returns ("<img src=" ++ dq ++ escapeHtml (src node) ++ dq ++ " alt="
                 ++ dq ++ escapeHtml (alt node) ++ dq ++ " />")%string
  | NodeType.list_item | NodeType.table_row =>
      Returns (escapeHtml (Some (or_empty (content node))))
  end.

End Methods.

(** [renderNode(node)]; the guard [if (!node) return ''] is left out, since
    the lists of a tree hold nodes and never [null]. *)
Fixpoint renderNode (node : Node) : Outcome string :=
  render_case renderNode node.

(** [render(ast)]; [None] is [null]. *)
Definition render (ast : option Node) : Outcome string :=
  match ast with
  | None => Throws "Invalid AST: expected document node"
  | Some ast =>
      match Ast.type ast with
      | NodeType.document =>
          html <- renderNode ast ;;
          Returns (wrapInDocument options html)
      | _ => Throws "Invalid AST: expected document node"
      end
  end.

End WithHighlighter.

End Renderer.

(** ** The entry point: [MarkdownConverter] *)

Module Converter.

(** The [options] argument of a call: a key is [None] when the object does
    not have it.  Keys the renderer never reads are left out. *)
Record CallOptions : Type := mkCallOptions {
  highlight : option bool;
  theme : option string
}.

(** [{ highlight: true, theme: 'light', ...options }] is how the renderer's
    constructor starts. *)
Definition defaults : Renderer.Options := Renderer.mkOptions true "light".

(** [{ ...this.renderer.options, ...options }] *)
Definition spread (current : Renderer.Options) (options : CallOptions)
  : Renderer.Options :=
  Renderer.mkOptions
    (match highlight options with
     | Some h => h
     | None => Renderer.highlight current
     end)
    (match theme options with
     | Some t => t
     | None => Renderer.theme current
     end).

Section WithHighlighter.

Variable hljs_highlight : option string -> string -> option string.

(** [convert(markdown, options)] on a converter whose renderer holds
    [current]. *)
Definition convert (current : Renderer.Options) (markdown : Js.Value)
    (options : CallOptions) : Outcome string :=
  let attempt :=
    let renderer_options := spread current options in
    tokens <- Lexer.tokenize markdown ;;
    ast <- Parser.parse tokens ;;
    Renderer.render hljs_highlight renderer_options (Some ast) in
  match attempt with
  | Throws message => Throws ("Conversion failed: " ++ message)
  | outcome => outcome
  end.

End WithHighlighter.

End Converter.

(** ** A converter between calls *)

Module Session.

Import Converter.

Section WithHighlighter.

Variable hljs_highlight : option string -> string -> option string.

(** One call of [convert] on a converter whose renderer holds [current]:
    what the call returns or throws, and the options the renderer holds
    after it.  The assignment to [this.renderer.options] is the first
    statement of the [try] block, so it is made whatever comes next. *)
Definition call (current : Renderer.Options) (markdown : Js.Value)
    (options : CallOptions) : Outcome string * Renderer.Options :=
  (convert hljs_highlight current markdown options, spread current options).

(** Calls in a row on one converter: what each of them returns or throws. *)
Fixpoint calls (current : Renderer.Options)
    (arguments : list (Js.Value * CallOptions)) : list (Outcome string) :=
  match arguments with
  | [] => []
  | (markdown, options) :: later =>
      let (outcome, after) := call current markdown options in
      outcome :: calls after later
  end.

End WithHighlighter.

End Session.

(** ** The configuration: [Config.validate] *)

Module Config.

(** The values a key of a configuration object can hold: [Undefined] for a
    key that is absent or undefined, [Other] for an array or an object;
    numbers are the naturals. *)
Inductive Value : Type :=
| Undefined
| Null
| Boolean (b : bool)
| Number (n : nat)
| Text (s : string)
| Other.

Definition truthy (v : Value) : bool :=
  match v with
  | Undefined | Null => false
  | Boolean b => b
  | Number n => negb (n =? 0)
  | Text s => Js.truthy s
  | Other => true
  end.

(** [typeof v === 'boolean'] *)
Definition is_boolean (v : Value) : bool :=
  match v with
  | Boolean _ => true
  | _ => false
  end.

(** [typeof v === 'string'] *)
Definition is_string (v : Value) : bool :=
  match v with
  | Text _ => true
  | _ => false
  end.

(** [v !== undefined] *)
Definition is_defined (v : Value) : bool :=
  match v with
  | Undefined => false
  | _ => true
  end.

(** [['light', 'dark'].includes(v)] *)
Definition is_theme (v : Value) : bool :=
  match v with
  | Text s => String.eqb s "light" || String.eqb s "dark"
  | _ => false
  end.

(** A configuration object, by what [config[key]] gives. *)
Definition Object : Type := string -> Value.

Definition booleanOptions : list string :=
  ["highlight"; "toc"; "math"; "responsive"; "printStyles"; "watch";
   "verbose"].

Record Validation : Type := mkValidation {
  valid : bool;
  errors : list string;
  warnings : list string
}.

(** The errors of the [for] loop over [booleanOptions]. *)
Definition boolean_errors (config : Object) : list string :=
  flat_map
    (fun option =>
       if is_defined (config option) && negb (is_boolean (config option))
       then [(option ++ " must be a boolean value")%string]
       else [])
    booleanOptions.

(** [validate(config)] *)
Definition validate (config : Object) : Validation :=
  let theme_errors :=
    if truthy (config "theme") && negb (is_theme (config "theme"))
    then [("Theme must be " ++ Renderer.dq ++ "light" ++ Renderer.dq
           ++ " or " ++ Renderer.dq ++ "dark" ++ Renderer.dq)%string]
    else [] in
  let directory_errors :=
    if truthy (config "outputDir") && negb (is_string (config "outputDir"))
    then ["outputDir must be a string"]
    else [] in
  let errors := theme_errors ++ boolean_errors config ++ directory_errors in
  mkValidation (List.length errors =? 0) errors [].

End Config.

(** ** The background agent: the arguments of [main] *)

Module Agent.

(** The [options] object of [main]: a key that the loop has not set is
    [None].  [theme] and [outputDir] get [args[i + 1]], which is
    [undefined] ([Some None]) when the option is the last argument. *)
Record Options : Type := mkOptions {
  theme : option (option string);
  outputDir : option (option string);
  toc : option bool;
  math : option bool;
  highlight : option bool
}.

Definition empty : Options := mkOptions None None None None None.

(** [arg.replace(/^--/, '')] *)
Definition strip (arg : string) : string :=
  if Js.startsWith "--" arg then Js.drop 2 arg else arg.

(** The [switch] on the key: the options after it and by how much [i] is
    larger when the next iteration starts; a case with [i--] and the
    [i += 2] of the loop header move it by one. *)
Definition switch (key : string) (value : option string) (options : Options)
  : Options * nat :=
  if String.eqb key "theme" then
    (mkOptions (Some value) (outputDir options) (toc options) (math options)
       (highlight options), 2)
  else if String.eqb key "output-dir" then
    (mkOptions (theme options) (Some value) (toc options) (math options)
       (highlight options), 2)
  else if String.eqb key "toc" then
    (mkOptions (theme options) (outputDir options) (Some true)
       (math options) (highlight options), 1)
  else if String.eqb key "math" then
    (mkOptions (theme options) (outputDir options) (toc options)
       (Some true) (highlight options), 1)
  else if String.eqb key "no-highlight" then
    (mkOptions (theme options) (outputDir options) (toc options)
       (math options) (Some false), 1)
  else (options, 2).

(** [for (let i = 0; i < args.length; i += 2) { ... }] from [i] on. *)
Fixpoint args_loop (fuel : nat) (args : list string) (i : nat)
    (options : Options) : Outcome Options :=
  match fuel with
  | O => Diverges
  | S fuel' =>
      match nth_error args i with
      | None => Returns options
      | Some arg =>
          let (options', step) :=
            switch (strip arg) (nth_error args (i + 1)) options in
          args_loop fuel' args (i + step) options'
      end
  end.

(** The loop on all of [args], started with [options]. *)
Definition args_from (args : list string) (options : Options)
  : Outcome Options :=
  args_loop (S (List.length args)) args 0 options.

(** The options that [main] hands to the agent. *)
Definition parse_arguments (args : list string) : Outcome Options :=
  args_from args empty.

End Agent.

(** ** What the properties are stated with *)

Module Spec.

Import Lexer.

(** *** Lines and their tokens *)

Definition is_some {A} (o : option A) : bool :=
  match o with
  | Some _ => true
  | None => false
  end.

(** The categories of a trimmed line, in priority order. *)
Definition rules : list ((string -> bool) * TokenType) :=
  [ (fun s => negb (Js.truthy s), line_break);
    (fun s => is_some (match_header s), header);
    (fun s => Js.startsWith fence s, code_block);
    (fun s => is_some (match_list s), list_item);
    (fun s => is_some (match_ordered s), ordered_list_item);
    (fun s => Js.startsWith ">" s, blockquote);
    (fun s => test_hr s, hr);
    (fun s => Js.startsWith "|" s && Js.endsWith "|" s, table_row) ].

(** The category of the first rule that matches, [fallback] when none
    does. *)
Fixpoint first_match (rs : list ((string -> bool) * TokenType))
    (fallback : TokenType) (s : string) : TokenType :=
  match rs with
  | [] => fallback
  | (matches, ty) :: rs' =>
      if matches s then ty else first_match rs' fallback s
  end.

(** The category of a line, from the line alone. *)
Definition classify (line : string) : TokenType :=
  first_match rules paragraph (Js.trim line).

(** A token stands at a line of the input and has that line's category. *)
Definition classified (lines : list string) (t : Token) : Prop :=
  exists line,
    nth_error lines (position t) = Some line /\ type t = classify line.

(** A line whose trimmed form does not start with the fence. *)
Definition not_a_fence (l : string) : Prop :=
  Js.startsWith fence (Js.trim l) = false.

(** The first lines of [rest] up to, and without, the first one whose
    trimmed form starts with the fence. *)
Fixpoint code_lines (rest : list string) : list string :=
  match rest with
  | [] => []
  | l :: rest' =>
      if Js.startsWith fence (Js.trim l) then [] else l :: code_lines rest'
  end.

(** The token of a fenced block that opens at line [i]. *)
Definition fence_token (lines : list string) (i : nat) (line : string)
  : Token :=
  let body := code_lines (skipn (i + 1) lines) in
  mkToken code_block line (Js.join Js.nl body) i
    (i + 1 + List.length body - i + 1)
    None None (Some (Js.trim (Js.substringFrom 3 (Js.trim line))))
    (Some (Js.join Js.nl body)) None.

(** The cells of a row by its columns: the pieces between the pipes,
    trimmed, without the piece before the first pipe and the piece after
    the last one. *)
Definition cells_by_column (trimmedLine : string) : list string :=
  map Js.trim (removelast (tl (Js.split "|" trimmedLine))).

Import Ast Parser.

(** *** Inline nodes *)

(** [text] has the two asterisks of a bold marker at [i]: the test of
    [check_bold]. *)
Definition bold_marker_at (i : nat) (text : string) : Prop :=
  String.eqb (Js.substring i (i + 2) text) "**" = true.

(** The nodes a scan of [text] pushes.  A bold node is pushed for a [**]
    at some [i] whose closing [**] is found at [e]. *)
Inductive produced (text : string) : Node -> Prop :=
| produced_text (c : string) : produced text (leaf NodeType.text c)
| produced_bold (i e : nat) :
    bold_marker_at i text ->
    Js.indexOf "**" (i + 2) text = Some e ->
    produced text (leaf NodeType.bold (Js.substring (i + 2) e text))
| produced_italic (c : string) : produced text (leaf NodeType.italic c)
| produced_code (c : string) : produced text (leaf NodeType.inline_code c)
| produced_link (label url : string) : produced text (link_node label url)
| produced_image (alt src : string) : produced text (image_node alt src).

(** The types of the nodes of inline resolution. *)
Definition is_inline_type (ty : NodeType.t) : bool :=
  match ty with
  | NodeType.text | NodeType.bold | NodeType.italic | NodeType.inline_code
  | NodeType.link | NodeType.image => true
  | _ => false
  end.

(** The text of the text nodes of [nodes], in order. *)
Definition literal_text (nodes : list Node) : string :=
  Js.join ""
    (map (fun n => Renderer.or_empty (Ast.content n))
       (filter (fun n => match Ast.type n with
                         | NodeType.text => true
                         | _ => false
                         end) nodes)).

(** The plain text that a scan has found so far: the text of its text
    nodes and of its buffer. *)
Definition literal_so_far (st : Scan) : string :=
  (literal_text (children st) ++ currentText st)%string.

(** A marker check leaves the plain text found so far as it is. *)
Definition check_literal (l : string) (c : Check) : Prop :=
  match c with
  | Continue st' => literal_so_far st' = l
  | Next cur ch => (literal_text ch ++ cur)%string = l
  end.

(** What the loop keeps true from one iteration to the next, started at
    index [i0]. *)
Definition advanced (text : string) (i0 : nat) (st : Scan) : Prop :=
  Forall (produced text) (children st) /\ i0 < i st.

Definition check_keeps (text : string) (i0 : nat) (c : Check) : Prop :=
  match c with
  | Continue st => advanced text i0 st
  | Next _ ch => Forall (produced text) ch
  end.

(** The inline nodes of a text, as [parseInlineContent] returns them. *)
Definition inline (text : option string) : list Node :=
  match parseInlineContent text with
  | Returns ch => ch
  | _ => []
  end.

(** *** Tokens and their nodes *)

(** The first tokens of [rest] that have type [ty]. *)
Fixpoint run_of (ty : TokenType) (rest : list Token) : list Token :=
  match rest with
  | [] => []
  | t :: rest' =>
      if type_eqb (Lexer.type t) ty then t :: run_of ty rest' else []
  end.

(** [rest] starts with a token of type [ty]. *)
Definition starts_with (ty : TokenType) (rest : list Token) : bool :=
  match rest with
  | next :: _ => type_eqb (Lexer.type next) ty
  | [] => false
  end.

(** The maximal runs of consecutive tokens of type [ty] in [tokens], in
    order: a token of the type joins the run that starts right after it, if
    there is one, and starts a run of its own otherwise. *)
Fixpoint runs (ty : TokenType) (tokens : list Token) : list (list Token) :=
  match tokens with
  | [] => []
  | t :: rest =>
      if type_eqb (Lexer.type t) ty then
        if starts_with ty rest then
          match runs ty rest with
          | run :: others => (t :: run) :: others
          | [] => [[t]]
          end
        else [t] :: runs ty rest
      else runs ty rest
  end.

(** The list item of a token: its content, resolved on its own. *)
Definition item_node (t : Token) : Node :=
  block NodeType.list_item (Lexer.content t)
    (inline (Some (Lexer.content t))).

(** The unordered list of a run of tokens. *)
Definition list_of_run (run : list Token) : Node :=
  list_node NodeType.list (map item_node run).

(** The blockquote of a token. *)
Definition blockquote_node (t : Token) : Node :=
  block NodeType.blockquote (Lexer.content t)
    (inline (Some (Lexer.content t))).

(** What [parseNode] does when the cursor stands on token [t]: the node, if
    any, and how many tokens it takes. *)
Definition node_at (rest : list Token) (t : Token) : option Node * nat :=
  match Lexer.type t with
  | header =>
      (Some (mkNode NodeType.header None (Some (inline (Lexer.text t)))
               (Lexer.level t) (Lexer.text t) None None None None None
               None None None), 1)
  | code_block =>
      (Some (mkNode NodeType.code_block None None None None
               (Lexer.language t) (Lexer.code t) None None None None
               None None), 1)
  | list_item =>
      (Some (list_node NodeType.list (map item_node (run_of list_item rest))),
       List.length (run_of list_item rest))
  | ordered_list_item =>
      (Some (list_node NodeType.ordered_list
               (map item_node (run_of ordered_list_item rest))),
       List.length (run_of ordered_list_item rest))
  | blockquote => (Some (blockquote_node t), 1)
  | hr => (Some (object NodeType.hr), 1)
  | table_row =>
      (Some (mkNode NodeType.table None None None None None None None
               (Some (map (fun r => row_node (Lexer.cells r))
                        (run_of table_row rest)))
               None None None None),
       List.length (run_of table_row rest))
  | line_break => (None, 1)
  | paragraph =>
      (Some (block NodeType.paragraph (Lexer.content t)
               (inline (Some (Lexer.content t)))), 1)
  | other => (Some (leaf NodeType.text (Lexer.content t)), 1)
  end.

(** [children] with the node of a step, if it made one. *)
Definition push (children : list Node) (node : option Node) : list Node :=
  match node with
  | Some n => children ++ [n]
  | None => children
  end.

Definition is_list (n : Node) : bool :=
  match Ast.type n with
  | NodeType.list => true
  | _ => false
  end.

Definition is_blockquote_token (t : Token) : bool :=
  type_eqb (Lexer.type t) blockquote.

Definition is_blockquote (n : Node) : bool :=
  match Ast.type n with
  | NodeType.blockquote => true
  | _ => false
  end.

(** *** Markup *)

(** The entity of a character, or the character itself. *)
Definition escape_char (c : ascii) : string :=
  if Ascii.eqb c "&" then "&amp;"
  else if Ascii.eqb c "<" then "&lt;"
  else if Ascii.eqb c ">" then "&gt;"
  else if Ascii.eqb c (Js.chr 34) then "&quot;"
  else if Ascii.eqb c "'" then "&#39;"
  else String c "".

(** Every character replaced by [escape_char] of it, in one pass. *)
Fixpoint escape_each (s : string) : string :=
  match s with
  | "" => ""
  | String c s' => (escape_char c ++ escape_each s')%string
  end.

(** The characters that open a tag or close an attribute value. *)
Definition is_markup_char (c : ascii) : bool :=
  Ascii.eqb c "<" || Ascii.eqb c ">" || Ascii.eqb c (Js.chr 34)
  || Ascii.eqb c "'".

(** The markup of an inline node that has no children. *)
Definition flat_html (n : Node) : string :=
  let escaped := Renderer.escapeHtml (Ast.content n) in
  match Ast.type n with
  | NodeType.text => escaped
  | NodeType.bold => "<strong>" ++ escaped ++ "</strong>"
  | NodeType.italic => "<em>" ++ escaped ++ "</em>"
  | NodeType.inline_code => "<code>" ++ escaped ++ "</code>"
  | NodeType.link =>
      "<a href=" ++ Renderer.dq ++ Renderer.escapeHtml (Ast.url n)
        ++ Renderer.dq ++ ">" ++ escaped ++ "</a>"
  | NodeType.image =>
      "<img src=" ++ Renderer.dq ++ Renderer.escapeHtml (Ast.src n)
        ++ Renderer.dq ++ " alt=" ++ Renderer.dq
        ++ Renderer.escapeHtml (Ast.alt n) ++ Renderer.dq ++ " />"
  | _ => escaped
  end%string.

(** The markup of a list item whose children are inline leaves. *)
Definition item_html (item : Node) : string :=
  ("<li>"
   ++ Js.join "" (map flat_html
                    (match Ast.children item with
                     | Some ch => ch
                     | None => []
                     end))
   ++ "</li>")%string.

(** A node that the serializer renders. *)
Definition renders
    (hljs_highlight : option string -> string -> option string)
    (options : Renderer.Options) (n : Node) : Prop :=
  exists html, Renderer.renderNode hljs_highlight options n = Returns html.

End Spec.

(** ** What the further properties are stated with *)

Module Props.

Import Lexer.

(** [l] increases strictly and starts at [lo] or above. *)
Fixpoint increasing_from (lo : nat) (l : list nat) : Prop :=
  match l with
  | [] => True
  | p :: l' => lo <= p /\ increasing_from (S p) l'
  end.

(** [n] number signs. *)
Fixpoint hashes (n : nat) : string :=
  match n with
  | O => ""
  | S n' => String "#" (hashes n')
  end.

(** A header token made from [line]: between one and six number signs,
    then whitespace, then the text, which is not empty and holds no line
    terminator. *)
Definition header_of (line : string) (t : Token) : Prop :=
  exists n ws txt,
    Js.trim line = (hashes n ++ ws ++ txt)%string /\
    1 <= n /\ n <= 6 /\
    ws <> "" /\ Js.all_chars Js.is_space ws = true /\
    txt <> "" /\
    Js.all_chars (fun c => negb (Js.is_line_terminator c)) txt = true /\
    level t = Some n /\ text t = Some txt /\ content t = txt /\
    value t = line.

(** A line that is empty once trimmed. *)
Definition blank (line : string) : Prop := Js.trim line = "".

Import Ast Parser.

Definition is_ordered_list (n : Node) : bool :=
  match Ast.type n with
  | NodeType.ordered_list => true
  | _ => false
  end.

(** The ordered list of a run of tokens. *)
Definition ordered_list_of_run (run : list Token) : Node :=
  list_node NodeType.ordered_list (map Spec.item_node run).

Definition is_table (n : Node) : bool :=
  match Ast.type n with
  | NodeType.table => true
  | _ => false
  end.

(** The table of a run of tokens: a row for each token, with its cells. *)
Definition table_of_run (run : list Token) : Node :=
  mkNode NodeType.table None None None None None None None
    (Some (map (fun r => row_node (Lexer.cells r)) run))
    None None None None.

(** A token that is not a line break. *)
Definition is_content_token (t : Token) : bool :=
  negb (type_eqb (Lexer.type t) line_break).

(** *** The inline scan *)

(** A character that opens no inline construct. *)
Definition is_plain (c : ascii) : bool :=
  negb (Ascii.eqb c "*" || Ascii.eqb c "`" || Ascii.eqb c "[").

(** A text without an asterisk, a backtick or an opening bracket. *)
Definition plain (s : string) : bool := Js.all_chars is_plain s.

(** A text without the character [c]. *)
Definition free_of (c : ascii) (s : string) : bool :=
  Js.all_chars (fun a => negb (Ascii.eqb a c)) s.

(** The text node of a buffer that is not empty. *)
Definition text_nodes (s : string) : list Node :=
  if Js.truthy s then [leaf NodeType.text s] else [].

(** [before] ends with an exclamation mark and [after] starts with an
    opening bracket: together they open an image. *)
Definition opens_image (before after : string) : bool :=
  Js.endsWith "!" before && Js.startsWith "[" after.

(** The loop of [parseInlineContent] from a state, with the fuel that the
    characters left call for. *)
Definition scan_from (text : string) (st : Scan) : Outcome Scan :=
  inline_loop (S (String.length text - i st)) text st.

(** A state of the scan of a text, seen from a text that has [k] more
    characters in front, with the nodes [before] already pushed. *)
Definition moved (k : nat) (before : list Node) (st : Scan) : Scan :=
  mkScan (k + i st) (currentText st) (before ++ children st).

Definition moved_check (k : nat) (before : list Node) (c : Check) : Check :=
  match c with
  | Continue st => Continue (moved k before st)
  | Next cur ch => Next cur (before ++ ch)
  end.

(** The Markdown that an inline node stands for. *)
Definition unparse (n : Node) : string :=
  let c := Renderer.or_empty (Ast.content n) in
  match Ast.type n with
  | NodeType.bold => "**" ++ c ++ "**"
  | NodeType.italic => "*" ++ c ++ "*"
  | NodeType.inline_code => "`" ++ c ++ "`"
  | NodeType.link => "[" ++ c ++ "](" ++ Renderer.or_empty (Ast.url n) ++ ")"
  | NodeType.image =>
      "![" ++ Renderer.or_empty (Ast.alt n) ++ "]("
        ++ Renderer.or_empty (Ast.src n) ++ ")"
  | _ => c
  end%string.

Fixpoint unparse_all (nodes : list Node) : string :=
  match nodes with
  | [] => ""
  | n :: nodes' => (unparse n ++ unparse_all nodes')%string
  end.

(** The characters of [s] from index [a] up to, and without, index [b]. *)
Definition segment (a b : nat) (s : string) : string :=
  String.substring a (b - a) s.

(** What a state of the scan of [text] has read: the nodes and the buffer
    spell the text before the cursor. *)
Definition spelled (text : string) (st : Scan) : Prop :=
  (unparse_all (children st) ++ currentText st)%string
  = segment 0 (i st) text.

(** What a check leaves spelled, whether it continues or goes on to the
    next check. *)
Definition check_spelled (text : string) (st : Scan) (c : Check) : Prop :=
  match c with
  | Continue st' => spelled text st'
  | Next cur ch => spelled text (mkScan (i st) cur ch)
  end.

(** *** Markup *)

(** The five characters that [escapeHtml] replaces. *)
Definition is_special (c : ascii) : bool :=
  Ascii.eqb c "&" || Ascii.eqb c "<" || Ascii.eqb c ">"
  || Ascii.eqb c (Js.chr 34) || Ascii.eqb c "'".

(** A text without any of the five characters. *)
Definition clean (s : string) : bool :=
  Js.all_chars (fun c => negb (is_special c)) s.

(** The markup of the row of a table-row token, with [tag] around each
    cell. *)
Definition row_html (tag : string) (t : Token) : string :=
  ("<tr>"
   ++ Renderer.render_cells tag
        (match Lexer.cells t with Some c => c | None => [] end)
   ++ "</tr>")%string.

(** *** Options *)

(** The options of two calls, those of the second call first. *)
Definition merge (first second : Converter.CallOptions)
  : Converter.CallOptions :=
  Converter.mkCallOptions
    (match Converter.highlight second with
     | Some h => Some h
     | None => Converter.highlight first
     end)
    (match Converter.theme second with
     | Some t => Some t
     | None => Converter.theme first
     end).

(** *** Simple documents

    A fragment of Markdown in which every line stands for itself: titles,
    lines of words, quotes, rules and blank lines. *)

Inductive Line : Type :=
| Title (level : nat) (title : string)
| Words (words : string)
| Quote (words : string)
| Rule (marks : string)
| Blank (spaces : string).

(** A text without line feed. *)
Definition no_newline (s : string) : bool := free_of Js.newline s.

(** A text without line terminator. *)
Definition one_line (s : string) : bool :=
  Js.all_chars (fun c => negb (Js.is_line_terminator c)) s.

(** A text that is not empty and has no white space at either end. *)
Definition tight (s : string) : bool :=
  match s with
  | String c _ => negb (Js.is_space c) && String.eqb (Js.trimEnd s) s
  | "" => false
  end.

(** A character with which a line of another kind than a paragraph can
    start. *)
Definition opens_block (c : ascii) : bool :=
  Ascii.eqb c "#" || Ascii.eqb c "`" || Lexer.is_bullet c || Js.is_digit c
  || Ascii.eqb c ">" || Lexer.is_rule_char c || Ascii.eqb c "|".

(** A line whose first character after the white space opens no block. *)
Definition wordy (s : string) : bool :=
  match Js.trim s with
  | String c _ => negb (opens_block c)
  | "" => false
  end.

(** The lines of the fragment: the words have no inline marker, and no line
    holds a line feed. *)
Definition simple (l : Line) : bool :=
  match l with
  | Title level title =>
      (1 <=? level) && (level <=? 6) && tight title && plain title
      && one_line title
  | Words words => wordy words && plain words && no_newline words
  | Quote words => tight words && plain words && no_newline words
  | Rule marks => Lexer.test_hr marks
  | Blank spaces => String.eqb (Js.trim spaces) "" && no_newline spaces
  end.

(** The Markdown line of a line. *)
Definition source (l : Line) : string :=
  match l with
  | Title level title => (hashes level ++ " " ++ title)%string
  | Words words => words
  | Quote words => ("> " ++ words)%string
  | Rule marks => marks
  | Blank spaces => spaces
  end.

(** The markup of a line: nothing for a blank line. *)
Definition markup (l : Line) : list string :=
  match l with
  | Title level title =>
      [("<h" ++ Js.toString level ++ ">" ++ Renderer.escapeHtml (Some title)
        ++ "</h" ++ Js.toString level ++ ">")%string]
  | Words words =>
      [("<p>" ++ Renderer.escapeHtml (Some words) ++ "</p>")%string]
  | Quote words =>
      [("<blockquote>" ++ Renderer.escapeHtml (Some words)
        ++ "</blockquote>")%string]
  | Rule _ => ["<hr>"]
  | Blank _ => []
  end.

(** The token of a line that stands at index [i]. *)
Definition token_of (i : nat) (l : Line) : Token :=
  match l with
  | Title level title =>
      mkToken header (source l) title i (String.length (source l))
        (Some level) (Some title) None None None
  | Words words =>
      mkToken paragraph words words i (String.length words)
        None None None None None
  | Quote words =>
      mkToken blockquote (source l) words i (String.length (source l))
        None None None None None
  | Rule marks =>
      mkToken hr marks marks i (String.length marks) None None None None None
  | Blank _ => mkToken line_break Js.nl Js.nl i 1 None None None None None
  end.

Fixpoint tokens_from (i : nat) (doc : list Line) : list Token :=
  match doc with
  | [] => []
  | l :: doc' => token_of i l :: tokens_from (S i) doc'
  end.

(** The node of a line: none for a blank line. *)
Definition node_of (l : Line) : list Node :=
  match l with
  | Title level title =>
      [mkNode NodeType.header None (Some [leaf NodeType.text title])
         (Some level) (Some title) None None None None None None None None]
  | Words words =>
      [block NodeType.paragraph words [leaf NodeType.text words]]
  | Quote words =>
      [block NodeType.blockquote words [leaf NodeType.text words]]
  | Rule _ => [object NodeType.hr]
  | Blank _ => []
  end.

(** *** Lists of one kind *)










(** *** Fenced code *)

(** What follows the opening fence: nothing, or a tight text. *)
Definition label (lang : string) : bool := negb (Js.truthy lang) || tight lang.

(** A line that can stand inside a fenced block: its trimmed form does not
    start with the fence, and it holds no line feed. *)
Definition code_line (l : string) : bool :=
  negb (Js.startsWith Lexer.fence (Js.trim l)) && no_newline l.

(** The node of a fenced block with the language [lang] and the lines
    [body]. *)
Definition code_node (lang : string) (body : list string) : Node :=
  mkNode NodeType.code_block None None None None (Some lang)
    (Some (Js.join Js.nl body)) None None None None None None.

(** *** Tables of rows *)

(** A cell: tight, without pipe and without line feed. *)
Definition cell_words (c : string) : bool :=
  tight c && free_of "|" c && no_newline c.

(** A cell as a row is written from it: nothing at all, or words. *)
Definition cell_text (c : string) : bool :=
  negb (Js.truthy c) || cell_words c.

(** The cells of a row that are not empty. *)
Definition kept (cells : list string) : list string :=
  filter Js.truthy cells.

(** A cell between two blanks. *)
Definition padded (c : string) : string := (" " ++ c ++ " ")%string.

(** The cells of a row, each between blanks and with a pipe after it. *)
Fixpoint cells_text (cells : list string) : string :=
  match cells with
  | [] => ""
  | c :: cells' => (padded c ++ "|" ++ cells_text cells')%string
  end.

(** The line of a row. *)
Definition row_line (cells : list string) : string :=
  String "|" (cells_text cells).

(** The token of the line of a row, at index [i]: its cells are the cells
    of the line that are not empty. *)
Definition row_token (i : nat) (cells : list string) : Token :=
  mkToken table_row (row_line cells) (row_line cells) i
    (String.length (row_line cells)) None None None None
    (Some (kept cells)).

Fixpoint row_tokens (i : nat) (rows : list (list string)) : list Token :=
  match rows with
  | [] => []
  | cells :: rows' => row_token i cells :: row_tokens (S i) rows'
  end.

(** The markup of a cell: its text, escaped, inside [tag]. *)
Definition cell_markup (tag c : string) : string :=
  ("<" ++ tag ++ ">" ++ Renderer.escapeHtml (Some c) ++ "</" ++ tag ++ ">")%string.

(** The markup of a row, with [tag] around each cell. *)
Definition row_markup (tag : string) (cells : list string) : string :=
  ("<tr>" ++ Js.join "" (map (cell_markup tag) cells) ++ "</tr>")%string.

(** The markup of a table: the first row in header cells. *)
Definition table_markup (first : list string) (others : list (list string))
  : string :=
  ("<table>" ++ Js.nl
   ++ Js.join Js.nl (row_markup "th" first :: map (row_markup "td") others)
   ++ Js.nl ++ "</table>")%string.

(** [arg] is the option [name], written with or without the two dashes. *)
Definition named (name arg : string) : Prop :=
  arg = name \/ arg = ("--" ++ name)%string.

(** A key that the [switch] of the agent's argument loop has a case for. *)
Definition is_option (key : string) : bool :=
  String.eqb key "theme" || String.eqb key "output-dir"
  || String.eqb key "toc" || String.eqb key "math"
  || String.eqb key "no-highlight".

(** Each call with the options of the calls before it merged into its own,
    starting from [given]. *)
Fixpoint merged (given : Converter.CallOptions)
    (arguments : list (Js.Value * Converter.CallOptions))
  : list (Js.Value * Converter.CallOptions) :=
  match arguments with
  | [] => []
  | (markdown, options) :: later =>
      (markdown, merge given options) :: merged (merge given options) later
  end.

End Props.

(** ** Cases of the test suite of [MarkdownConverter]

    Each case converts with a new converter; the highlighter is one that
    always throws, so a code block is escaped text. *)

Module Tests.

Definition converted (markdown : string) : Outcome string :=
  Converter.convert (fun _ _ => None) Converter.defaults
    (Js.VString markdown) (Converter.mkCallOptions None None).

(** [expect(html).toContain(piece)] *)
Definition toContain (piece : string) (html : Outcome string) : bool :=
  match html with
  | Returns html => Js.includes piece html
  | _ => false
  end.

Example should_convert_simple_markdown :
  let html := converted ("# Hello World" ++ Js.nl ++ Js.nl
                         ++ "This is a **bold** text.") in
  toContain "<h1>Hello World</h1>" html = true /\
  toContain "<strong>bold</strong>" html = true /\
  toContain "<!DOCTYPE html>" html = true.
Proof. vm_compute. auto. Qed.

Example should_handle_empty_markdown :
  toContain "<body>" (converted "") = true /\
  toContain "</body>" (converted "") = true.
Proof. vm_compute. auto. Qed.

Example should_convert_headers_of_all_levels :
  let html := converted ("# H1" ++ Js.nl ++ "## H2" ++ Js.nl ++ "### H3"
                         ++ Js.nl ++ "#### H4" ++ Js.nl ++ "##### H5"
                         ++ Js.nl ++ "###### H6") in
  toContain "<h1>H1</h1>" html = true /\
  toContain "<h3>H3</h3>" html = true /\
  toContain "<h6>H6</h6>" html = true.
Proof. vm_compute. auto. Qed.

Example should_convert_inline_formatting :
  toContain "<em>italic</em>" (converted "This is *italic* text.") = true /\
  toContain "<code>inline code</code>" (converted "This is `inline code`.")
  = true.
Proof. vm_compute. auto. Qed.

Example should_convert_lists :
  let unordered := converted ("- Item 1" ++ Js.nl ++ "- Item 2") in
  let ordered := converted ("1. First item" ++ Js.nl ++ "2. Second item") in
  toContain ("<ul>" ++ Js.nl ++ "<li>Item 1</li>" ++ Js.nl
               ++ "<li>Item 2</li>" ++ Js.nl ++ "</ul>") unordered = true /\
  toContain ("<ol>" ++ Js.nl ++ "<li>First item</li>" ++ Js.nl
               ++ "<li>Second item</li>" ++ Js.nl ++ "</ol>") ordered = true.
Proof. vm_compute. auto. Qed.

Example should_convert_links_and_images :
  toContain ("<a href=" ++ Renderer.dq ++ "https://google.com" ++ Renderer.dq
               ++ ">Google</a>")
    (converted "[Google](https://google.com)") = true /\
  toContain ("<img src=" ++ Renderer.dq ++ "https://example.com/image.jpg"
               ++ Renderer.dq ++ " alt=" ++ Renderer.dq ++ "Alt text"
               ++ Renderer.dq ++ " />")
    (converted "![Alt text](https://example.com/image.jpg)") = true.
Proof. vm_compute. auto. Qed.

Example should_convert_blockquotes_and_tables :
  toContain "<blockquote>This is a blockquote</blockquote>"
    (converted ("> This is a blockquote" ++ Js.nl ++ "> with multiple lines"))
  = true /\
  (let html := converted ("| Header 1 | Header 2 |" ++ Js.nl
                          ++ "|----------|----------|" ++ Js.nl
                          ++ "| Cell 1   | Cell 2   |") in
   toContain "<table>" html = true /\
   toContain "<th>Header 1</th>" html = true /\
   toContain "<td>Cell 1</td>" html = true).
Proof. vm_compute. auto. Qed.

Example should_throw_for_invalid_input :
  Renderer.render (fun _ _ => None) Converter.defaults None
  = Throws "Invalid AST: expected document node" /\
  Converter.convert (fun _ _ => None) Converter.defaults Js.VUndefined
    (Converter.mkCallOptions None None)
  = Throws
      "Conversion failed: Cannot read properties of undefined (reading 'split')".
Proof. split; reflexivity. Qed.

End Tests.

(** ** Lists and strings *)

Lemma skipn_cons_nth_error {A : Type} (l : list A) (j : nat) (x : A) :
  nth_error l j = Some x -> skipn j l = x :: skipn (S j) l.
Proof.
  revert j; induction l as [|a l IH]; intros [|j] H; simpl in *;
    try discriminate.
  - now inversion H.
  - now apply IH.
Qed.

Lemma skipn_nil_nth_error {A : Type} (l : list A) (j : nat) :
  nth_error l j = None -> skipn j l = [].
Proof.
  revert j; induction l as [|a l IH]; intros [|j] H; simpl in *;
    try discriminate; auto.
Qed.

Lemma skipn_length_app {A : Type} (l tail : list A) :
  skipn (List.length l) (l ++ tail) = tail.
Proof. induction l; simpl; auto. Qed.

Lemma nth_error_in_range {A : Type} (l : list A) (j : nat) (x : A) :
  nth_error l j = Some x -> j < List.length l.
Proof.
  intros H. apply nth_error_Some. congruence.
Qed.

Lemma prefix_fence (s : string) :
  Js.startsWith Lexer.fence s = true ->
  exists s', s = String "`" (String "`" (String "`" s')).
Proof.
  unfold Js.startsWith, Lexer.fence. rewrite String.prefix_correct.
  destruct s as [|a [|b [|c s']]]; simpl; try discriminate.
  intros H. injection H as -> -> ->. now exists s'.
Qed.

Lemma js_substring_span (i n : nat) (s : string) :
  Js.substring i (i + n) s = String.substring i n s.
Proof.
  unfold Js.substring. rewrite Nat.min_l, Nat.max_r by lia.
  f_equal. lia.
Qed.

Lemma substring_head (s : string) :
  forall (i m : nat) (c : ascii),
    String.get i s = Some c ->
    String.substring i (S m) s = String c (String.substring (S i) m s).
Proof.
  induction s as [|a s IH]; intros [|i] m c H; simpl in *; try discriminate.
  - now injection H as ->.
  - rewrite (IH i m c H). reflexivity.
Qed.

Lemma substring_out_of_range (s : string) :
  forall (i m : nat), String.get i s = None -> String.substring i m s = "".
Proof.
  induction s as [|a s IH]; intros [|i] m H; simpl in *;
    try discriminate; try (destruct m; reflexivity).
  now apply IH.
Qed.

Lemma substring_empty (s : string) :
  forall i, String.substring i 0 s = "".
Proof.
  induction s as [|a s IH]; intros [|i]; simpl; auto.
Qed.

(** The two-character test at [i] against the characters [a] and [b]. *)
Lemma two_chars_at (i : nat) (a b : ascii) (s : string) :
  String.eqb (Js.substring i (i + 2) s) (String a (String b "")) = true <->
  String.get i s = Some a /\ String.get (S i) s = Some b.
Proof.
  rewrite js_substring_span, String.eqb_eq. split.
  - intros H. destruct (String.get i s) as [c|] eqn:Hc.
    + rewrite (substring_head s i 1 c Hc) in H. injection H as -> H.
      destruct (String.get (S i) s) as [d|] eqn:Hd.
      * rewrite (substring_head s (S i) 0 d Hd) in H. injection H as -> _.
        auto.
      * rewrite (substring_out_of_range s (S i) 1 Hd) in H. discriminate.
    + rewrite (substring_out_of_range s i 2 Hc) in H. discriminate.
  - intros [Ha Hb].
    rewrite (substring_head s i 1 a Ha), (substring_head s (S i) 0 b Hb).
    now rewrite substring_empty.
Qed.

Lemma charIs_get (i : nat) (c : ascii) (s : string) :
  Js.charIs i c s = true <-> String.get i s = Some c.
Proof.
  unfold Js.charIs, Js.charAt. destruct (String.get i s) as [a|].
  - rewrite Ascii.eqb_eq. split; congruence.
  - split; discriminate.
Qed.

Lemma charIs_other (i : nat) (a c : ascii) (s : string) :
  String.get i s = Some a -> a <> c -> Js.charIs i c s = false.
Proof.
  intros H Hne. unfold Js.charIs, Js.charAt. rewrite H.
  now apply Ascii.eqb_neq.
Qed.

(** No occurrence from [n] on means no occurrence at any later index. *)
Lemma indexOf_none_char (c : ascii) (n p : nat) (s : string) :
  Js.indexOf (String c "") n s = None -> n <= p ->
  Js.charIs p c s = false.
Proof.
  intros H Hp. destruct (Js.charIs p c s) eqn:E; [|reflexivity].
  apply charIs_get in E. exfalso.
  apply (String.index_correct3 n p (String c "") s H); auto.
  - discriminate.
  - simpl. rewrite (substring_head s p 0 c E). now rewrite substring_empty.
Qed.

(** ** The lexer *)

Module LexerFacts.

Import Lexer Spec.

Lemma fence_loop_spec (fuel : nat) (lines : list string) :
  forall (j : nat) (acc : list string),
    List.length lines - j < fuel ->
    fence_loop fuel lines j acc =
    Returns (j + List.length (code_lines (skipn j lines)),
             acc ++ code_lines (skipn j lines)).
Proof.
  induction fuel as [|fuel IH]; intros j acc Hfuel; [lia|].
  simpl. destruct (nth_error lines j) as [l|] eqn:Hj.
  - rewrite (skipn_cons_nth_error _ _ _ Hj). simpl.
    destruct (Js.startsWith fence (Js.trim l)).
    + now rewrite Nat.add_0_r, app_nil_r.
    + pose proof (nth_error_in_range _ _ _ Hj).
      rewrite IH by lia. simpl. rewrite <- app_assoc. simpl.
      do 2 f_equal. lia.
  - rewrite (skipn_nil_nth_error _ _ Hj). simpl.
    now rewrite Nat.add_0_r, app_nil_r.
Qed.

(** A line that opens a fence is neither blank nor a header. *)
Lemma fence_not_earlier (s : string) :
  Js.startsWith fence s = true ->
  Js.truthy s = true /\ match_header s = None.
Proof.
  intros H. destruct (prefix_fence _ H) as [s' ->]. split; reflexivity.
Qed.

Lemma tokenize_line_fence (lines : list string) (i : nat) (line : string) :
  Js.startsWith fence (Js.trim line) = true ->
  tokenize_line lines i line =
  Returns (fence_token lines i line,
           i + 1 + List.length (code_lines (skipn (i + 1) lines))).
Proof.
  intros Hf. unfold tokenize_line.
  destruct (fence_not_earlier _ Hf) as [-> ->]. simpl negb. cbv iota.
  rewrite Hf. rewrite fence_loop_spec by lia. reflexivity.
Qed.

(** The body of the loop always pushes one token, of the category of the
    line, and moves the cursor forward only for a fenced block. *)
Lemma tokenize_line_returns (lines : list string) (i : nat) (line : string) :
  exists token i',
    tokenize_line lines i line = Returns (token, i') /\
    type token = classify line /\ position token = i /\ i <= i' /\
    (type token <> code_block -> i' = i).
Proof.
  unfold classify, rules, first_match.
  destruct (Js.truthy (Js.trim line)) eqn:Hblank; simpl negb; cbv iota.
  2:{ unfold tokenize_line. rewrite Hblank. simpl.
      eexists _, _. repeat split; eauto. }
  destruct (match_header (Js.trim line)) as [[hashes txt]|] eqn:Hheader;
    simpl is_some; cbv iota.
  { unfold tokenize_line. rewrite Hblank, Hheader. simpl.
    eexists _, _. repeat split; eauto. }
  destruct (Js.startsWith fence (Js.trim line)) eqn:Hfence.
  { rewrite tokenize_line_fence by assumption.
    eexists _, _. repeat split; eauto; simpl; try lia. congruence. }
  unfold tokenize_line. rewrite Hblank, Hheader, Hfence. simpl negb. cbv iota.
  destruct (match_list (Js.trim line)) as [item|]; simpl is_some; cbv iota.
  { eexists _, _. repeat split; eauto. }
  destruct (match_ordered (Js.trim line)) as [item|]; simpl is_some; cbv iota.
  { eexists _, _. repeat split; eauto. }
  destruct (Js.startsWith ">" (Js.trim line)).
  { eexists _, _. repeat split; eauto. }
  destruct (test_hr (Js.trim line)).
  { eexists _, _. repeat split; eauto. }
  destruct (Js.startsWith "|" (Js.trim line) && Js.endsWith "|" (Js.trim line)).
  { eexists _, _. repeat split; eauto. }
  eexists _, _. repeat split; eauto.
Qed.

(** The loop ends, and every token it pushes is classified. *)
Lemma tokenize_loop_classified (lines : list string) (fuel : nat) :
  forall (i : nat) (tokens : list Token),
    List.length lines - i < fuel ->
    Forall (classified lines) tokens ->
    exists result,
      tokenize_loop fuel lines i tokens = Returns result /\
      Forall (classified lines) result.
Proof.
  induction fuel as [|fuel IH]; intros i tokens Hfuel Hinv; [lia|].
  simpl. destruct (nth_error lines i) as [line|] eqn:Hline.
  - pose proof (nth_error_in_range _ _ _ Hline) as Hi.
    destruct (tokenize_line_returns lines i line)
      as (token & i' & -> & Hty & Hpos & Hle & _).
    simpl. apply IH; [lia|].
    apply Forall_app. split; [assumption|].
    constructor; [|constructor].
    exists line. now rewrite Hpos.
  - eauto.
Qed.

Lemma classify_code_block (line : string) :
  classify line = code_block -> Js.startsWith fence (Js.trim line) = true.
Proof.
  unfold classify, rules, first_match.
  destruct (negb _); [discriminate|].
  destruct (is_some (match_header _)); [discriminate|].
  destruct (Js.startsWith fence _); [reflexivity|].
  destruct (is_some (match_list _)); [discriminate|].
  destruct (is_some (match_ordered _)); [discriminate|].
  destruct (Js.startsWith ">" _); [discriminate|].
  destruct (test_hr _); [discriminate|].
  destruct (_ && _); discriminate.
Qed.

(** Without a fence every line gets its own token, in order. *)
Lemma tokenize_loop_line_by_line (lines : list string) (fuel : nat) :
  Forall not_a_fence lines ->
  forall (i : nat) (tokens : list Token),
    List.length lines - i < fuel ->
    exists result,
      tokenize_loop fuel lines i tokens = Returns result /\
      map type result = map type tokens ++ map classify (skipn i lines).
Proof.
  intros Hlines. induction fuel as [|fuel IH]; intros i tokens Hfuel; [lia|].
  cbn [tokenize_loop]. destruct (nth_error lines i) as [line|] eqn:Hline.
  - destruct (tokenize_line_returns lines i line)
      as (token & i' & -> & Hty & _ & _ & Hsame).
    cbn [bind].
    assert (Hi : i' = i).
    { apply Hsame. rewrite Hty. intros Hc.
      apply classify_code_block in Hc.
      rewrite Forall_forall in Hlines.
      specialize (Hlines line (nth_error_In _ _ Hline)).
      unfold not_a_fence in Hlines. congruence. }
    subst i'. pose proof (nth_error_in_range _ _ _ Hline).
    destruct (IH (S i) (tokens ++ [token])) as (result & -> & Hmap); [lia|].
    exists result. split; [reflexivity|].
    rewrite Hmap, map_app, <- app_assoc, (skipn_cons_nth_error _ _ _ Hline).
    cbn [map app]. now rewrite Hty.
  - exists tokens. split; [reflexivity|].
    rewrite (skipn_nil_nth_error _ _ Hline). cbn [map].
    now rewrite app_nil_r.
Qed.

Lemma code_lines_split (rest : list string) :
  exists tail,
    rest = code_lines rest ++ tail /\
    Forall not_a_fence (code_lines rest) /\
    match tail with
    | [] => True
    | closing :: _ => Js.startsWith fence (Js.trim closing) = true
    end.
Proof.
  induction rest as [|l rest (tail & E & Hbody & Htail)]; simpl.
  - exists []. auto.
  - destruct (Js.startsWith fence (Js.trim l)) eqn:Hl.
    + exists (l :: rest). auto.
    + exists tail. simpl. rewrite <- E. auto.
Qed.

Lemma code_lines_all (rest : list string) :
  Forall not_a_fence rest -> code_lines rest = rest.
Proof.
  induction 1 as [|l rest Hl _ IH]; simpl; auto.
  unfold not_a_fence in Hl. now rewrite Hl, IH.
Qed.

Lemma starts_with_pipe (s : string) :
  Js.startsWith "|" s = true -> exists s', s = String "|" s'.
Proof.
  unfold Js.startsWith. rewrite String.prefix_correct.
  destruct s as [|a s']; simpl; try discriminate.
  intros H. injection H as ->. eauto.
Qed.

(** A trimmed line that starts with a pipe matches none of the rules
    before the table row. *)
Lemma pipe_not_earlier (s' : string) :
  let s := String "|" s' in
  Js.truthy s = true /\ match_header s = None /\
  Js.startsWith fence s = false /\ match_list s = None /\
  match_ordered s = None /\ Js.startsWith ">" s = false /\
  test_hr s = false.
Proof.
  repeat split.
  unfold test_hr. cbn [Js.all_chars].
  replace (is_rule_char "|") with false by reflexivity.
  cbn [andb]. apply andb_false_r.
Qed.

Lemma tokenize_line_table_row (lines : list string) (i : nat)
    (line : string) :
  Js.startsWith "|" (Js.trim line) = true ->
  Js.endsWith "|" (Js.trim line) = true ->
  tokenize_line lines i line =
  Returns (mkToken table_row line (Js.trim line) i (String.length line)
             None None None None (Some (table_cells (Js.trim line))), i).
Proof.
  intros Hs He. unfold tokenize_line.
  destruct (starts_with_pipe _ Hs) as [s' E].
  destruct (pipe_not_earlier s') as (H1 & H2 & H3 & H4 & H5 & H6 & H7).
  rewrite <- E in *.
  rewrite H1, H2, H3, H4, H5, H6, H7, Hs, He. reflexivity.
Qed.

Lemma ends_with_char (c : ascii) (s : string) :
  Js.endsWith (String c "") s = true ->
  exists s0, s = (s0 ++ String c "")%string.
Proof.
  unfold Js.endsWith. induction s as [|a s IH]; [discriminate|].
  cbn [String.length Nat.leb]. rewrite Nat.sub_succ, Nat.sub_0_r.
  rewrite andb_true_iff. intros [_ H]. destruct s as [|b s].
  - cbn [String.length Js.drop] in H. apply String.eqb_eq in H.
    exists "". exact H.
  - cbn [String.length Js.drop] in H.
    destruct IH as [s0 E].
    + cbn [String.length Nat.leb]. rewrite Nat.sub_succ, Nat.sub_0_r.
      apply andb_true_iff. split; [reflexivity|exact H].
    + exists (String a s0). simpl. now rewrite <- E.
Qed.

Lemma split_nonempty (c : ascii) (s : string) : Js.split c s <> [].
Proof.
  destruct s as [|a s]; simpl; [discriminate|].
  destruct (Ascii.eqb a c); [discriminate|].
  destruct (Js.split c s); discriminate.
Qed.

Lemma split_app_separator (c : ascii) (s0 : string) :
  Js.split c (s0 ++ String c "") = Js.split c s0 ++ [""].
Proof.
  induction s0 as [|a s0 IH]; simpl.
  - now rewrite Ascii.eqb_refl.
  - destruct (Ascii.eqb a c); rewrite IH; [reflexivity|].
    pose proof (split_nonempty c s0).
    destruct (Js.split c s0); [contradiction|reflexivity].
Qed.

(** Dropping the empty pieces drops the two edge pieces of a row. *)
Lemma table_cells_by_column (s : string) :
  Js.startsWith "|" s = true -> Js.endsWith "|" s = true ->
  table_cells s = filter Js.truthy (cells_by_column s).
Proof.
  intros Hs He. unfold table_cells, cells_by_column.
  destruct (ends_with_char _ _ He) as [s0 ->].
  rewrite split_app_separator.
  destruct (starts_with_pipe _ Hs) as [s' E].
  destruct s0 as [|a s0].
  - reflexivity.
  - simpl in E. injection E as -> _. simpl.
    rewrite removelast_last. rewrite map_app, filter_app. simpl.
    now rewrite app_nil_r.
Qed.

End LexerFacts.

(** ** Inline resolution *)

Module InlineFacts.

Import Ast Parser Spec.

Lemma index_from (p s : string) :
  forall n m, String.index n p s = Some m -> n <= m.
Proof.
  induction s as [|b s IH]; intros [|n] m; simpl; try discriminate; try lia.
  destruct (String.index n p s) as [k|] eqn:Hk; try discriminate.
  intros H. injection H as <-. apply IH in Hk. lia.
Qed.

Lemma indexOf_from (p s : string) (n m : nat) :
  Js.indexOf p n s = Some m -> n <= m.
Proof. apply index_from. Qed.

Lemma flush_produced (text cur : string) (ch : list Node) :
  Forall (produced text) ch ->
  Forall (produced text) (snd (flush cur ch)).
Proof.
  intros H. unfold flush. destruct (Js.truthy cur); simpl; auto.
  apply Forall_app. split; auto. repeat constructor.
Qed.

Lemma push_produced (text : string) (ch : list Node) (n : Node) :
  Forall (produced text) ch -> produced text n ->
  Forall (produced text) (ch ++ [n]).
Proof. intros. apply Forall_app. split; auto. Qed.

Create HintDb inline.
#[local] Hint Resolve flush_produced push_produced : inline.
#[local] Hint Constructors produced : inline.

Lemma flushed (text cur : string) (ch : list Node) (cur' : string)
    (ch' : list Node) :
  flush cur ch = (cur', ch') ->
  Forall (produced text) ch -> Forall (produced text) ch'.
Proof.
  intros E H. pose proof (flush_produced text cur ch H) as F.
  now rewrite E in F.
Qed.

Lemma check_bold_keeps (text : string) (st : Scan) :
  Forall (produced text) (children st) ->
  check_keeps text (i st) (check_bold text st).
Proof.
  intros H. unfold check_bold.
  destruct (String.eqb _ "**") eqn:Hmark; simpl; auto.
  destruct (flush _ _) as [cur ch] eqn:Hf.
  pose proof (flushed _ _ _ _ _ Hf H) as Hch.
  destruct (Js.indexOf "**" (i st + 2) text) as [e|] eqn:He; simpl; auto.
  split; simpl.
  - apply push_produced; auto. now apply produced_bold.
  - apply indexOf_from in He. lia.
Qed.

Lemma check_italic_keeps (text : string) (st : Scan) :
  Forall (produced text) (children st) ->
  check_keeps text (i st) (check_italic text st).
Proof.
  intros H. unfold check_italic.
  destruct (_ && _); simpl; auto.
  destruct (flush _ _) as [cur ch] eqn:Hf.
  pose proof (flushed _ _ _ _ _ Hf H) as Hch.
  destruct (Js.indexOf "*" (i st + 1) text) as [e|] eqn:He; simpl; auto.
  destruct (negb _); simpl; auto.
  split; simpl.
  - apply push_produced; auto with inline.
  - apply indexOf_from in He. lia.
Qed.

Lemma check_code_keeps (text : string) (st : Scan) :
  Forall (produced text) (children st) ->
  check_keeps text (i st) (check_code text st).
Proof.
  intros H. unfold check_code.
  destruct (Js.charIs _ _ _); simpl; auto.
  destruct (flush _ _) as [cur ch] eqn:Hf.
  pose proof (flushed _ _ _ _ _ Hf H) as Hch.
  destruct (Js.indexOf "`" (i st + 1) text) as [e|] eqn:He; simpl; auto.
  split; simpl.
  - apply push_produced; auto with inline.
  - apply indexOf_from in He. lia.
Qed.

Lemma check_link_keeps (text : string) (st : Scan) :
  Forall (produced text) (children st) ->
  check_keeps text (i st) (check_link text st).
Proof.
  intros H. unfold check_link.
  destruct (Js.charIs _ _ _); simpl; auto.
  destruct (flush _ _) as [cur ch] eqn:Hf.
  pose proof (flushed _ _ _ _ _ Hf H) as Hch.
  destruct (Js.indexOf "]" (i st) text) as [e|] eqn:He; simpl; auto.
  destruct (Js.charIs _ _ _); simpl; auto.
  destruct (Js.indexOf ")" (e + 2) text) as [e'|] eqn:He'; simpl; auto.
  split; simpl.
  - apply push_produced; auto with inline.
  - apply indexOf_from in He, He'. lia.
Qed.

Lemma check_image_keeps (text : string) (st : Scan) :
  Forall (produced text) (children st) ->
  check_keeps text (i st) (check_image text st).
Proof.
  intros H. unfold check_image.
  destruct (String.eqb _ "![" ); simpl; auto.
  destruct (flush _ _) as [cur ch] eqn:Hf.
  pose proof (flushed _ _ _ _ _ Hf H) as Hch.
  destruct (Js.indexOf "]" (i st + 2) text) as [e|] eqn:He; simpl; auto.
  destruct (Js.charIs _ _ _); simpl; auto.
  destruct (Js.indexOf ")" (e + 2) text) as [e'|] eqn:He'; simpl; auto.
  split; simpl.
  - apply push_produced; auto with inline.
  - apply indexOf_from in He, He'. lia.
Qed.

Lemma and_then_keeps (text : string) (i0 : nat) (c : Check) (st : Scan)
    (k : Scan -> Scan) :
  check_keeps text i0 c ->
  (forall st', i st' = i st -> Forall (produced text) (children st') ->
               advanced text i0 (k st')) ->
  advanced text i0 (and_then c st k).
Proof.
  intros Hc Hk. destruct c as [st'|cur ch]; simpl in *; auto.
Qed.

(** One iteration moves the index forward and pushes produced nodes only. *)
Lemma inline_step_keeps (text : string) (st : Scan) :
  Forall (produced text) (children st) ->
  advanced text (i st) (inline_step text st).
Proof.
  intros H. unfold inline_step.
  apply and_then_keeps; [now apply check_bold_keeps|]. intros s1 E1 H1.
  apply and_then_keeps; [rewrite <- E1; now apply check_italic_keeps|].
  intros s2 E2 H2. rewrite E1 in E2.
  apply and_then_keeps; [rewrite <- E2; now apply check_code_keeps|].
  intros s3 E3 H3. rewrite E2 in E3.
  apply and_then_keeps; [rewrite <- E3; now apply check_link_keeps|].
  intros s4 E4 H4. rewrite E3 in E4.
  apply and_then_keeps; [rewrite <- E4; now apply check_image_keeps|].
  intros s5 E5 H5. rewrite E4 in E5.
  split; simpl; auto. lia.
Qed.

(** The scan ends, at or past the end of the text. *)
Lemma inline_loop_returns (text : string) (fuel : nat) :
  forall st,
    String.length text - i st < fuel ->
    Forall (produced text) (children st) ->
    exists st',
      inline_loop fuel text st = Returns st' /\
      Forall (produced text) (children st') /\
      String.length text <= i st'.
Proof.
  induction fuel as [|fuel IH]; intros st Hfuel H; [lia|].
  simpl. destruct (i st <? String.length text) eqn:Hi.
  - apply Nat.ltb_lt in Hi.
    destruct (inline_step_keeps text st H) as [H' Hlt].
    apply IH; auto. lia.
  - apply Nat.ltb_ge in Hi. eauto.
Qed.

(** [parseInlineContent] returns, and returns produced nodes. *)
Lemma parseInlineContent_returns (text : string) :
  exists ch,
    parseInlineContent (Some text) = Returns ch /\
    Forall (produced text) ch.
Proof.
  unfold parseInlineContent.
  destruct (Js.truthy text); cbv [negb]; [|eauto].
  destruct (inline_loop_returns text (S (String.length text))
              (mkScan 0 "" [])) as (st & E & H & _);
    [simpl; lia|constructor|].
  rewrite E. cbn [bind]. eexists. split; [reflexivity|].
  now apply flush_produced.
Qed.

Lemma parseInlineContent_total (text : option string) :
  exists ch, parseInlineContent text = Returns ch.
Proof.
  destruct text as [text|]; [|simpl; eauto].
  destruct (parseInlineContent_returns text) as (ch & -> & _). eauto.
Qed.

(** *** The bold marker *)

Lemma marker_chars (i : nat) (text : string) :
  bold_marker_at i text ->
  String.get i text = Some "*"%char /\ String.get (S i) text = Some "*"%char.
Proof. unfold bold_marker_at. apply two_chars_at. Qed.

Lemma no_marker_without_second (i : nat) (text : string) :
  Js.charIs (S i) "*" text = false ->
  String.eqb (Js.substring i (i + 2) text) "**" = false.
Proof.
  intros H. destruct (String.eqb _ "**") eqn:E; [|reflexivity].
  apply two_chars_at in E. destruct E as [_ E].
  apply charIs_get in E. congruence.
Qed.

(** At an asterisk the checks for code, links and images do nothing. *)
Lemma later_checks_at_star (text : string) (st : Scan) :
  String.get (i st) text = Some "*"%char ->
  check_code text st = Next (currentText st) (children st) /\
  check_link text st = Next (currentText st) (children st) /\
  check_image text st = Next (currentText st) (children st) /\
  regular_character text st
  = mkScan (i st + 1) (currentText st ++ "*") (children st).
Proof.
  intros H. unfold check_code, check_link, check_image, regular_character.
  rewrite (charIs_other _ "*" "`" _ H), (charIs_other _ "*" "[" _ H)
    by discriminate.
  unfold Js.charAt. rewrite H.
  destruct (String.eqb _ "![") eqn:E; auto.
  apply two_chars_at in E. destruct E as [E _]. congruence.
Qed.

(** Runs the three later checks and the last step at an asterisk. *)
Ltac at_star text cur ch H0 :=
  let Hc := fresh in
  let Hl := fresh in
  let Hi := fresh in
  let Hr := fresh in
  destruct (later_checks_at_star text (mkScan _ cur ch) H0)
    as (Hc & Hl & Hi & Hr);
  cbn [i currentText children] in Hc, Hl, Hi, Hr;
  rewrite Hc; cbn [and_then i currentText children];
  rewrite Hl; cbn [and_then i currentText children];
  rewrite Hi; cbn [and_then i currentText children];
  rewrite Hr.

Lemma scan_eta (st : Scan) : mkScan (i st) (currentText st) (children st) = st.
Proof. now destruct st. Qed.

(** A [**] with a closing [**]: the buffer is flushed, a bold node holds
    what stands between the two, and the scan goes on after the closing. *)
Lemma inline_step_closed_bold (text : string) (st : Scan) (e : nat) :
  bold_marker_at (i st) text ->
  Js.indexOf "**" (i st + 2) text = Some e ->
  inline_step text st
  = mkScan (e + 2) (fst (flush (currentText st) (children st)))
      (snd (flush (currentText st) (children st))
       ++ [leaf NodeType.bold (Js.substring (i st + 2) e text)]).
Proof.
  intros Hm He. unfold inline_step, check_bold.
  unfold bold_marker_at in Hm. rewrite Hm.
  destruct (flush _ _) as [cur ch]. now rewrite He.
Qed.

(** A [**] without a closing [**]: the buffer is flushed and gets the
    first asterisk; no node of another kind is pushed. *)
Lemma inline_step_unclosed_bold (text : string) (st : Scan) :
  bold_marker_at (i st) text ->
  Js.indexOf "**" (i st + 2) text = None ->
  inline_step text st
  = mkScan (i st + 1)
      (fst (flush (currentText st) (children st)) ++ "*")
      (snd (flush (currentText st) (children st))).
Proof.
  intros Hm He. destruct (marker_chars _ _ Hm) as [H0 H1].
  unfold inline_step, check_bold.
  unfold bold_marker_at in Hm. rewrite Hm.
  destruct (flush _ _) as [cur ch]. rewrite He. cbn [and_then fst snd].
  unfold check_italic. cbn [i currentText children].
  apply charIs_get in H1. rewrite Nat.add_1_r, H1, andb_false_r.
  cbn [and_then i currentText children].
  at_star text cur ch H0. now rewrite Nat.add_1_r.
Qed.

(** An asterisk with no asterisk after it: the buffer is flushed and gets
    the asterisk. *)
Lemma inline_step_last_star (text : string) (st : Scan) :
  String.get (i st) text = Some "*"%char ->
  Js.indexOf "*" (i st + 1) text = None ->
  inline_step text st
  = mkScan (i st + 1)
      (fst (flush (currentText st) (children st)) ++ "*")
      (snd (flush (currentText st) (children st))).
Proof.
  intros H0 He.
  assert (H1 : Js.charIs (S (i st)) "*" text = false).
  { apply (indexOf_none_char "*" (i st + 1)); [exact He|lia]. }
  unfold inline_step, check_bold.
  rewrite (no_marker_without_second _ _ H1). cbn [and_then].
  rewrite scan_eta. unfold check_italic.
  apply charIs_get in H0. rewrite H0, Nat.add_1_r, H1. cbn [negb andb].
  destruct (flush _ _) as [cur ch]. rewrite <- Nat.add_1_r, He.
  cbn [and_then fst snd i currentText children]. apply charIs_get in H0.
  at_star text cur ch H0. reflexivity.
Qed.

Lemma no_star_no_marker (n : nat) (text : string) :
  Js.indexOf "*" n text = None -> Js.indexOf "**" n text = None.
Proof.
  intros H. destruct (Js.indexOf "**" n text) as [e|] eqn:E; [|reflexivity].
  pose proof (indexOf_from _ _ _ _ E) as Hle.
  apply String.index_correct1 in E. simpl String.length in E.
  rewrite <- js_substring_span in E. apply String.eqb_eq in E.
  apply two_chars_at in E. destruct E as [E _]. apply charIs_get in E.
  rewrite (indexOf_none_char "*" n e text H Hle) in E. discriminate.
Qed.

Lemma truthy_append_star (s : string) : Js.truthy (s ++ "*") = true.
Proof. destruct s; reflexivity. Qed.

Lemma flush_truthy (cur : string) (ch : list Node) :
  Js.truthy cur = true ->
  flush cur ch = ("", ch ++ [leaf NodeType.text cur]).
Proof. intros H. unfold flush. now rewrite H. Qed.

(** A [**] with no asterisk after it: after two iterations both asterisks
    are plain text, the first in a text node and the second in the
    buffer. *)
Lemma inline_steps_literal_bold (text : string) (st : Scan) :
  bold_marker_at (i st) text ->
  Js.indexOf "*" (i st + 2) text = None ->
  inline_step text (inline_step text st)
  = mkScan (i st + 2) "*"
      (snd (flush (currentText st) (children st))
       ++ [leaf NodeType.text
             (fst (flush (currentText st) (children st)) ++ "*")]).
Proof.
  intros Hm He. destruct (marker_chars _ _ Hm) as [_ H1].
  rewrite (inline_step_unclosed_bold text st Hm (no_star_no_marker _ _ He)).
  rewrite inline_step_last_star; cbn [i currentText children].
  - rewrite flush_truthy by apply truthy_append_star. cbn [fst snd].
    f_equal. lia.
  - now rewrite Nat.add_1_r.
  - now rewrite <- Nat.add_assoc.
Qed.

(** No asterisk stands right after an asterisk where no [**] follows. *)
Lemma no_marker_after (text : string) (n k : nat) :
  Js.indexOf "**" n text = None -> n <= k ->
  Js.charIs k "*" text = true -> Js.charIs (k + 1) "*" text = false.
Proof.
  intros H Hk Hc. destruct (Js.charIs (k + 1) "*" text) eqn:E; [|reflexivity].
  exfalso. apply charIs_get in Hc, E. rewrite Nat.add_1_r in E.
  apply (String.index_correct3 n k "**" text H); auto.
  - discriminate.
  - simpl String.length. rewrite <- js_substring_span. apply String.eqb_eq.
    apply two_chars_at. auto.
Qed.

(** No [**] after [n] is no [**] after a later index. *)
Lemma no_marker_later (text : string) (n m : nat) :
  Js.indexOf "**" n text = None -> n <= m ->
  Js.indexOf "**" m text = None.
Proof.
  intros H Hm. destruct (Js.indexOf "**" m text) as [e|] eqn:E; [|reflexivity].
  exfalso. pose proof (indexOf_from _ _ _ _ E) as Hle.
  apply String.index_correct1 in E.
  apply (String.index_correct3 n e "**" text H); auto; [discriminate|lia].
Qed.

(** A [**] with no closing [**] and a third asterisk right after it:
    after two iterations both asterisks are plain text and the scan is at
    the third asterisk. *)
Lemma inline_steps_literal_before_star (text : string) (st : Scan) :
  bold_marker_at (i st) text ->
  Js.indexOf "**" (i st + 2) text = None ->
  Js.charIs (i st + 2) "*" text = true ->
  inline_step text (inline_step text st)
  = mkScan (i st + 2) "*"
      (snd (flush (currentText st) (children st))
       ++ [leaf NodeType.text
             (fst (flush (currentText st) (children st)) ++ "*")]).
Proof.
  intros Hm Hnone Hc. destruct (marker_chars _ _ Hm) as [_ H1].
  rewrite (inline_step_unclosed_bold text st Hm Hnone).
  rewrite inline_step_unclosed_bold; cbn [i currentText children].
  - rewrite flush_truthy by apply truthy_append_star. cbn [fst snd append].
    f_equal. lia.
  - apply two_chars_at. rewrite Nat.add_1_r. split; [exact H1|].
    apply charIs_get. now replace (S (S (i st))) with (i st + 2) by lia.
  - apply (no_marker_later text (i st + 2)); [exact Hnone|lia].
Qed.
(** A [**] with no closing [**], something else than an asterisk right
    after it and an asterisk later: the first asterisk is plain text and
    the second one opens an italic span that ends at that asterisk. *)
Lemma inline_steps_italic_after_bold (text : string) (st : Scan) (e : nat) :
  bold_marker_at (i st) text ->
  Js.indexOf "**" (i st + 2) text = None ->
  Js.charIs (i st + 2) "*" text = false ->
  Js.indexOf "*" (i st + 2) text = Some e ->
  inline_step text (inline_step text st)
  = mkScan (e + 1) ""
      (snd (flush (currentText st) (children st))
       ++ [leaf NodeType.text
             (fst (flush (currentText st) (children st)) ++ "*");
           leaf NodeType.italic (Js.substring (i st + 2) e text)]).
Proof.
  intros Hm Hnone Hc He. destruct (marker_chars _ _ Hm) as [_ H1].
  rewrite (inline_step_unclosed_bold text st Hm Hnone).
  unfold inline_step, check_bold. cbn [i currentText children].
  rewrite no_marker_without_second
    by (now replace (S (i st + 1)) with (i st + 2) by lia).
  cbn [and_then i currentText children].
  unfold check_italic. cbn [i currentText children].
  apply charIs_get in H1. rewrite Nat.add_1_r, H1.
  replace (S (i st) + 1) with (i st + 2) by lia. rewrite Hc.
  cbn [negb andb]. rewrite flush_truthy by apply truthy_append_star.
  rewrite He.
  assert (Hend : Js.charIs (e + 1) "*" text = false).
  { apply (no_marker_after text (i st + 2) e Hnone).
    - now apply indexOf_from in He.
    - apply charIs_get. apply String.index_correct1 in He.
      simpl String.length in He.
      destruct (String.get e text) as [c|] eqn:G.
      + rewrite (substring_head text e 0 c G) in He. congruence.
      + rewrite (substring_out_of_range text e 1 G) in He. discriminate. }
  rewrite Hend. cbn [negb and_then].
  replace (S (i st) + 1) with (i st + 2) by lia.
  now rewrite <- app_assoc.
Qed.

(** The closing [**] that [indexOf] finds is the first one. *)
Lemma closing_is_first (text : string) (n e : nat) :
  Js.indexOf "**" n text = Some e ->
  n <= e /\ bold_marker_at e text /\
  forall k, n <= k -> k < e ->
            String.eqb (Js.substring k (k + 2) text) "**" = false.
Proof.
  intros H. split; [now apply indexOf_from in H|]. split.
  - unfold bold_marker_at. rewrite js_substring_span. apply String.eqb_eq.
    now apply String.index_correct1 in H.
  - intros k Hn Hk. rewrite js_substring_span. apply String.eqb_neq.
    now apply (String.index_correct2 _ _ _ _ H k).
Qed.

(** What [produced] says of a bold node. *)
Lemma produced_bold_closed (text : string) (n : Node) :
  produced text n -> Ast.type n = NodeType.bold ->
  exists i e,
    bold_marker_at i text /\ Js.indexOf "**" (i + 2) text = Some e /\
    n = leaf NodeType.bold (Js.substring (i + 2) e text).
Proof.
  intros H Hty. destruct H; try discriminate. eauto.
Qed.

End InlineFacts.

(** ** The tree builder *)

Module ParserFacts.

Import Lexer Ast Parser Spec InlineFacts.

#[local] Arguments advance : simpl never.
#[local] Arguments peek : simpl never.
#[local] Arguments isAtEnd : simpl never.
#[local] Arguments parseInlineContent : simpl never.

Lemma inline_returns (text : option string) :
  parseInlineContent text = Returns (inline text).
Proof.
  unfold inline.
  destruct (parseInlineContent_total text) as [ch ->]. reflexivity.
Qed.

Lemma inline_produced (text : string) :
  Forall (produced text) (inline (Some text)).
Proof.
  unfold inline.
  destruct (parseInlineContent_returns text) as (ch & -> & H). exact H.
Qed.

Lemma isAtEnd_in_range (tokens : list Token) (current : nat) (t : Token) :
  nth_error tokens current = Some t -> isAtEnd tokens current = false.
Proof.
  intros H. apply nth_error_in_range in H. unfold isAtEnd.
  apply Nat.leb_gt. exact H.
Qed.

Lemma isAtEnd_out_of_range (tokens : list Token) (current : nat) :
  nth_error tokens current = None -> isAtEnd tokens current = true.
Proof.
  intros H. apply nth_error_None in H. unfold isAtEnd.
  apply Nat.leb_le. exact H.
Qed.

Lemma peek_in_range (tokens : list Token) (current : nat) (t : Token) :
  nth_error tokens current = Some t -> peek tokens current = Some t.
Proof.
  intros H. unfold peek. now rewrite (isAtEnd_in_range _ _ _ H).
Qed.

Lemma advance_in_range (tokens : list Token) (current : nat) (t : Token) :
  nth_error tokens current = Some t ->
  advance tokens current = (Some t, current + 1).
Proof.
  intros H. unfold advance. rewrite (isAtEnd_in_range _ _ _ H). simpl.
  rewrite Nat.add_1_r. now rewrite H.
Qed.

(** The loop of [parseList] and [parseOrderedList] takes the run of tokens
    of its type that starts at the cursor, and nothing else. *)
Lemma items_loop_spec (ty : TokenType) (tokens : list Token) (fuel : nat) :
  forall (current : nat) (items : list Node),
    List.length tokens - current < fuel ->
    items_loop ty fuel tokens current items =
    Returns (items ++ map item_node (run_of ty (skipn current tokens)),
             current + List.length (run_of ty (skipn current tokens))).
Proof.
  induction fuel as [|fuel IH]; intros current items Hfuel; [lia|].
  cbn [items_loop]. destruct (nth_error tokens current) as [t|] eqn:Ht.
  - rewrite (isAtEnd_in_range _ _ _ Ht), (peek_in_range _ _ _ Ht).
    rewrite (skipn_cons_nth_error _ _ _ Ht). cbn [run_of].
    destruct (type_eqb (Lexer.type t) ty).
    + rewrite (advance_in_range _ _ _ Ht), inline_returns. cbn [bind].
      pose proof (nth_error_in_range _ _ _ Ht).
      rewrite IH by lia. rewrite <- app_assoc, Nat.add_1_r.
      cbn [map List.length app]. do 2 f_equal. lia.
    + cbn [map List.length]. now rewrite app_nil_r, Nat.add_0_r.
  - rewrite (isAtEnd_out_of_range _ _ Ht).
    rewrite (skipn_nil_nth_error _ _ Ht). cbn [run_of map List.length].
    now rewrite app_nil_r, Nat.add_0_r.
Qed.

Lemma rows_loop_spec (tokens : list Token) (fuel : nat) :
  forall (current : nat) (rows : list Node),
    List.length tokens - current < fuel ->
    rows_loop fuel tokens current rows =
    Returns (rows ++ map (fun r => row_node (Lexer.cells r))
                       (run_of table_row (skipn current tokens)),
             current + List.length (run_of table_row (skipn current tokens))).
Proof.
  induction fuel as [|fuel IH]; intros current rows Hfuel; [lia|].
  cbn [rows_loop]. destruct (nth_error tokens current) as [t|] eqn:Ht.
  - rewrite (isAtEnd_in_range _ _ _ Ht), (peek_in_range _ _ _ Ht).
    rewrite (skipn_cons_nth_error _ _ _ Ht). cbn [run_of].
    destruct (type_eqb (Lexer.type t) table_row).
    + rewrite (advance_in_range _ _ _ Ht).
      pose proof (nth_error_in_range _ _ _ Ht).
      rewrite IH by lia. rewrite <- app_assoc, Nat.add_1_r.
      cbn [map List.length app]. do 2 f_equal. lia.
    + cbn [map List.length]. now rewrite app_nil_r, Nat.add_0_r.
  - rewrite (isAtEnd_out_of_range _ _ Ht).
    rewrite (skipn_nil_nth_error _ _ Ht). cbn [run_of map List.length].
    now rewrite app_nil_r, Nat.add_0_r.
Qed.

(** [parseNode] on a token: the node and the number of tokens of
    [node_at]. *)
Lemma parseNode_spec (tokens : list Token) (current : nat) (t : Token) :
  nth_error tokens current = Some t ->
  parseNode tokens current =
  Returns (fst (node_at (skipn current tokens) t),
           current + snd (node_at (skipn current tokens) t)).
Proof.
  intros Ht. pose proof (nth_error_in_range _ _ _ Ht) as Hlt.
  unfold parseNode, node_at. rewrite (peek_in_range _ _ _ Ht).
  destruct (Lexer.type t) eqn:Hty;
    unfold parseHeader, parseCodeBlock, parseList, parseOrderedList,
      parseBlockquote, parseHorizontalRule, parseTable, parseParagraph,
      parseText;
    rewrite ?(advance_in_range _ _ _ Ht), ?inline_returns,
      ?items_loop_spec, ?rows_loop_spec by lia;
    reflexivity.
Qed.

(** A step takes at least one token. *)
Lemma node_at_takes (tokens : list Token) (current : nat) (t : Token) :
  nth_error tokens current = Some t ->
  1 <= snd (node_at (skipn current tokens) t).
Proof.
  intros Ht. unfold node_at. rewrite (skipn_cons_nth_error _ _ _ Ht).
  destruct (Lexer.type t) eqn:Hty; simpl; try lia;
    unfold type_eqb; rewrite Hty; simpl; lia.
Qed.

(** The loop of [parse] ends and keeps every property that each step
    keeps. *)
Lemma parse_loop_invariant (Inv : nat -> list Node -> Prop)
    (tokens : list Token) :
  (forall current children t,
     nth_error tokens current = Some t -> Inv current children ->
     Inv (current + snd (node_at (skipn current tokens) t))
         (push children (fst (node_at (skipn current tokens) t)))) ->
  forall (fuel current : nat) (children : list Node),
    List.length tokens - current < fuel ->
    Inv current children ->
    exists result final,
      parse_loop fuel tokens current children = Returns result /\
      List.length tokens <= final /\ Inv final result.
Proof.
  intros Hstep. induction fuel as [|fuel IH];
    intros current children Hfuel Hinv; [lia|].
  simpl. destruct (nth_error tokens current) as [t|] eqn:Ht.
  - rewrite (isAtEnd_in_range _ _ _ Ht). simpl.
    rewrite (parseNode_spec _ _ _ Ht). simpl.
    pose proof (node_at_takes _ _ _ Ht).
    pose proof (nth_error_in_range _ _ _ Ht).
    apply IH; [lia|]. now apply Hstep.
  - rewrite (isAtEnd_out_of_range _ _ Ht). simpl.
    apply nth_error_None in Ht. eauto.
Qed.

Lemma type_eqb_eq (a b : TokenType) : type_eqb a b = true <-> a = b.
Proof. destruct a, b; simpl; split; congruence. Qed.

(** A run is a prefix, all of one type, and what follows is of another. *)
Lemma run_of_split (ty : TokenType) (rest : list Token) :
  exists tail,
    rest = run_of ty rest ++ tail /\
    Forall (fun r => Lexer.type r = ty) (run_of ty rest) /\
    match tail with
    | [] => True
    | next :: _ => Lexer.type next <> ty
    end.
Proof.
  induction rest as [|t rest (tail & E & Hrun & Htail)]; simpl.
  - exists []. auto.
  - destruct (type_eqb (Lexer.type t) ty) eqn:Ht.
    + apply type_eqb_eq in Ht. exists tail. simpl. rewrite <- E. auto.
    + exists (t :: rest). repeat split; auto.
      intros H. apply type_eqb_eq in H. congruence.
Qed.

Lemma run_of_all (ty : TokenType) (run : list Token) :
  Forall (fun r => Lexer.type r = ty) run -> run_of ty run = run.
Proof.
  induction 1 as [|t run Ht _ IH]; simpl; auto.
  apply type_eqb_eq in Ht. now rewrite Ht, IH.
Qed.

Lemma run_of_firstn (ty : TokenType) (rest : list Token) :
  firstn (List.length (run_of ty rest)) rest = run_of ty rest.
Proof.
  induction rest as [|t rest IH]; simpl; auto.
  destruct (type_eqb (Lexer.type t) ty); simpl; congruence.
Qed.

Lemma firstn_plus {A : Type} (c k : nat) (l : list A) :
  firstn (c + k) l = firstn c l ++ firstn k (skipn c l).
Proof.
  revert l. induction c as [|c IH]; intros [|a l]; simpl; auto.
  - now rewrite firstn_nil.
  - now rewrite IH.
Qed.

Lemma run_has_no_blockquote (ty : TokenType) (rest : list Token) :
  ty <> blockquote ->
  filter is_blockquote_token (run_of ty rest) = [].
Proof.
  intros Hty. destruct (run_of_split ty rest) as (_ & _ & Hrun & _).
  induction Hrun as [|t run Ht _ IH]; simpl; auto.
  unfold is_blockquote_token at 1. rewrite Ht.
  destruct (type_eqb ty blockquote) eqn:E; auto.
  apply type_eqb_eq in E. contradiction.
Qed.

Lemma filter_push (children : list Node) (node : option Node) :
  filter is_blockquote (push children node)
  = filter is_blockquote children
    ++ match node with
       | Some n => if is_blockquote n then [n] else []
       | None => []
       end.
Proof.
  destruct node as [n|]; simpl.
  - now rewrite filter_app.
  - now rewrite app_nil_r.
Qed.

(** The blockquote nodes of a step are the blockquotes of the tokens it
    takes, one for one. *)
Lemma node_at_blockquotes (tokens : list Token) (current : nat) (t : Token) :
  nth_error tokens current = Some t ->
  let step := node_at (skipn current tokens) t in
  match fst step with
  | Some n => if is_blockquote n then [n] else []
  | None => []
  end
  = map blockquote_node
      (filter is_blockquote_token (firstn (snd step) (skipn current tokens))).
Proof.
  intros Ht step. subst step. unfold node_at.
  destruct (Lexer.type t) eqn:Hty; cbn [fst snd];
    rewrite ?run_of_firstn, ?run_has_no_blockquote by discriminate;
    try reflexivity;
    rewrite (skipn_cons_nth_error _ _ _ Ht); cbn [firstn filter];
    unfold is_blockquote_token; rewrite Hty; reflexivity.
Qed.

(** *** Runs of list items *)

Lemma starts_with_tail (ty : TokenType) (tail : list Token) :
  match tail with
  | [] => True
  | next :: _ => Lexer.type next <> ty
  end ->
  starts_with ty tail = false.
Proof.
  destruct tail as [|next tail]; simpl; auto.
  intros H. destruct (type_eqb (Lexer.type next) ty) eqn:E; auto.
  apply type_eqb_eq in E. contradiction.
Qed.

(** A run that ends where [tail] starts is the first of the runs. *)
Lemma runs_run (ty : TokenType) (run tail : list Token) :
  run <> [] ->
  Forall (fun r => Lexer.type r = ty) run ->
  starts_with ty tail = false ->
  runs ty (run ++ tail) = run :: runs ty tail.
Proof.
  intros Hne Hall Htail. induction Hall as [|t run Ht Hall IH];
    [contradiction|].
  apply type_eqb_eq in Ht. cbn [app runs]. rewrite Ht.
  destruct run as [|t' run].
  - cbn [app]. now rewrite Htail.
  - rewrite IH by discriminate. cbn [app starts_with].
    pose proof (Forall_inv Hall) as Ht'. cbn beta in Ht'.
    apply type_eqb_eq in Ht'. now rewrite Ht'.
Qed.

(** Tokens of another type are in no run. *)
Lemma runs_skip (ty : TokenType) (others tail : list Token) :
  Forall (fun r => Lexer.type r <> ty) others ->
  runs ty (others ++ tail) = runs ty tail.
Proof.
  induction 1 as [|t others Ht _ IH]; cbn [app runs]; auto.
  destruct (type_eqb (Lexer.type t) ty) eqn:E; auto.
  apply type_eqb_eq in E. contradiction.
Qed.

Lemma run_of_skip (ty : TokenType) (rest : list Token) :
  exists tail,
    rest = run_of ty rest ++ tail /\
    skipn (List.length (run_of ty rest)) rest = tail /\
    starts_with ty tail = false.
Proof.
  destruct (run_of_split ty rest) as (tail & E & _ & Htail).
  exists tail. split; [exact E|]. split.
  - transitivity (skipn (List.length (run_of ty rest))
                    (run_of ty rest ++ tail)).
    + f_equal. exact E.
    + apply skipn_length_app.
  - now apply starts_with_tail.
Qed.

(** A run of tokens of type [ty'] holds no run of type [ty]. *)
Lemma runs_over_run (ty ty' : TokenType) (rest : list Token) :
  ty' <> ty ->
  runs ty (skipn (List.length (run_of ty' rest)) rest) = runs ty rest.
Proof.
  intros Hty. destruct (run_of_split ty' rest) as (tail & E & Hrun & _).
  destruct (run_of_skip ty' rest) as (tail' & E' & -> & _).
  transitivity (runs ty (run_of ty' rest ++ tail')).
  - symmetry. apply runs_skip.
    eapply Forall_impl; [|exact Hrun]. intros r Hr. congruence.
  - f_equal. symmetry. exact E'.
Qed.

(** The unordered list of a step is the list of the run that starts at the
    cursor, and a step that makes another node, or none, passes no run. *)
Lemma node_at_lists (tokens : list Token) (current : nat) (t : Token) :
  nth_error tokens current = Some t ->
  let step := node_at (skipn current tokens) t in
  match fst step with
  | Some n => if is_list n then [n] else []
  | None => []
  end
  ++ map list_of_run
       (runs list_item (skipn (snd step) (skipn current tokens)))
  = map list_of_run (runs list_item (skipn current tokens)).
Proof.
  intros Ht step. subst step. unfold node_at.
  destruct (Lexer.type t) eqn:Hty; cbn [fst snd];
    rewrite ?runs_over_run by discriminate; try reflexivity;
    try (rewrite (skipn_cons_nth_error _ _ _ Ht); cbn [skipn runs app];
         rewrite Hty; reflexivity).
  destruct (run_of_skip list_item (skipn current tokens))
    as (tail & E & -> & Htail).
  destruct (run_of_split list_item (skipn current tokens))
    as (_ & _ & Hrun & _).
  transitivity (map list_of_run
                  (runs list_item
                     (run_of list_item (skipn current tokens) ++ tail)));
    [|do 2 f_equal; symmetry; exact E].
  rewrite runs_run; auto.
  rewrite (skipn_cons_nth_error _ _ _ Ht). cbn [run_of].
  rewrite Hty. discriminate.
Qed.

Lemma filter_list_push (children : list Node) (node : option Node) :
  filter is_list (push children node)
  = filter is_list children
    ++ match node with
       | Some n => if is_list n then [n] else []
       | None => []
       end.
Proof.
  destruct node as [n|]; simpl.
  - now rewrite filter_app.
  - now rewrite app_nil_r.
Qed.

(** The tree of a token sequence: its unordered lists are the lists of the
    maximal runs of list-item tokens, one for one and in order. *)
Lemma parse_lists (tokens : list Token) :
  exists children,
    parse tokens = Returns (document_node children) /\
    filter is_list children = map list_of_run (runs list_item tokens).
Proof.
  unfold parse.
  destruct (parse_loop_invariant
              (fun current ch =>
                 filter is_list ch
                 ++ map list_of_run (runs list_item (skipn current tokens))
                 = map list_of_run (runs list_item tokens))
              tokens)
    with (fuel := S (List.length tokens)) (current := 0)
         (children := @nil Node)
    as (result & final & -> & Hfinal & H); [|lia|reflexivity|].
  - intros current children t Ht Hinv.
    rewrite filter_list_push, <- app_assoc, Nat.add_comm, <- skipn_skipn.
    rewrite (node_at_lists tokens current t Ht). exact Hinv.
  - cbn [bind]. eexists. split; [reflexivity|].
    rewrite skipn_all2 in H by assumption. cbn [runs map] in H.
    now rewrite app_nil_r in H.
Qed.

(** The tree of a token sequence: its blockquote nodes are the nodes of
    its blockquote tokens, one for one and in order. *)
Lemma parse_blockquotes (tokens : list Token) :
  exists children,
    parse tokens = Returns (document_node children) /\
    filter is_blockquote children
    = map blockquote_node (filter is_blockquote_token tokens).
Proof.
  unfold parse.
  destruct (parse_loop_invariant
              (fun current ch =>
                 filter is_blockquote ch
                 = map blockquote_node
                     (filter is_blockquote_token (firstn current tokens)))
              tokens)
    with (fuel := S (List.length tokens)) (current := 0)
         (children := @nil Node)
    as (result & final & -> & Hfinal & H); [|lia|reflexivity|].
  - intros current children t Ht Hinv.
    rewrite filter_push, firstn_plus, filter_app, map_app, Hinv.
    f_equal. now apply node_at_blockquotes.
  - cbn [bind]. eexists. split; [reflexivity|].
    now rewrite firstn_all2 in H.
Qed.

End ParserFacts.

(** ** The serializer *)

Module RendererFacts.

Import Ast Parser Spec Renderer.

Lemma append_assoc (a b c : string) :
  ((a ++ b) ++ c = a ++ (b ++ c))%string.
Proof. induction a as [|x a IH]; simpl; congruence. Qed.

Lemma replaceAll_app (c : ascii) (r a b : string) :
  Js.replaceAll c r (a ++ b)
  = (Js.replaceAll c r a ++ Js.replaceAll c r b)%string.
Proof.
  induction a as [|x a IH]; simpl; auto.
  destruct (Ascii.eqb x c); rewrite IH; simpl; auto.
  now rewrite append_assoc.
Qed.

Lemma escapeHtml_app (a b : string) :
  escapeHtml (Some (a ++ b)%string)
  = (escapeHtml (Some a) ++ escapeHtml (Some b))%string.
Proof. unfold escapeHtml. now rewrite !replaceAll_app. Qed.

Lemma escapeHtml_char (c : ascii) :
  escapeHtml (Some (String c "")) = escape_char c.
Proof.
  unfold escape_char, escapeHtml.
  destruct (Ascii.eqb c "&") eqn:E1;
    [apply Ascii.eqb_eq in E1; subst; reflexivity|].
  destruct (Ascii.eqb c "<") eqn:E2;
    [apply Ascii.eqb_eq in E2; subst; reflexivity|].
  destruct (Ascii.eqb c ">") eqn:E3;
    [apply Ascii.eqb_eq in E3; subst; reflexivity|].
  destruct (Ascii.eqb c (Js.chr 34)) eqn:E4;
    [apply Ascii.eqb_eq in E4; subst; reflexivity|].
  destruct (Ascii.eqb c "'") eqn:E5;
    [apply Ascii.eqb_eq in E5; subst; reflexivity|].
  cbn [Js.replaceAll]. rewrite E1. cbn [Js.replaceAll]. rewrite E2.
  cbn [Js.replaceAll]. rewrite E3. cbn [Js.replaceAll]. rewrite E4.
  cbn [Js.replaceAll]. rewrite E5. reflexivity.
Qed.

(** The five replacements in a row escape each character once. *)
Lemma escapeHtml_each (s : string) :
  escapeHtml (Some s) = escape_each s.
Proof.
  induction s as [|c s IH]; [reflexivity|].
  change (String c s) with (String c "" ++ s)%string.
  rewrite escapeHtml_app, escapeHtml_char, IH. reflexivity.
Qed.

Lemma all_chars_app (p : ascii -> bool) (a b : string) :
  Js.all_chars p (a ++ b) = Js.all_chars p a && Js.all_chars p b.
Proof.
  induction a as [|x a IH]; simpl; auto.
  rewrite IH. now rewrite andb_assoc.
Qed.

Lemma escape_char_clean (c : ascii) :
  Js.all_chars (fun x => negb (is_markup_char x)) (escape_char c) = true.
Proof.
  unfold escape_char.
  destruct (Ascii.eqb c "&"); [reflexivity|].
  destruct (Ascii.eqb c "<") eqn:E2; [reflexivity|].
  destruct (Ascii.eqb c ">") eqn:E3; [reflexivity|].
  destruct (Ascii.eqb c (Js.chr 34)) eqn:E4; [reflexivity|].
  destruct (Ascii.eqb c "'") eqn:E5; [reflexivity|].
  simpl. unfold is_markup_char. now rewrite E2, E3, E4, E5.
Qed.

(** Escaped text holds none of [<], [>], the double and the single quote. *)
Lemma escapeHtml_clean (s : string) :
  Js.all_chars (fun x => negb (is_markup_char x)) (escapeHtml (Some s)) = true.
Proof.
  rewrite escapeHtml_each. induction s as [|c s IH]; [reflexivity|].
  simpl. now rewrite all_chars_app, escape_char_clean, IH.
Qed.

Lemma mapM_map {A B} (f : A -> Outcome B) (g : A -> B) (l : list A) :
  Forall (fun a => f a = Returns (g a)) l ->
  mapM f l = Returns (map g l).
Proof.
  induction 1 as [|a l Ha _ IH]; simpl; auto.
  now rewrite Ha, IH.
Qed.

Lemma mapM_returns {A B} (f : A -> Outcome B) (l : list A) :
  Forall (fun a => exists b, f a = Returns b) l ->
  exists bs, mapM f l = Returns bs.
Proof.
  induction 1 as [|a l [b Hb] _ [bs IH]]; simpl; eauto.
  rewrite Hb, IH. simpl. eauto.
Qed.

Section WithHighlighter.

Variable hljs_highlight : option string -> string -> option string.
Variable options : Options.

#[local] Abbreviation renderNode :=
  (Renderer.renderNode hljs_highlight options).

Lemma renderNode_unfold (n : Node) :
  renderNode n = render_case hljs_highlight options renderNode n.
Proof. destruct n; reflexivity. Qed.

(** A produced inline node renders as its own flat markup. *)
Lemma renderNode_produced (text : string) (n : Node) :
  produced text n -> renderNode n = Returns (flat_html n).
Proof.
  intros H. rewrite renderNode_unfold. destruct H; reflexivity.
Qed.

Lemma render_children_produced (text : string) (ch : list Node) :
  Forall (produced text) ch ->
  render_children renderNode ch = Returns (Js.join "" (map flat_html ch)).
Proof.
  intros H. unfold render_children.
  rewrite (mapM_map _ flat_html).
  - reflexivity.
  - eapply Forall_impl; [|exact H]. intros n. apply renderNode_produced.
Qed.

Lemma inline_flat (text : option string) :
  exists source, Forall (produced source) (inline text).
Proof.
  destruct text as [text|].
  - exists text. apply ParserFacts.inline_produced.
  - exists "". constructor.
Qed.

Lemma render_children_inline (text : option string) :
  render_children renderNode (inline text)
  = Returns (Js.join "" (map flat_html (inline text))).
Proof.
  destruct (inline_flat text) as [source H].
  now apply render_children_produced with (text := source).
Qed.

Lemma renderInlineContent_inline (n : Node) (text : option string) :
  Ast.children n = Some (inline text) ->
  exists html, renderInlineContent renderNode n = Returns html.
Proof.
  intros E. unfold renderInlineContent. rewrite E.
  destruct (inline text) as [|child rest] eqn:Hch; [eauto|].
  rewrite <- Hch, render_children_inline. eauto.
Qed.

Lemma render_item_node (t : Lexer.Token) :
  (inner <- children_or_content renderNode (item_node t) ;;
   Returns ("<li>" ++ inner ++ "</li>")%string)
  = Returns (item_html (item_node t)).
Proof.
  unfold children_or_content, item_node, block. cbn [Ast.children].
  rewrite render_children_inline. reflexivity.
Qed.

Lemma render_items_run (ty : NodeType.t) (run : list Lexer.Token) :
  render_items renderNode (list_node ty (map item_node run))
  = Returns (Js.join Js.nl (map item_html (map item_node run))).
Proof.
  unfold render_items, list_node. cbn [Ast.items].
  rewrite (mapM_map _ item_html); [reflexivity|].
  apply Forall_forall. intros item Hin.
  apply in_map_iff in Hin. destruct Hin as (t & <- & _).
  apply render_item_node.
Qed.

Lemma render_rows_returns (run : list Lexer.Token) :
  forall index,
  exists rendered,
    render_rows index (map (fun r => row_node (Lexer.cells r)) run)
    = Returns rendered.
Proof.
  induction run as [|r run IH]; intros index; simpl; [eauto|].
  destruct (IH (S index)) as [rest ->]. simpl. eauto.
Qed.

(** Every node the tree builder makes renders. *)
Lemma node_at_renders (rest : list Lexer.Token) (t : Lexer.Token)
    (n : Node) :
  fst (node_at rest t) = Some n ->
  exists html, renderNode n = Returns html.
Proof.
  unfold node_at. rewrite renderNode_unfold.
  destruct (Lexer.type t); cbn [fst]; intros E; inversion E; subst; clear E;
    unfold render_case;
    cbn [Ast.type list_node blockquote_node block leaf object].
  - unfold renderHeader.
    edestruct renderInlineContent_inline as [html ->]; [reflexivity|].
    cbn [bind]. eauto.
  - eauto.
  - unfold renderList. rewrite render_items_run. cbn [bind]. eauto.
  - unfold renderOrderedList. rewrite render_items_run. cbn [bind]. eauto.
  - unfold renderBlockquote, children_or_content, blockquote_node, block.
    cbn [Ast.children]. rewrite render_children_inline. cbn [bind]. eauto.
  - eauto.
  - unfold renderTable. cbn [Ast.rows].
    destruct (map _ (run_of Lexer.table_row rest)) as [|row rows] eqn:Hrows;
      [eauto|].
    rewrite <- Hrows.
    destruct (render_rows_returns (run_of Lexer.table_row rest) 0)
      as [rendered ->].
    cbn [bind]. eauto.
  - unfold renderParagraph, block. cbn [Ast.children].
    destruct (inline _) as [|child more] eqn:Hch; [eauto|].
    rewrite <- Hch, render_children_inline. cbn [bind]. eauto.
  - eauto.
Qed.

(** A document whose children render is rendered and wrapped. *)
Lemma render_document (children : list Node) :
  Forall (fun n => exists html, renderNode n = Returns html) children ->
  exists html,
    render hljs_highlight options (Some (document_node children))
    = Returns html.
Proof.
  intros H. unfold render, document_node. cbn [Ast.type].
  rewrite renderNode_unfold. unfold render_case. cbn [Ast.type Ast.children].
  destruct (mapM_returns _ _ H) as [parts ->]. cbn [bind]. eauto.
Qed.

End WithHighlighter.

End RendererFacts.

(** ** The plain text of a scan *)

Module LiteralFacts.

Import Ast Parser Spec InlineFacts.

Lemma append_empty (s : string) : (s ++ "")%string = s.
Proof. induction s as [|c s IH]; cbn [append]; congruence. Qed.

Lemma join_empty_cons (x : string) (l : list string) :
  Js.join "" (x :: l) = (x ++ Js.join "" l)%string.
Proof.
  unfold Js.join. destruct l as [|y l]; cbn [String.concat append].
  - now rewrite append_empty.
  - reflexivity.
Qed.

Lemma join_empty_app (a b : list string) :
  Js.join "" (a ++ b) = (Js.join "" a ++ Js.join "" b)%string.
Proof.
  induction a as [|x a IH]; [reflexivity|].
  cbn [app]. now rewrite !join_empty_cons, IH, RendererFacts.append_assoc.
Qed.

Lemma literal_text_app (a b : list Node) :
  literal_text (a ++ b) = (literal_text a ++ literal_text b)%string.
Proof.
  unfold literal_text. now rewrite filter_app, map_app, join_empty_app.
Qed.

Lemma literal_text_text (c : string) :
  literal_text [leaf NodeType.text c] = c.
Proof.
  unfold literal_text. cbn. unfold Js.join. reflexivity.
Qed.

Lemma literal_text_other (n : Node) :
  Ast.type n <> NodeType.text -> literal_text [n] = "".
Proof.
  intros H. unfold literal_text. cbn [filter].
  destruct (Ast.type n); try reflexivity. congruence.
Qed.

Lemma literal_push (ch : list Node) (n : Node) :
  Ast.type n <> NodeType.text ->
  literal_text (ch ++ [n]) = literal_text ch.
Proof.
  intros H. rewrite literal_text_app, (literal_text_other n H).
  apply append_empty.
Qed.

Lemma flush_literal (cur : string) (ch : list Node) :
  (literal_text (snd (flush cur ch)) ++ fst (flush cur ch))%string
  = (literal_text ch ++ cur)%string.
Proof.
  unfold flush. destruct (Js.truthy cur); cbn [fst snd]; [|reflexivity].
  now rewrite literal_text_app, literal_text_text, append_empty.
Qed.

Lemma flushed_literal (cur : string) (ch : list Node) (cur' : string)
    (ch' : list Node) :
  flush cur ch = (cur', ch') ->
  (literal_text ch' ++ cur')%string = (literal_text ch ++ cur)%string.
Proof.
  intros E. pose proof (flush_literal cur ch) as H. now rewrite E in H.
Qed.

Ltac pushed :=
  unfold literal_so_far; cbn [children currentText];
  rewrite literal_push by (cbn; discriminate); assumption.

Lemma check_bold_literal (text : string) (st : Scan) :
  check_literal (literal_so_far st) (check_bold text st).
Proof.
  unfold check_bold. destruct (String.eqb _ "**"); [|reflexivity].
  destruct (flush _ _) as [cur ch] eqn:Hf. apply flushed_literal in Hf.
  destruct (Js.indexOf "**" (i st + 2) text); cbn [check_literal];
    [pushed|exact Hf].
Qed.

Lemma check_italic_literal (text : string) (st : Scan) :
  check_literal (literal_so_far st) (check_italic text st).
Proof.
  unfold check_italic. destruct (_ && _); [|reflexivity].
  destruct (flush _ _) as [cur ch] eqn:Hf. apply flushed_literal in Hf.
  destruct (Js.indexOf "*" (i st + 1) text); cbn [check_literal];
    [|exact Hf].
  destruct (negb _); cbn [check_literal]; [pushed|exact Hf].
Qed.

Lemma check_code_literal (text : string) (st : Scan) :
  check_literal (literal_so_far st) (check_code text st).
Proof.
  unfold check_code. destruct (Js.charIs _ _ _); [|reflexivity].
  destruct (flush _ _) as [cur ch] eqn:Hf. apply flushed_literal in Hf.
  destruct (Js.indexOf _ (i st + 1) text); cbn [check_literal];
    [pushed|exact Hf].
Qed.

Lemma check_link_literal (text : string) (st : Scan) :
  check_literal (literal_so_far st) (check_link text st).
Proof.
  unfold check_link. destruct (Js.charIs _ _ _); [|reflexivity].
  destruct (flush _ _) as [cur ch] eqn:Hf. apply flushed_literal in Hf.
  destruct (Js.indexOf "]" (i st) text) as [e|]; cbn [check_literal];
    [|exact Hf].
  destruct (Js.charIs _ _ _); cbn [check_literal]; [|exact Hf].
  destruct (Js.indexOf ")" (e + 2) text); cbn [check_literal];
    [pushed|exact Hf].
Qed.

Lemma check_image_literal (text : string) (st : Scan) :
  check_literal (literal_so_far st) (check_image text st).
Proof.
  unfold check_image. destruct (String.eqb _ "!["); [|reflexivity].
  destruct (flush _ _) as [cur ch] eqn:Hf. apply flushed_literal in Hf.
  destruct (Js.indexOf "]" (i st + 2) text) as [e|]; cbn [check_literal];
    [|exact Hf].
  destruct (Js.charIs _ _ _); cbn [check_literal]; [|exact Hf].
  destruct (Js.indexOf ")" (e + 2) text); cbn [check_literal];
    [pushed|exact Hf].
Qed.

Lemma and_then_literal (l : string) (c : Check) (st : Scan)
    (k : Scan -> Scan) :
  check_literal l c ->
  (forall st', literal_so_far st' = l ->
               exists more, literal_so_far (k st') = (l ++ more)%string) ->
  exists more, literal_so_far (and_then c st k) = (l ++ more)%string.
Proof.
  intros Hc Hk. destruct c as [st'|cur ch]; cbn [and_then check_literal] in *.
  - exists "". now rewrite append_empty.
  - apply Hk. exact Hc.
Qed.

(** One iteration only adds to the plain text found so far. *)
Lemma inline_step_literal (text : string) (st : Scan) :
  exists more,
    literal_so_far (inline_step text st)
    = (literal_so_far st ++ more)%string.
Proof.
  unfold inline_step.
  apply and_then_literal; [apply check_bold_literal|]. intros s1 E1.
  rewrite <- E1.
  apply and_then_literal; [apply check_italic_literal|]. intros s2 E2.
  rewrite <- E2.
  apply and_then_literal; [apply check_code_literal|]. intros s3 E3.
  rewrite <- E3.
  apply and_then_literal; [apply check_link_literal|]. intros s4 E4.
  rewrite <- E4.
  apply and_then_literal; [apply check_image_literal|]. intros s5 E5.
  rewrite <- E5. unfold regular_character, literal_so_far.
  cbn [children currentText]. eexists.
  now rewrite RendererFacts.append_assoc.
Qed.

Lemma inline_loop_literal (text : string) (fuel : nat) :
  forall st st',
    inline_loop fuel text st = Returns st' ->
    exists more, literal_so_far st' = (literal_so_far st ++ more)%string.
Proof.
  induction fuel as [|fuel IH]; intros st st' E; [discriminate|].
  cbn [inline_loop] in E. destruct (i st <? String.length text).
  - destruct (IH _ _ E) as [more2 H2].
    destruct (inline_step_literal text st) as [more1 H1].
    exists (more1 ++ more2)%string.
    now rewrite H2, H1, RendererFacts.append_assoc.
  - injection E as <-. exists "". now rewrite append_empty.
Qed.

Lemma flush_literal_all (cur : string) (ch : list Node) :
  literal_text (snd (flush cur ch)) = (literal_text ch ++ cur)%string.
Proof.
  rewrite <- flush_literal. unfold flush.
  destruct (Js.truthy cur) eqn:E; cbn [fst snd].
  - now rewrite append_empty.
  - destruct cur; [|discriminate]. now rewrite append_empty.
Qed.

Lemma inline_loop_step (fuel : nat) (text : string) (st : Scan) :
  i st < String.length text ->
  inline_loop (S fuel) text st = inline_loop fuel text (inline_step text st).
Proof.
  intros H. cbn [inline_loop]. apply Nat.ltb_lt in H. now rewrite H.
Qed.

(** A [**] at the start of a text with no asterisk after it: the plain
    text of the nodes starts with the two asterisks. *)
Lemma unclosed_marker_literal (text : string) :
  bold_marker_at 0 text ->
  Js.indexOf "*" 2 text = None ->
  exists ch more,
    parseInlineContent (Some text) = Returns ch /\
    literal_text ch = ("**" ++ more)%string.
Proof.
  intros Hm He.
  destruct (parseInlineContent_returns text) as (ch & E & _).
  exists ch. pose proof E as E'. unfold parseInlineContent in E'.
  destruct (marker_chars _ _ Hm) as [H0 H1].
  destruct text as [|a [|b rest]]; try discriminate.
  remember (String a (String b rest)) as text eqn:Ht.
  assert (Hlen : String.length text = S (S (String.length rest)))
    by now rewrite Ht.
  assert (Htruthy : Js.truthy text = true) by now rewrite Ht.
  rewrite Htruthy in E'. cbn [negb] in E'.
  pose proof (inline_step_unclosed_bold text (mkScan 0 "" []) Hm
                (no_star_no_marker _ _ He)) as Hs1.
  pose proof (inline_steps_literal_bold text (mkScan 0 "" []) Hm He) as Hs2.
  cbn [i currentText children flush Js.truthy fst snd app append Nat.add]
    in Hs1, Hs2.
  rewrite inline_loop_step in E' by (cbn [i]; lia).
  rewrite Hlen in E' at 1.
  rewrite inline_loop_step in E' by (rewrite Hs1; cbn [i]; lia).
  rewrite Hs2 in E'.
  destruct (inline_loop _ text _) as [stf| |] eqn:El; try discriminate.
  cbn [bind] in E'. injection E' as <-.
  destruct (inline_loop_literal _ _ _ _ El) as [more Hmore].
  exists more. split; [exact E|].
  rewrite flush_literal_all. exact Hmore.
Qed.

End LiteralFacts.

(** ** The entry point *)

Module ConverterFacts.

Import Spec.

Lemma tokenize_string_returns (text : string) :
  exists tokens,
    Lexer.tokenize_string text = Returns tokens /\
    Forall (classified (Js.split Js.newline text)) tokens.
Proof.
  unfold Lexer.tokenize_string.
  apply LexerFacts.tokenize_loop_classified; [lia|constructor].
Qed.

Section WithHighlighter.

Variable hljs_highlight : option string -> string -> option string.
Variable options : Renderer.Options.

#[local] Abbreviation renders := (Spec.renders hljs_highlight options).

(** The tree of any token sequence is a document whose children render. *)
Lemma parse_returns (tokens : list Lexer.Token) :
  exists children,
    Parser.parse tokens = Returns (Parser.document_node children) /\
    Forall renders children.
Proof.
  unfold Parser.parse.
  destruct (ParserFacts.parse_loop_invariant
              (fun _ ch => Forall renders ch) tokens)
    with (fuel := S (List.length tokens)) (current := 0)
         (children := @nil Ast.Node)
    as (result & final & -> & _ & H); [|lia|constructor|].
  - intros current children t Ht Hinv.
    destruct (fst (node_at (skipn current tokens) t)) as [n|] eqn:Hn;
      simpl; auto.
    apply Forall_app. split; auto. constructor; [|constructor].
    eapply RendererFacts.node_at_renders; eauto.
  - cbn [bind]. eauto.
Qed.

Lemma pipeline_returns (text : string) :
  exists html,
    (tokens <- Lexer.tokenize (Js.VString text) ;;
     ast <- Parser.parse tokens ;;
     Renderer.render hljs_highlight options (Some ast)) = Returns html.
Proof.
  cbn [Lexer.tokenize].
  destruct (tokenize_string_returns text) as (tokens & -> & _). cbn [bind].
  destruct (parse_returns tokens) as (children & -> & H). cbn [bind].
  now apply RendererFacts.render_document.
Qed.

End WithHighlighter.

End ConverterFacts.

(** * The properties of the specification *)

(** C1: [convert] fails only when it is handed a value that is not a
    string.  For every string, whatever its markers, fences or content, it
    returns a markup string: it neither throws nor runs forever.  For a
    value that is not a string it throws a conversion error. *)
Theorem convert_fails_only_on_non_strings :
  forall (hljs_highlight : option string -> string -> option string)
         (current : Renderer.Options) (options : Converter.CallOptions)
         (markdown : Js.Value),
    match markdown with
    | Js.VString _ =>
        exists html,
          Converter.convert hljs_highlight current markdown options
          = Returns html
    | _ =>
        exists message,
          Converter.convert hljs_highlight current markdown options
          = Throws ("Conversion failed: " ++ message)
    end.
Proof.
  intros hl current options [text| | |n|b]; unfold Converter.convert.
  - destruct (ConverterFacts.pipeline_returns hl
                (Converter.spread current options) text) as [html ->].
    eauto.
  - simpl. eauto.
  - simpl. eauto.
  - simpl. eauto.
  - simpl. eauto.
Qed.

(** C2 (the code differs): [tokenize] of the empty string is one
    line-break token, not the empty sequence, because [split] of the empty
    string is one empty line; and a text that ends with a line terminator
    gets one more line-break token for the empty line after it. *)
Theorem tokenize_empty_string :
  Lexer.tokenize (Js.VString "")
  = Returns [Lexer.mkToken Lexer.line_break Js.nl Js.nl 0 1
               None None None None None]
  /\ Js.split Js.newline "" = [""]
  /\ Lexer.tokenize (Js.VString ("a" ++ Js.nl))
     = Returns [Lexer.mkToken Lexer.paragraph "a" "a" 0 1
                  None None None None None;
                Lexer.mkToken Lexer.line_break Js.nl Js.nl 1 1
                  None None None None None].
Proof. repeat split. Qed.

(** C3 (the code differs): the content of a text node, the URL of a link
    and the source and alternative text of an image are passed through
    [escapeHtml] before they are emitted, but one attribute value is not:
    the language of a code block is written into the [class] attribute as
    it is.  A fence whose language holds a double quote and angle brackets
    ends the attribute and opens a tag of its own in the page, while the
    code of the same block is escaped.  [escapeHtml] replaces each of the
    characters [&], [<], [>], the double quote and the single quote by its
    entity, once, so its result holds none of the last four; the escape of
    [<] is [&lt;], and escaping that again gives [&amp;lt;], which is
    another string. *)
Theorem code_block_language_is_not_escaped :
  forall (hljs_highlight : option string -> string -> option string)
         (options : Renderer.Options),
    (forall content children level text language code items rows cells
            url src alt,
       Renderer.renderNode hljs_highlight options
         (Ast.mkNode NodeType.text content children level text language code
            items rows cells url src alt)
       = Returns (Renderer.escapeHtml content)) /\
    (forall content children level text language code items rows cells
            url src alt,
       let node := Ast.mkNode NodeType.link content children level text
                     language code items rows cells url src alt in
       Renderer.renderNode hljs_highlight options node
       = (inner <- Renderer.renderInlineContent
                     (Renderer.renderNode hljs_highlight options) node ;;
          Returns ("<a href=" ++ Renderer.dq ++ Renderer.escapeHtml url
                     ++ Renderer.dq ++ ">" ++ inner ++ "</a>")%string)) /\
    (forall label url,
       Renderer.renderNode hljs_highlight options (Parser.link_node label url)
       = Returns ("<a href=" ++ Renderer.dq ++ Renderer.escapeHtml (Some url)
                    ++ Renderer.dq ++ ">" ++ Renderer.escapeHtml (Some label)
                    ++ "</a>")%string) /\
    (forall content children level text language code items rows cells
            url src alt,
       Renderer.renderNode hljs_highlight options
         (Ast.mkNode NodeType.image content children level text language
            code items rows cells url src alt)
       = Returns ("<img src=" ++ Renderer.dq ++ Renderer.escapeHtml src
                    ++ Renderer.dq ++ " alt=" ++ Renderer.dq
                    ++ Renderer.escapeHtml alt ++ Renderer.dq ++ " />")%string) /\
    (forall s, Renderer.escapeHtml (Some s) = Spec.escape_each s) /\
    (forall s,
       Js.all_chars (fun c => negb (Spec.is_markup_char c))
         (Renderer.escapeHtml (Some s)) = true) /\
    Renderer.escapeHtml (Some "<") = "&lt;" /\
    Renderer.escapeHtml (Some "&lt;") = "&amp;lt;" /\
    Renderer.escapeHtml (Some "&lt;") <> "&lt;" /\
    (forall content children level text l code items rows cells url src alt,
       Js.truthy l = true ->
       Renderer.renderNode hljs_highlight options
         (Ast.mkNode NodeType.code_block content children level text
            (Some l) code items rows cells url src alt)
       = Returns ("<pre><code class=" ++ Renderer.dq ++ "language-" ++ l
                    ++ Renderer.dq ++ ">"
                    ++ (if Renderer.highlight options
                        then match hljs_highlight code l with
                             | Some highlighted => highlighted
                             | None => Renderer.escapeHtml code
                             end
                        else Renderer.escapeHtml code)
                    ++ "</code></pre>")%string) /\
    Converter.convert (fun _ _ => None) Converter.defaults
      (Js.VString
         (Js.join Js.nl
            [("```x" ++ Renderer.dq ++ "><script>")%string; "a<b"; "```"]))
      (Converter.mkCallOptions None None)
    = Returns
        (Renderer.wrapInDocument Converter.defaults
           ("<pre><code class=" ++ Renderer.dq ++ "language-x" ++ Renderer.dq
            ++ "><script>" ++ Renderer.dq ++ ">a&lt;b</code></pre>")) /\
    Renderer.escapeHtml (Some ("x" ++ Renderer.dq ++ "><script>")%string)
    = "x&quot;&gt;&lt;script&gt;".
Proof.
  intros hl options.
  repeat match goal with |- _ /\ _ => split end;
    try reflexivity; try discriminate.
  - apply RendererFacts.escapeHtml_each.
  - apply RendererFacts.escapeHtml_clean.
  - intros content children level text l code items rows cells url src alt
      Hl.
    rewrite RendererFacts.renderNode_unfold.
    unfold Renderer.render_case. cbn [Ast.type].
    unfold Renderer.renderCodeBlock. cbn [Ast.language Ast.code].
    unfold Renderer.is_set, Renderer.or_empty. rewrite Hl.
    rewrite andb_true_r. f_equal.
    rewrite !RendererFacts.append_assoc. reflexivity.
Qed.

(** C4: the token of a line has the category of the first rule, in the
    order blank, header, fence, unordered item, ordered item, blockquote,
    rule, table row, that the trimmed line matches, and is a paragraph
    when it matches none.  The category depends on the line alone.  Every
    token of [tokenize] stands at a line of the input and has the category
    of that line; when no line opens a fence, the tokens are the categories
    of the lines, one for each line and in order.  A line that starts with
    a pipe and does not end with one is a paragraph. *)
Theorem lines_are_classified_in_priority_order :
  (forall lines i line,
     exists token i',
       Lexer.tokenize_line lines i line = Returns (token, i') /\
       Lexer.type token = Spec.classify line) /\
  (forall line,
     Spec.classify line
     = Spec.first_match
         [ (fun s => negb (Js.truthy s), Lexer.line_break);
           (fun s => Spec.is_some (Lexer.match_header s), Lexer.header);
           (fun s => Js.startsWith Lexer.fence s, Lexer.code_block);
           (fun s => Spec.is_some (Lexer.match_list s), Lexer.list_item);
           (fun s => Spec.is_some (Lexer.match_ordered s),
            Lexer.ordered_list_item);
           (fun s => Js.startsWith ">" s, Lexer.blockquote);
           (fun s => Lexer.test_hr s, Lexer.hr);
           (fun s => Js.startsWith "|" s && Js.endsWith "|" s,
            Lexer.table_row) ]
         Lexer.paragraph (Js.trim line)) /\
  (forall text,
     exists tokens,
       Lexer.tokenize (Js.VString text) = Returns tokens /\
       Forall (Spec.classified (Js.split Js.newline text)) tokens) /\
  (forall text,
     Forall Spec.not_a_fence (Js.split Js.newline text) ->
     exists tokens,
       Lexer.tokenize (Js.VString text) = Returns tokens /\
       map Lexer.type tokens
       = map Spec.classify (Js.split Js.newline text)) /\
  Spec.classify "| a | b" = Lexer.paragraph /\
  Spec.classify "* * *" = Lexer.list_item /\
  Spec.classify "***" = Lexer.hr.
Proof.
  split; [|split; [|split; [|split; [|repeat split]]]].
  - intros lines i line.
    destruct (LexerFacts.tokenize_line_returns lines i line)
      as (token & i' & E & Hty & _).
    eauto.
  - reflexivity.
  - intros text. apply ConverterFacts.tokenize_string_returns.
  - intros text Hlines. cbn [Lexer.tokenize]. unfold Lexer.tokenize_string.
    destruct (LexerFacts.tokenize_loop_line_by_line
                (Js.split Js.newline text)
                (S (List.length (Js.split Js.newline text))) Hlines 0 [])
      as (tokens & E & Hmap); [lia|].
    exists tokens. split; [exact E|exact Hmap].
Qed.

(** Three lines without a fence: a paragraph, a header and a rule. *)
Lemma lines_are_classified_in_priority_order_witness :
  let text := ("| a | b" ++ Js.nl ++ "# c" ++ Js.nl ++ "---")%string in
  Forall Spec.not_a_fence (Js.split Js.newline text) /\
  exists tokens,
    Lexer.tokenize (Js.VString text) = Returns tokens /\
    map Lexer.type tokens = [Lexer.paragraph; Lexer.header; Lexer.hr].
Proof.
  intros text.
  assert (H : Forall Spec.not_a_fence (Js.split Js.newline text)).
  { repeat constructor. }
  destruct lines_are_classified_in_priority_order
    as (_ & _ & _ & Hlines & _).
  destruct (Hlines text H) as (tokens & E & Hmap).
  split; [exact H|]. exists tokens. split; [exact E|exact Hmap].
Defined.

(** C5: a line whose trimmed form starts with three backticks gives one
    code-block token.  Its language is what follows the backticks on that
    line, trimmed, and its code is the lines after it, as they are, joined
    by line terminators, up to the first line whose trimmed form starts with
    three backticks, or to the end of the input when there is none.  The
    loop goes on after that closing line; without a closing line the token
    is the last one and nothing is thrown. *)
Theorem fenced_block_token :
  forall (lines : list string) (i : nat) (line : string),
    nth_error lines i = Some line ->
    Js.startsWith Lexer.fence (Js.trim line) = true ->
    let body := Spec.code_lines (skipn (i + 1) lines) in
    let token := Spec.fence_token lines i line in
    (forall fuel tokens,
       Lexer.tokenize_loop (S fuel) lines i tokens
       = Lexer.tokenize_loop fuel lines (S (i + 1 + List.length body))
           (tokens ++ [token])) /\
    Lexer.type token = Lexer.code_block /\
    Lexer.language token
    = Some (Js.trim (Js.substringFrom 3 (Js.trim line))) /\
    Lexer.code token = Some (Js.join Js.nl body) /\
    (exists tail,
       skipn (i + 1) lines = body ++ tail /\
       Forall Spec.not_a_fence body /\
       match tail with
       | [] => True
       | closing :: after =>
           Js.startsWith Lexer.fence (Js.trim closing) = true /\
           skipn (S (i + 1 + List.length body)) lines = after
       end) /\
    (Forall Spec.not_a_fence (skipn (i + 1) lines) ->
     body = skipn (i + 1) lines /\
     forall fuel tokens,
       Lexer.tokenize_loop (S (S fuel)) lines i tokens
       = Returns (tokens ++ [token])).
Proof.
  intros lines i line Hline Hfence body token.
  assert (Hstep : forall fuel tokens,
             Lexer.tokenize_loop (S fuel) lines i tokens
             = Lexer.tokenize_loop fuel lines (S (i + 1 + List.length body))
                 (tokens ++ [token])).
  { intros fuel tokens. cbn [Lexer.tokenize_loop]. rewrite Hline.
    rewrite LexerFacts.tokenize_line_fence by assumption. reflexivity. }
  repeat split; auto.
  - destruct (LexerFacts.code_lines_split (skipn (i + 1) lines))
      as (tail & E & Hbody & Htail).
    exists tail. repeat split; auto.
    destruct tail as [|closing after]; auto. split; auto.
    replace (S (i + 1 + List.length body))
      with ((1 + List.length body) + (i + 1)) by lia.
    rewrite <- skipn_skipn. fold body in E. rewrite E.
    rewrite skipn_app, skipn_all2 by lia.
    replace (1 + List.length body - List.length body) with 1 by lia.
    reflexivity.
  - now apply LexerFacts.code_lines_all.
  - intros fuel tokens. rewrite Hstep. cbn [Lexer.tokenize_loop].
    assert (Hlen : List.length lines <= S (i + 1 + List.length body)).
    { unfold body. rewrite LexerFacts.code_lines_all by assumption.
      rewrite length_skipn. lia. }
    apply nth_error_None in Hlen. now rewrite Hlen.
Qed.

(** A fenced block with a language, one line of code and a closing
    fence. *)
Lemma fenced_block_token_witness :
  let lines := ["```js"; "  a"; "```"; "b"] in
  nth_error lines 0 = Some "```js" /\
  Js.startsWith Lexer.fence (Js.trim "```js") = true /\
  Lexer.language (Spec.fence_token lines 0 "```js") = Some "js" /\
  Lexer.code (Spec.fence_token lines 0 "```js") = Some "  a".
Proof.
  intros lines.
  assert (H1 : nth_error lines 0 = Some "```js") by reflexivity.
  assert (H2 : Js.startsWith Lexer.fence (Js.trim "```js") = true)
    by reflexivity.
  destruct (fenced_block_token lines 0 "```js" H1 H2)
    as (_ & _ & Hlanguage & Hcode & _).
  split; [exact H1|]. split; [exact H2|].
  split; [exact Hlanguage | exact Hcode].
Defined.

(** C6 as the specification states it fails: an empty column inside a row
    is dropped with the edge pieces, so the cells are fewer than the
    columns. *)
Lemma table_cells_keep_no_empty_column :
  ~ (forall trimmedLine,
       Js.startsWith "|" trimmedLine = true ->
       Js.endsWith "|" trimmedLine = true ->
       Lexer.table_cells trimmedLine = Spec.cells_by_column trimmedLine).
Proof.
  intros H. specialize (H "| a |  | b |" eq_refl eq_refl). discriminate H.
Qed.

(** C6, amended: for a line whose trimmed form starts and ends with a pipe
    the token is a table row, and its cells are the pieces between the
    pipes, trimmed, without every piece that is empty after trimming: the
    two edge pieces and each empty column.  When no column is empty the
    cells are the columns. *)
Theorem table_row_cells :
  forall (lines : list string) (i : nat) (line : string),
    Js.startsWith "|" (Js.trim line) = true ->
    Js.endsWith "|" (Js.trim line) = true ->
    exists token,
      Lexer.tokenize_line lines i line = Returns (token, i) /\
      Lexer.type token = Lexer.table_row /\
      Lexer.cells token
      = Some (filter Js.truthy (map Js.trim (Js.split "|" (Js.trim line)))) /\
      Lexer.cells token
      = Some (filter Js.truthy (Spec.cells_by_column (Js.trim line))) /\
      (forallb Js.truthy (Spec.cells_by_column (Js.trim line)) = true ->
       Lexer.cells token = Some (Spec.cells_by_column (Js.trim line))).
Proof.
  intros lines i line Hs He.
  rewrite LexerFacts.tokenize_line_table_row by assumption.
  eexists. split; [reflexivity|]. cbn [Lexer.type Lexer.cells].
  rewrite <- LexerFacts.table_cells_by_column by assumption.
  repeat split. intros Hall. f_equal.
  rewrite LexerFacts.table_cells_by_column by assumption.
  rewrite forallb_forall in Hall.
  apply forallb_filter_id. now apply forallb_forall.
Qed.

(** A row of three columns whose second column is empty. *)
Lemma table_row_cells_witness :
  Js.startsWith "|" (Js.trim " | a |  | b | ") = true /\
  Js.endsWith "|" (Js.trim " | a |  | b | ") = true /\
  exists token,
    Lexer.tokenize_line [" | a |  | b | "] 0 " | a |  | b | "
    = Returns (token, 0) /\
    Lexer.cells token = Some ["a"; "b"].
Proof.
  assert (H1 : Js.startsWith "|" (Js.trim " | a |  | b | ") = true)
    by reflexivity.
  assert (H2 : Js.endsWith "|" (Js.trim " | a |  | b | ") = true)
    by reflexivity.
  destruct (table_row_cells [" | a |  | b | "] 0 " | a |  | b | " H1 H2)
    as (token & E & _ & Hcells & _).
  split; [exact H1|]. split; [exact H2|].
  exists token. split; [exact E | exact Hcells].
Defined.

(** C7: the unordered list nodes of the tree of a token sequence are the
    lists of its maximal runs of consecutive list-item tokens, one list for
    each run and in order, with one item for each token of the run, each
    item with the inline nodes of its own content.  When the cursor stands
    on a list-item token, one list node is made of the whole run that starts
    there; the run is not empty, holds list-item tokens only, and the token
    after it, if there is one, is not a list item, so an ordered item after
    an unordered one starts an ordered list.  Two lines [- item] give one
    list with two items. *)
Theorem list_items_are_grouped :
  (forall tokens : list Lexer.Token,
     exists children,
       Parser.parse tokens = Returns (Parser.document_node children) /\
       filter Spec.is_list children
       = map (fun run =>
                Parser.list_node NodeType.list (map Spec.item_node run))
             (Spec.runs Lexer.list_item tokens)) /\
  (forall run tail : list Lexer.Token,
     run <> [] ->
     Forall (fun r => Lexer.type r = Lexer.list_item) run ->
     match tail with
     | [] => True
     | next :: _ => Lexer.type next <> Lexer.list_item
     end ->
     Spec.runs Lexer.list_item (run ++ tail)
     = run :: Spec.runs Lexer.list_item tail) /\
  (forall others tail : list Lexer.Token,
     Forall (fun r => Lexer.type r <> Lexer.list_item) others ->
     Spec.runs Lexer.list_item (others ++ tail)
     = Spec.runs Lexer.list_item tail) /\
  (forall (tokens : list Lexer.Token) (current : nat) (t : Lexer.Token),
     nth_error tokens current = Some t ->
     Lexer.type t = Lexer.list_item ->
     let run := Spec.run_of Lexer.list_item (skipn current tokens) in
     Parser.parseNode tokens current
     = Returns (Some (Parser.list_node NodeType.list
                        (map Spec.item_node run)),
                current + List.length run) /\
     1 <= List.length run /\
     Forall (fun r => Lexer.type r = Lexer.list_item) run /\
     (exists tail,
        skipn current tokens = run ++ tail /\
        match tail with
        | [] => True
        | next :: _ => Lexer.type next <> Lexer.list_item
        end) /\
     Forall (fun r =>
               exists ch,
                 Parser.parseInlineContent (Some (Lexer.content r))
                 = Returns ch /\
                 Spec.item_node r
                 = Ast.block NodeType.list_item (Lexer.content r) ch) run) /\
  (tokens <- Lexer.tokenize (Js.VString ("- item" ++ Js.nl ++ "- item")) ;;
   Parser.parse tokens)
  = Returns (Parser.document_node
               [Parser.list_node NodeType.list
                  [Ast.block NodeType.list_item "item"
                     [Ast.leaf NodeType.text "item"];
                   Ast.block NodeType.list_item "item"
                     [Ast.leaf NodeType.text "item"]]]) /\
  (tokens <- Lexer.tokenize (Js.VString ("- a" ++ Js.nl ++ "1. b")) ;;
   Parser.parse tokens)
  = Returns (Parser.document_node
               [Parser.list_node NodeType.list
                  [Ast.block NodeType.list_item "a"
                     [Ast.leaf NodeType.text "a"]];
                Parser.list_node NodeType.ordered_list
                  [Ast.block NodeType.list_item "b"
                     [Ast.leaf NodeType.text "b"]]]).
Proof.
  split; [|split; [|split; [|split; [|split; reflexivity]]]].
  - intros tokens. apply ParserFacts.parse_lists.
  - intros run tail Hne Hall Htail.
    apply ParserFacts.runs_run; auto.
    now apply ParserFacts.starts_with_tail.
  - intros others tail. apply ParserFacts.runs_skip.
  - intros tokens current t Ht Hty run.
    pose proof (ParserFacts.parseNode_spec tokens current t Ht) as Hnode.
    unfold Spec.node_at in Hnode. rewrite Hty in Hnode. cbn [fst snd] in Hnode.
    split; [exact Hnode|].
    destruct (ParserFacts.run_of_split Lexer.list_item (skipn current tokens))
      as (tail & E & Hrun & Htail).
    split; [|split; [exact Hrun|split; [now exists tail|]]].
    + unfold run. rewrite (skipn_cons_nth_error _ _ _ Ht). simpl.
      rewrite Hty. simpl. lia.
    + apply Forall_forall. intros r _.
      exists (Spec.inline (Some (Lexer.content r))).
      split; [apply ParserFacts.inline_returns|reflexivity].
Qed.

(** Two list items between two rules, and a third one after them. *)
Lemma list_items_are_grouped_witness :
  let item (c : string) :=
    Lexer.mkToken Lexer.list_item ("- " ++ c) c 0 3 None None None None None in
  let rule := Lexer.mkToken Lexer.hr "---" "---" 0 3 None None None None None in
  let tokens := [rule; item "a"; item "b"; rule; item "c"] in
  nth_error tokens 1 = Some (item "a") /\
  Lexer.type (item "a") = Lexer.list_item /\
  Parser.parseNode tokens 1
  = Returns (Some (Parser.list_node NodeType.list
                     [Ast.block NodeType.list_item "a"
                        [Ast.leaf NodeType.text "a"];
                      Ast.block NodeType.list_item "b"
                        [Ast.leaf NodeType.text "b"]]),
             3).
Proof.
  intros item rule tokens.
  assert (H1 : nth_error tokens 1 = Some (item "a")) by reflexivity.
  assert (H2 : Lexer.type (item "a") = Lexer.list_item) by reflexivity.
  destruct list_items_are_grouped as (_ & _ & _ & Hgeneral & _).
  destruct (Hgeneral tokens 1 (item "a") H1 H2) as [Hnode _].
  split; [exact H1|]. split; [exact H2|]. exact Hnode.
Defined.

(** C8 as the specification states it fails: in [**a*b] the two asterisks
    have no closing pair, and yet only the first one is literal text; the
    second one opens an italic span that the third one closes. *)
Lemma unclosed_bold_is_not_always_literal :
  ~ (forall text : string,
       Spec.bold_marker_at 0 text ->
       Js.indexOf "**" 2 text = None ->
       exists ch,
         Parser.parseInlineContent (Some text) = Returns ch /\
         Js.startsWith "**" (Spec.literal_text ch) = true).
Proof.
  intros H.
  destruct (H "**a*b" eq_refl eq_refl) as (ch & E & L).
  vm_compute in E. injection E as <-. vm_compute in L. discriminate L.
Qed.

(** C8, amended: a bold node is made at a [**] only when [indexOf] finds a
    [**] after it, and it ends at the first one: the node holds what stands
    between the two and the scan goes on after the closing pair.  When no
    [**] follows, no bold node is made there: the first asterisk goes to the
    plain-text buffer and the scan goes on at the second asterisk, which is
    scanned again as a possible marker.  The second asterisk is plain text
    too when no asterisk at all follows the marker, as in [**abc], and when
    a third asterisk stands right after the marker, as in [***a*b] and
    [***x]; when something else stands right after the marker and an
    asterisk follows later, the second asterisk opens an italic span that
    ends at the first such asterisk, as in [**a*b].  The plain text of the
    nodes of a text that starts with a [**] and has no asterisk after it
    starts with the two asterisks.  Every bold node of a text comes from a
    [**] with its closing [**]. *)
Theorem bold_needs_a_closing_marker :
  (forall (text : string) (st : Parser.Scan) (e : nat),
     Spec.bold_marker_at (Parser.i st) text ->
     Js.indexOf "**" (Parser.i st + 2) text = Some e ->
     Parser.inline_step text st
     = Parser.mkScan (e + 2)
         (fst (Parser.flush (Parser.currentText st) (Parser.children st)))
         (snd (Parser.flush (Parser.currentText st) (Parser.children st))
          ++ [Ast.leaf NodeType.bold
                (Js.substring (Parser.i st + 2) e text)]) /\
     Parser.i st + 2 <= e /\
     Spec.bold_marker_at e text /\
     forall k, Parser.i st + 2 <= k -> k < e -> ~ Spec.bold_marker_at k text) /\
  (forall (text : string) (st : Parser.Scan),
     Spec.bold_marker_at (Parser.i st) text ->
     Js.indexOf "**" (Parser.i st + 2) text = None ->
     Parser.inline_step text st
     = Parser.mkScan (Parser.i st + 1)
         (fst (Parser.flush (Parser.currentText st) (Parser.children st))
          ++ "*")
         (snd (Parser.flush (Parser.currentText st) (Parser.children st)))) /\
  (forall (text : string) (st : Parser.Scan),
     Spec.bold_marker_at (Parser.i st) text ->
     Js.indexOf "*" (Parser.i st + 2) text = None ->
     Parser.inline_step text (Parser.inline_step text st)
     = Parser.mkScan (Parser.i st + 2) "*"
         (snd (Parser.flush (Parser.currentText st) (Parser.children st))
          ++ [Ast.leaf NodeType.text
                (fst (Parser.flush (Parser.currentText st)
                        (Parser.children st)) ++ "*")])) /\
  (forall (text : string) (st : Parser.Scan),
     Spec.bold_marker_at (Parser.i st) text ->
     Js.indexOf "**" (Parser.i st + 2) text = None ->
     Js.charIs (Parser.i st + 2) "*" text = true ->
     Parser.inline_step text (Parser.inline_step text st)
     = Parser.mkScan (Parser.i st + 2) "*"
         (snd (Parser.flush (Parser.currentText st) (Parser.children st))
          ++ [Ast.leaf NodeType.text
                (fst (Parser.flush (Parser.currentText st)
                        (Parser.children st)) ++ "*")])) /\
  (forall (text : string) (st : Parser.Scan) (e : nat),
     Spec.bold_marker_at (Parser.i st) text ->
     Js.indexOf "**" (Parser.i st + 2) text = None ->
     Js.charIs (Parser.i st + 2) "*" text = false ->
     Js.indexOf "*" (Parser.i st + 2) text = Some e ->
     Parser.inline_step text (Parser.inline_step text st)
     = Parser.mkScan (e + 1) ""
         (snd (Parser.flush (Parser.currentText st) (Parser.children st))
          ++ [Ast.leaf NodeType.text
                (fst (Parser.flush (Parser.currentText st)
                        (Parser.children st)) ++ "*");
              Ast.leaf NodeType.italic
                (Js.substring (Parser.i st + 2) e text)])) /\
  (forall text : string,
     Spec.bold_marker_at 0 text ->
     Js.indexOf "*" 2 text = None ->
     exists ch,
       Parser.parseInlineContent (Some text) = Returns ch /\
       Js.startsWith "**" (Spec.literal_text ch) = true) /\
  (forall text : string,
     exists ch,
       Parser.parseInlineContent (Some text) = Returns ch /\
       Forall (fun n =>
                 Ast.type n = NodeType.bold ->
                 exists i e,
                   Spec.bold_marker_at i text /\
                   Js.indexOf "**" (i + 2) text = Some e /\
                   n = Ast.leaf NodeType.bold (Js.substring (i + 2) e text))
              ch) /\
  Parser.parseInlineContent (Some "**abc")
  = Returns [Ast.leaf NodeType.text "*"; Ast.leaf NodeType.text "*abc"] /\
  Parser.parseInlineContent (Some "**a*b")
  = Returns [Ast.leaf NodeType.text "*"; Ast.leaf NodeType.italic "a";
             Ast.leaf NodeType.text "b"] /\
  Parser.parseInlineContent (Some "**a*b**c*")
  = Returns [Ast.leaf NodeType.bold "a*b"; Ast.leaf NodeType.text "c";
             Ast.leaf NodeType.text "*"] /\
  Parser.parseInlineContent (Some "***a*b")
  = Returns [Ast.leaf NodeType.text "*"; Ast.leaf NodeType.text "*";
             Ast.leaf NodeType.italic "a"; Ast.leaf NodeType.text "b"] /\
  Parser.parseInlineContent (Some "***x")
  = Returns [Ast.leaf NodeType.text "*"; Ast.leaf NodeType.text "*";
             Ast.leaf NodeType.text "*x"].
Proof.
  split; [|split; [|split; [|split; [|split; [|split; [|split;
    [|repeat split]]]]]]].
  - intros text st e Hm He.
    split; [now apply InlineFacts.inline_step_closed_bold|].
    destruct (InlineFacts.closing_is_first _ _ _ He) as (Hle & Hclosing & Hfirst).
    repeat split; auto.
    intros k Hk1 Hk2 Hmk. unfold Spec.bold_marker_at in Hmk.
    rewrite (Hfirst k Hk1 Hk2) in Hmk. discriminate.
  - intros text st. apply InlineFacts.inline_step_unclosed_bold.
  - intros text st. apply InlineFacts.inline_steps_literal_bold.
  - intros text st. apply InlineFacts.inline_steps_literal_before_star.
  - intros text st e. apply InlineFacts.inline_steps_italic_after_bold.
  - intros text Hm He.
    destruct (LiteralFacts.unclosed_marker_literal text Hm He)
      as (ch & more & E & L).
    exists ch. split; [exact E|]. rewrite L.
    apply String.prefix_correct. cbn [String.length append String.substring].
    now rewrite substring_empty.
  - intros text.
    destruct (InlineFacts.parseInlineContent_returns text) as (ch & E & H).
    exists ch. split; [exact E|].
    eapply Forall_impl; [|exact H].
    intros n Hn. now apply InlineFacts.produced_bold_closed.
Qed.

(** The scan of [x**a**b] at its first asterisk, with [x] in the
    buffer. *)
Lemma bold_needs_a_closing_marker_witness :
  let st := Parser.mkScan 1 "x" [] in
  Spec.bold_marker_at (Parser.i st) "x**a**b" /\
  Js.indexOf "**" (Parser.i st + 2) "x**a**b" = Some 4 /\
  Parser.inline_step "x**a**b" st
  = Parser.mkScan 6 ""
      [Ast.leaf NodeType.text "x"; Ast.leaf NodeType.bold "a"].
Proof.
  intros st.
  assert (H1 : Spec.bold_marker_at (Parser.i st) "x**a**b") by reflexivity.
  assert (H2 : Js.indexOf "**" (Parser.i st + 2) "x**a**b" = Some 4)
    by reflexivity.
  destruct bold_needs_a_closing_marker as [Hclosed _].
  destruct (Hclosed "x**a**b" st 4 H1 H2) as [Hstep _].
  split; [exact H1|]. split; [exact H2|]. exact Hstep.
Defined.

(** C9: the blockquote nodes of the tree of a token sequence are the nodes
    of its blockquote tokens, one node for each token and in the same
    order, each made of the content of that token alone: consecutive
    blockquote tokens are never merged.  Two blockquote lines give two
    blockquote nodes. *)
Theorem blockquotes_are_never_merged :
  (forall tokens : list Lexer.Token,
     exists children,
       Parser.parse tokens = Returns (Parser.document_node children) /\
       filter Spec.is_blockquote children
       = map Spec.blockquote_node
           (filter Spec.is_blockquote_token tokens) /\
       List.length (filter Spec.is_blockquote children)
       = List.length (filter Spec.is_blockquote_token tokens)) /\
  (forall t : Lexer.Token,
     Spec.blockquote_node t
     = Ast.block NodeType.blockquote (Lexer.content t)
         (Spec.inline (Some (Lexer.content t))) /\
     Parser.parseInlineContent (Some (Lexer.content t))
     = Returns (Spec.inline (Some (Lexer.content t)))) /\
  (tokens <- Lexer.tokenize (Js.VString ("> one" ++ Js.nl ++ "> two")) ;;
   Parser.parse tokens)
  = Returns (Parser.document_node
               [Ast.block NodeType.blockquote "one"
                  [Ast.leaf NodeType.text "one"];
                Ast.block NodeType.blockquote "two"
                  [Ast.leaf NodeType.text "two"]]).
Proof.
  split; [|split; [|reflexivity]].
  - intros tokens.
    destruct (ParserFacts.parse_blockquotes tokens) as (children & E & H).
    exists children. repeat split; auto.
    now rewrite H, length_map.
  - intros t. split; [reflexivity|apply ParserFacts.inline_returns].
Qed.

(** C10: the nodes of inline resolution are a flat sequence.  Each is a
    text, bold, italic, inline-code, link or image node that holds a string
    content and no children, items or rows, and the serializer emits it as
    its own tag around the escaped content (for an image, the escaped source
    and alternative text): markers inside a span stay literal characters,
    as the bold marker inside a link label and the italic marker inside a
    bold span do. *)
Theorem inline_nodes_are_flat :
  (forall text : string,
     exists ch,
       Parser.parseInlineContent (Some text) = Returns ch /\
       Forall (fun n =>
                 Spec.is_inline_type (Ast.type n) = true /\
                 Ast.children n = None /\ Ast.items n = None /\
                 Ast.rows n = None /\
                 (exists c, Ast.content n = Some c) /\
                 forall hljs_highlight options,
                   Renderer.renderNode hljs_highlight options n
                   = Returns (Spec.flat_html n)) ch /\
       forall hljs_highlight options,
         Renderer.render_children
           (Renderer.renderNode hljs_highlight options) ch
         = Returns (Js.join "" (map Spec.flat_html ch))) /\
  (forall c,
     Spec.flat_html (Ast.leaf NodeType.bold c)
     = ("<strong>" ++ Renderer.escapeHtml (Some c) ++ "</strong>")%string /\
     Spec.flat_html (Ast.leaf NodeType.italic c)
     = ("<em>" ++ Renderer.escapeHtml (Some c) ++ "</em>")%string /\
     Spec.flat_html (Ast.leaf NodeType.inline_code c)
     = ("<code>" ++ Renderer.escapeHtml (Some c) ++ "</code>")%string /\
     Spec.flat_html (Ast.leaf NodeType.text c)
     = Renderer.escapeHtml (Some c)) /\
  (forall label url,
     Spec.flat_html (Parser.link_node label url)
     = ("<a href=" ++ Renderer.dq ++ Renderer.escapeHtml (Some url)
          ++ Renderer.dq ++ ">" ++ Renderer.escapeHtml (Some label)
          ++ "</a>")%string) /\
  Parser.parseInlineContent (Some "[**b**](u)")
  = Returns [Parser.link_node "**b**" "u"] /\
  Spec.flat_html (Parser.link_node "**b**" "u")
  = ("<a href=" ++ Renderer.dq ++ "u" ++ Renderer.dq ++ ">**b**</a>")%string /\
  Parser.parseInlineContent (Some "**a *b* c**")
  = Returns [Ast.leaf NodeType.bold "a *b* c"] /\
  Spec.flat_html (Ast.leaf NodeType.bold "a *b* c")
  = "<strong>a *b* c</strong>".
Proof.
  split; [|repeat split].
  intros text.
  destruct (InlineFacts.parseInlineContent_returns text) as (ch & E & H).
  exists ch. split; [exact E|]. split.
  - eapply Forall_impl; [|exact H].
    intros n Hn.
    split; [now destruct Hn|]. split; [now destruct Hn|].
    split; [now destruct Hn|]. split; [now destruct Hn|].
    split; [destruct Hn; simpl; eauto|].
    intros hl options.
    now apply RendererFacts.renderNode_produced with (text := text).
  - intros hl options.
    now apply RendererFacts.render_children_produced with (text := text).
Qed.

(** * Further properties of the code *)

(** ** The lexer *)

Module LexerMore.

Import Lexer Spec Props.

(** The loop ends and keeps what every iteration keeps. *)
Lemma tokenize_loop_invariant (Inv : nat -> list Token -> Prop)
    (lines : list string) :
  (forall i tokens line token i',
     nth_error lines i = Some line -> Inv i tokens ->
     tokenize_line lines i line = Returns (token, i') ->
     Inv (S i') (tokens ++ [token])) ->
  forall (fuel i : nat) (tokens : list Token),
    List.length lines - i < fuel ->
    Inv i tokens ->
    exists result final,
      tokenize_loop fuel lines i tokens = Returns result /\
      List.length lines <= final /\ Inv final result.
Proof.
  intros Hstep. induction fuel as [|fuel IH]; intros i tokens Hfuel Hinv;
    [lia|].
  cbn [tokenize_loop]. destruct (nth_error lines i) as [line|] eqn:Hline.
  - destruct (LexerFacts.tokenize_line_returns lines i line)
      as (token & i' & E & _ & _ & Hle & _).
    rewrite E. cbn [bind].
    pose proof (nth_error_in_range _ _ _ Hline).
    apply IH; [lia|]. eapply Hstep; eauto.
  - apply nth_error_None in Hline. eauto.
Qed.

Lemma increasing_from_push (l : list nat) :
  forall lo p,
    increasing_from lo l -> Forall (fun q => q < p) l -> lo <= p ->
    increasing_from lo (l ++ [p]).
Proof.
  induction l as [|q l IH]; intros lo p Hinc Hall Hlo; simpl in *; auto.
  destruct Hinc as [Hq Hinc]. inversion Hall; subst.
  split; auto.
Qed.

Lemma increasing_from_length (n : nat) (l : list nat) :
  forall lo,
    increasing_from lo l -> Forall (fun q => q < n) l ->
    List.length l <= n - lo.
Proof.
  induction l as [|q l IH]; intros lo Hinc Hall; simpl in *; [lia|].
  destruct Hinc as [Hq Hinc]. inversion Hall; subst.
  specialize (IH (S q) Hinc H2). lia.
Qed.

(** A header at the start of a trimmed line, as [match_header] reads it. *)
Lemma rest_of_line_some (s r : string) :
  rest_of_line s = Some r ->
  r = s /\ s <> "" /\
  Js.all_chars (fun c => negb (Js.is_line_terminator c)) s = true.
Proof.
  unfold rest_of_line. destruct (Js.truthy s) eqn:Ht; [|discriminate].
  destruct (Js.all_chars _ s) eqn:Ha; [|discriminate].
  cbn [andb]. intros H. injection H as <-. repeat split; auto.
  intros ->. discriminate.
Qed.

Lemma spaces_then_rest_some (s : string) :
  forall r,
    spaces_then_rest s = Some r ->
    exists ws,
      s = (ws ++ r)%string /\ Js.all_chars Js.is_space ws = true /\
      r <> "" /\
      Js.all_chars (fun c => negb (Js.is_line_terminator c)) r = true.
Proof.
  induction s as [|c s IH]; intros r H; [discriminate|].
  cbn [spaces_then_rest] in H.
  assert (Hhere : rest_of_line (String c s) = Some r ->
                  exists ws,
                    String c s = (ws ++ r)%string /\
                    Js.all_chars Js.is_space ws = true /\ r <> "" /\
                    Js.all_chars (fun c => negb (Js.is_line_terminator c)) r
                    = true).
  { intros E. apply rest_of_line_some in E. destruct E as (-> & Hne & Hlt).
    exists "". auto. }
  destruct (Js.is_space c) eqn:Hc; [|auto].
  destruct (spaces_then_rest s) as [r'|] eqn:Hs; [|auto].
  injection H as <-. destruct (IH r' eq_refl) as (ws & -> & Hws & Hne & Hlt).
  exists (String c ws). simpl. rewrite Hc, Hws. auto.
Qed.

Lemma space_then_rest_some (s r : string) :
  space_then_rest s = Some r ->
  exists ws,
    s = (ws ++ r)%string /\ ws <> "" /\
    Js.all_chars Js.is_space ws = true /\ r <> "" /\
    Js.all_chars (fun c => negb (Js.is_line_terminator c)) r = true.
Proof.
  destruct s as [|c s]; [discriminate|]. cbn [space_then_rest].
  destruct (Js.is_space c) eqn:Hc; [|discriminate].
  intros H. apply spaces_then_rest_some in H.
  destruct H as (ws & -> & Hws & Hne & Hlt).
  exists (String c ws). simpl. rewrite Hc, Hws. repeat split; auto.
  discriminate.
Qed.

Lemma hashes_then_rest_some (more : nat) :
  forall (count : nat) (s : string) (n : nat) (r : string),
    hashes_then_rest more count s = Some (n, r) ->
    exists k ws,
      n = count + k /\ k <= more /\ 1 <= n /\
      s = (hashes k ++ ws ++ r)%string /\ ws <> "" /\
      Js.all_chars Js.is_space ws = true /\ r <> "" /\
      Js.all_chars (fun c => negb (Js.is_line_terminator c)) r = true.
Proof.
  induction more as [|more IH]; intros count s n r H.
  - cbn [hashes_then_rest] in H.
    destruct (1 <=? count) eqn:Hc; [|destruct s; discriminate].
    apply Nat.leb_le in Hc.
    assert (E : match space_then_rest s with
                | Some r0 => Some (count, r0)
                | None => None
                end = Some (n, r)) by (destruct s; exact H).
    destruct (space_then_rest s) as [r0|] eqn:Hs; [|discriminate].
    injection E as <- <-. apply space_then_rest_some in Hs.
    destruct Hs as (ws & -> & Hne & Hws & Hr & Hlt).
    exists 0, ws. repeat split; auto; lia.
  - cbn [hashes_then_rest] in H.
    assert (Hhere :
              (if 1 <=? count
               then match space_then_rest s with
                    | Some r0 => Some (count, r0)
                    | None => None
                    end
               else None) = Some (n, r) ->
              exists k ws,
                n = count + k /\ k <= S more /\ 1 <= n /\
                s = (hashes k ++ ws ++ r)%string /\ ws <> "" /\
                Js.all_chars Js.is_space ws = true /\ r <> "" /\
                Js.all_chars (fun c => negb (Js.is_line_terminator c)) r
                = true).
    { intros E. destruct (1 <=? count) eqn:Hc; [|discriminate].
      apply Nat.leb_le in Hc.
      destruct (space_then_rest s) as [r0|] eqn:Hs; [|discriminate].
      injection E as <- <-. apply space_then_rest_some in Hs.
      destruct Hs as (ws & -> & Hne & Hws & Hr & Hlt).
      exists 0, ws. repeat split; auto; lia. }
    destruct s as [|c s]; [auto|].
    destruct (Ascii.eqb c "#") eqn:Hc; [|auto].
    apply Ascii.eqb_eq in Hc. subst c.
    destruct (hashes_then_rest more (S count) s) as [[n' r']|] eqn:Hrec;
      [|auto].
    injection H as <- <-.
    destruct (IH _ _ _ _ Hrec) as (k & ws & -> & Hk & Hn & -> & Hrest).
    exists (S k), ws. repeat split; try lia; try tauto.
Qed.

(** What the body of the loop pushes for a header. *)
Lemma tokenize_line_header (lines : list string) (i : nat) (line : string)
    (token : Token) (i' : nat) :
  tokenize_line lines i line = Returns (token, i') ->
  type token = header ->
  header_of line token.
Proof.
  unfold tokenize_line.
  destruct (negb (Js.truthy (Js.trim line)));
    [intros H; injection H as <- _; discriminate|].
  destruct (match_header (Js.trim line)) as [[n txt]|] eqn:Hh.
  - intros H _. injection H as <- _.
    apply hashes_then_rest_some in Hh.
    destruct Hh as (k & ws & -> & Hk & Hn & E & Hne & Hws & Hr & Hlt).
    exists k, ws, txt. cbn [level text content value].
    repeat split; auto.
  - destruct (Js.startsWith fence (Js.trim line)).
    { destruct (fence_loop _ _ _ _) as [[j codeLines]| |]; cbn [bind];
        try discriminate.
      intros H; injection H as <- _; discriminate. }
    destruct (match_list (Js.trim line));
      [intros H; injection H as <- _; discriminate|].
    destruct (match_ordered (Js.trim line));
      [intros H; injection H as <- _; discriminate|].
    destruct (Js.startsWith ">" (Js.trim line));
      [intros H; injection H as <- _; discriminate|].
    destruct (test_hr (Js.trim line));
      [intros H; injection H as <- _; discriminate|].
    destruct (_ && _); intros H; injection H as <- _; discriminate.
Qed.

End LexerMore.

Module PipelineMore.

Import Lexer Spec Props.

Lemma tokenize_positions (text : string) :
  exists tokens,
    tokenize_string text = Returns tokens /\
    increasing_from 0 (map position tokens) /\
    Forall (fun t => position t < List.length (Js.split Js.newline text))
      tokens /\
    tokens <> [].
Proof.
  unfold tokenize_string. set (lines := Js.split Js.newline text).
  destruct (LexerMore.tokenize_loop_invariant
              (fun i tokens =>
                 increasing_from 0 (map position tokens) /\
                 Forall (fun t => position t < i /\
                                  position t < List.length lines) tokens /\
                 (0 < i -> tokens <> []))
              lines)
    with (fuel := S (List.length lines)) (i := 0) (tokens := @nil Token)
    as (result & final & E & Hfinal & Hinc & Hall & Hne).
  - intros i tokens line token i' Hline (Hinc & Hall & _) E.
    destruct (LexerFacts.tokenize_line_returns lines i line)
      as (token' & i'' & E' & _ & Hpos & Hle & _).
    rewrite E in E'. injection E' as <- <-.
    pose proof (nth_error_in_range _ _ _ Hline) as Hi.
    split; [|split].
    + rewrite map_app. cbn [map]. apply LexerMore.increasing_from_push.
      * exact Hinc.
      * apply Forall_map. eapply Forall_impl; [|exact Hall].
        cbn beta. intros t [Ht _]. lia.
      * lia.
    + apply Forall_app. split.
      * eapply Forall_impl; [|exact Hall]. cbn beta. intros t [Ht Ht']. lia.
      * constructor; [lia|constructor].
    + intros _ Hnil. now destruct tokens.
  - lia.
  - repeat split; auto. intros H. lia.
  - exists result. split; [exact E|]. split; [exact Hinc|]. split.
    + eapply Forall_impl; [|exact Hall]. cbn beta. tauto.
    + apply Hne. pose proof (LexerFacts.split_nonempty Js.newline text).
      fold lines in H. destruct lines; [contradiction|simpl in Hfinal; lia].
Qed.

Lemma tokenize_headers (text : string) :
  exists tokens,
    tokenize_string text = Returns tokens /\
    Forall (fun t =>
              type t = header ->
              exists line,
                nth_error (Js.split Js.newline text) (position t) = Some line /\
                header_of line t) tokens.
Proof.
  unfold tokenize_string. set (lines := Js.split Js.newline text).
  destruct (LexerMore.tokenize_loop_invariant
              (fun _ tokens =>
                 Forall (fun t =>
                           type t = header ->
                           exists line,
                             nth_error lines (position t) = Some line /\
                             header_of line t) tokens)
              lines)
    with (fuel := S (List.length lines)) (i := 0) (tokens := @nil Token)
    as (result & final & E & _ & H); [|lia|constructor|eauto].
  intros i tokens line token i' Hline Hall E.
  apply Forall_app. split; [exact Hall|]. constructor; [|constructor].
  intros Hty. exists line.
  destruct (LexerFacts.tokenize_line_returns lines i line)
    as (token' & i'' & E' & _ & Hpos & _).
  rewrite E in E'. injection E' as <- <-. rewrite Hpos.
  split; [exact Hline|].
  now apply (LexerMore.tokenize_line_header lines i line token i').
Qed.

End PipelineMore.

(** X1: the tokens of a text stand at strictly increasing line numbers, all
    of them lines of the text, so there are at most as many tokens as
    lines; and there is always at least one token, since even the empty
    text has one line. *)
Theorem token_positions_increase :
  forall text : string,
    exists tokens,
      Lexer.tokenize (Js.VString text) = Returns tokens /\
      Props.increasing_from 0 (map Lexer.position tokens) /\
      Forall (fun t =>
                Lexer.position t < List.length (Js.split Js.newline text))
        tokens /\
      1 <= List.length tokens /\
      List.length tokens <= List.length (Js.split Js.newline text).
Proof.
  intros text.
  destruct (PipelineMore.tokenize_positions text)
    as (tokens & E & Hinc & Hall & Hne).
  exists tokens. split; [exact E|]. split; [exact Hinc|].
  split; [exact Hall|]. split.
  - destruct tokens; [contradiction|simpl; lia].
  - rewrite <- (length_map Lexer.position).
    pose proof (LexerMore.increasing_from_length
                  (List.length (Js.split Js.newline text))
                  (map Lexer.position tokens) 0 Hinc) as H.
    rewrite Nat.sub_0_r in H. apply H. now apply Forall_map.
Qed.

(** X2: every header token of a text has a level between one and six, the
    number of number signs at the start of its trimmed line; its text is
    what follows the whitespace after them, is not empty, holds no line
    terminator and is also its content. *)
Theorem header_tokens_are_well_formed :
  forall text : string,
    exists tokens,
      Lexer.tokenize (Js.VString text) = Returns tokens /\
      Forall (fun t =>
                Lexer.type t = Lexer.header ->
                exists line,
                  nth_error (Js.split Js.newline text) (Lexer.position t)
                  = Some line /\
                  Props.header_of line t) tokens.
Proof. intros text. apply PipelineMore.tokenize_headers. Qed.

Module ParagraphMore.

Import Lexer Spec Props.

Lemma starts_with_seven (s : string) :
  Js.startsWith "#######" s = true -> exists r, s = ("#######" ++ r)%string.
Proof.
  unfold Js.startsWith. rewrite String.prefix_correct.
  destruct s as [|a [|b [|c [|d [|e [|f [|g r]]]]]]]; simpl;
    try discriminate.
  intros H. injection H as -> -> -> -> -> -> ->. now exists r.
Qed.

(** A trimmed line that starts with seven number signs matches no rule. *)
Lemma seven_hashes_match_nothing (r : string) :
  let s := ("#######" ++ r)%string in
  Js.truthy s = true /\ match_header s = None /\
  Js.startsWith fence s = false /\ match_list s = None /\
  match_ordered s = None /\ Js.startsWith ">" s = false /\
  test_hr s = false /\ Js.startsWith "|" s = false.
Proof.
  repeat split.
Qed.

Lemma tokenize_line_seven_hashes (lines : list string) (i : nat)
    (line : string) :
  Js.startsWith "#######" (Js.trim line) = true ->
  tokenize_line lines i line
  = Returns (mkToken paragraph line line i (String.length line)
               None None None None None, i).
Proof.
  intros H. destruct (starts_with_seven _ H) as [r E].
  destruct (seven_hashes_match_nothing r)
    as (H1 & H2 & H3 & H4 & H5 & H6 & H7 & H8).
  unfold tokenize_line. rewrite E, H1, H2, H3, H4, H5, H6, H7, H8.
  reflexivity.
Qed.

(** The tree of line breaks is empty. *)
Lemma parse_line_breaks (tokens : list Token) :
  Forall (fun t => type t = line_break) tokens ->
  Parser.parse tokens = Returns (Parser.document_node []).
Proof.
  intros Hall. unfold Parser.parse.
  destruct (ParserFacts.parse_loop_invariant
              (fun _ ch => ch = []) tokens)
    with (fuel := S (List.length tokens)) (current := 0)
         (children := @nil Ast.Node)
    as (result & final & -> & _ & ->); [|lia|reflexivity|reflexivity].
  intros current children t Ht ->.
  rewrite Forall_forall in Hall.
  specialize (Hall t (nth_error_In _ _ Ht)). cbn beta in Hall.
  unfold node_at. now rewrite Hall.
Qed.

Lemma blank_is_no_fence (line : string) : blank line -> not_a_fence line.
Proof. unfold blank, not_a_fence. now intros ->. Qed.

Lemma blank_is_line_break (line : string) :
  blank line -> classify line = line_break.
Proof. unfold blank, classify. now intros ->. Qed.

Lemma tokenize_blank_lines (text : string) :
  Forall blank (Js.split Js.newline text) ->
  exists tokens,
    tokenize_string text = Returns tokens /\
    Forall (fun t => type t = line_break) tokens /\
    List.length tokens = List.length (Js.split Js.newline text).
Proof.
  intros Hblank. unfold tokenize_string.
  set (lines := Js.split Js.newline text) in *.
  destruct (LexerFacts.tokenize_loop_line_by_line lines
              (S (List.length lines))) with (i := 0) (tokens := @nil Token)
    as (tokens & E & Hmap); [|lia|].
  - eapply Forall_impl; [|exact Hblank]. apply blank_is_no_fence.
  - exists tokens. split; [exact E|]. cbn [map app skipn] in Hmap.
    split.
    + apply Forall_forall. intros t Hin.
      apply (in_map type) in Hin. rewrite Hmap in Hin.
      apply in_map_iff in Hin. destruct Hin as (line & <- & Hline).
      rewrite Forall_forall in Hblank.
      apply blank_is_line_break. now apply Hblank.
    + rewrite <- (length_map type), Hmap. apply length_map.
Qed.

End ParagraphMore.

(** X3: a line whose trimmed form starts with seven number signs is not a
    header: it is a paragraph whose content is the whole line. *)
Theorem seven_hashes_are_a_paragraph :
  forall (lines : list string) (i : nat) (line : string),
    Js.startsWith "#######" (Js.trim line) = true ->
    Lexer.tokenize_line lines i line
    = Returns (Lexer.mkToken Lexer.paragraph line line i (String.length line)
                 None None None None None, i) /\
    Lexer.match_header (Js.trim line) = None.
Proof.
  intros lines i line H.
  split; [now apply ParagraphMore.tokenize_line_seven_hashes|].
  destruct (ParagraphMore.starts_with_seven _ H) as [r ->].
  apply ParagraphMore.seven_hashes_match_nothing.
Qed.

(** Seven number signs and a title, with blanks around. *)
Lemma seven_hashes_are_a_paragraph_witness :
  Js.startsWith "#######" (Js.trim " ####### Title ") = true /\
  Lexer.tokenize_line [" ####### Title "] 0 " ####### Title "
  = Returns (Lexer.mkToken Lexer.paragraph " ####### Title "
               " ####### Title " 0 15 None None None None None, 0).
Proof.
  assert (H : Js.startsWith "#######" (Js.trim " ####### Title ") = true)
    by reflexivity.
  destruct (seven_hashes_are_a_paragraph [" ####### Title "] 0
              " ####### Title " H) as [E _].
  split; [exact H|exact E].
Defined.

(** X4: a text whose lines are all blank gives one line-break token for each
    line and a document without children, and it converts to the same page
    as the empty text. *)
Theorem blank_text_is_an_empty_document :
  forall (hljs_highlight : option string -> string -> option string)
         (current : Renderer.Options) (options : Converter.CallOptions)
         (text : string),
    Forall Props.blank (Js.split Js.newline text) ->
    (exists tokens,
       Lexer.tokenize (Js.VString text) = Returns tokens /\
       Forall (fun t => Lexer.type t = Lexer.line_break) tokens /\
       List.length tokens = List.length (Js.split Js.newline text) /\
       Parser.parse tokens = Returns (Parser.document_node [])) /\
    Converter.convert hljs_highlight current (Js.VString text) options
    = Converter.convert hljs_highlight current (Js.VString "") options.
Proof.
  intros hl current options text Hblank.
  destruct (ParagraphMore.tokenize_blank_lines text Hblank)
    as (tokens & E & Hall & Hlen).
  pose proof (ParagraphMore.parse_line_breaks tokens Hall) as Hparse.
  split.
  - exists tokens. repeat split; auto.
  - unfold Converter.convert. cbn [Lexer.tokenize]. rewrite E. cbn [bind].
    rewrite Hparse. reflexivity.
Qed.

(** Three lines of blanks. *)
Lemma blank_text_is_an_empty_document_witness :
  Forall Props.blank
    (Js.split Js.newline ("   " ++ Js.nl ++ Js.nl ++ "   ")%string) /\
  Converter.convert (fun _ _ => None) Converter.defaults
    (Js.VString ("   " ++ Js.nl ++ Js.nl ++ "   ")%string)
    (Converter.mkCallOptions None None)
  = Converter.convert (fun _ _ => None) Converter.defaults (Js.VString "")
      (Converter.mkCallOptions None None).
Proof.
  assert (H : Forall Props.blank
                (Js.split Js.newline
                   ("   " ++ Js.nl ++ Js.nl ++ "   ")%string)).
  { repeat constructor. }
  destruct (blank_text_is_an_empty_document (fun _ _ => None)
              Converter.defaults (Converter.mkCallOptions None None)
              ("   " ++ Js.nl ++ Js.nl ++ "   ")%string H)
    as [_ E].
  split; [exact H|exact E].
Defined.

(** ** The tree builder *)

Module ParserMore.

Import Lexer Ast Parser Spec Props.

(** A step at a token of another type passes no run of type [ty]. *)
Lemma node_at_passes_runs (ty : TokenType) (tokens : list Token)
    (current : nat) (t : Token) :
  nth_error tokens current = Some t ->
  Lexer.type t <> ty ->
  runs ty (skipn (snd (node_at (skipn current tokens) t))
             (skipn current tokens))
  = runs ty (skipn current tokens).
Proof.
  intros Ht Hty. unfold node_at.
  destruct (Lexer.type t) eqn:E; cbn [snd];
    rewrite ?ParserFacts.runs_over_run by congruence; try reflexivity;
    rewrite (skipn_cons_nth_error _ _ _ Ht); cbn [skipn runs];
    destruct (type_eqb (Lexer.type t) ty) eqn:Eb; try reflexivity;
    apply ParserFacts.type_eqb_eq in Eb; congruence.
Qed.

(** A step at a token of type [ty] takes the run that starts there. *)
Lemma runs_at_run (ty : TokenType) (tokens : list Token) (current : nat)
    (t : Token) :
  nth_error tokens current = Some t ->
  Lexer.type t = ty ->
  runs ty (skipn current tokens)
  = run_of ty (skipn current tokens)
    :: runs ty (skipn (List.length (run_of ty (skipn current tokens)))
                  (skipn current tokens)).
Proof.
  intros Ht Hty.
  destruct (ParserFacts.run_of_skip ty (skipn current tokens))
    as (tail & E & -> & Htail).
  destruct (ParserFacts.run_of_split ty (skipn current tokens))
    as (_ & _ & Hrun & _).
  transitivity (runs ty (run_of ty (skipn current tokens) ++ tail));
    [f_equal; exact E|].
  apply ParserFacts.runs_run; auto.
  rewrite (skipn_cons_nth_error _ _ _ Ht). cbn [run_of].
  apply ParserFacts.type_eqb_eq in Hty. rewrite Hty. discriminate.
Qed.

(** The nodes of one kind in the tree are the nodes of the maximal runs of
    one type of token, when a step makes such a node of a run of that type
    and of nothing else. *)
Lemma parse_runs (ty : TokenType) (is_node : Node -> bool)
    (mk : list Token -> Node) (tokens : list Token) :
  (forall rest t,
     Lexer.type t = ty ->
     node_at rest t = (Some (mk (run_of ty rest)),
                       List.length (run_of ty rest)) /\
     is_node (mk (run_of ty rest)) = true) ->
  (forall rest t n,
     Lexer.type t <> ty -> fst (node_at rest t) = Some n ->
     is_node n = false) ->
  exists children,
    parse tokens = Returns (document_node children) /\
    filter is_node children = map mk (runs ty tokens).
Proof.
  intros Hrun Hother. unfold parse.
  destruct (ParserFacts.parse_loop_invariant
              (fun current ch =>
                 filter is_node ch ++ map mk (runs ty (skipn current tokens))
                 = map mk (runs ty tokens))
              tokens)
    with (fuel := S (List.length tokens)) (current := 0)
         (children := @nil Node)
    as (result & final & -> & Hfinal & H); [|lia|reflexivity|].
  - intros current children t Ht Hinv. rewrite <- Hinv.
    rewrite Nat.add_comm, <- skipn_skipn.
    destruct (type_eqb (Lexer.type t) ty) eqn:Hty.
    + apply ParserFacts.type_eqb_eq in Hty.
      destruct (Hrun (skipn current tokens) t Hty) as [-> Hnode].
      cbn [fst snd push]. rewrite filter_app. cbn [filter].
      rewrite Hnode, <- app_assoc. f_equal.
      rewrite (runs_at_run ty tokens current t Ht Hty). reflexivity.
    + assert (Hne : Lexer.type t <> ty).
      { intros E. apply ParserFacts.type_eqb_eq in E. congruence. }
      rewrite (node_at_passes_runs ty tokens current t Ht Hne).
      f_equal.
      destruct (fst (node_at (skipn current tokens) t)) as [n|] eqn:Hn;
        cbn [push]; [|reflexivity].
      rewrite filter_app. cbn [filter].
      rewrite (Hother _ _ _ Hne Hn). apply app_nil_r.
  - cbn [bind]. eexists. split; [reflexivity|].
    rewrite skipn_all2 in H by assumption. cbn [runs map] in H.
    now rewrite app_nil_r in H.
Qed.

Lemma filter_prefix_grows (tokens : list Token) (current k : nat)
    (t : Token) :
  nth_error tokens current = Some t -> 1 <= k ->
  List.length (filter is_content_token (firstn current tokens))
  + (if is_content_token t then 1 else 0)
  <= List.length (filter is_content_token (firstn (current + k) tokens)).
Proof.
  intros Ht Hk. rewrite ParserFacts.firstn_plus, filter_app, length_app.
  apply Nat.add_le_mono_l.
  rewrite (skipn_cons_nth_error _ _ _ Ht).
  destruct k as [|k]; [lia|]. cbn [firstn filter].
  destruct (is_content_token t); simpl; lia.
Qed.

(** Every token sequence has a tree, with at most one child for each token
    that is not a line break. *)
Lemma parse_children_bound (tokens : list Token) :
  exists children,
    parse tokens = Returns (document_node children) /\
    List.length children <= List.length (filter is_content_token tokens).
Proof.
  unfold parse.
  destruct (ParserFacts.parse_loop_invariant
              (fun current ch =>
                 List.length ch
                 <= List.length
                      (filter is_content_token (firstn current tokens)))
              tokens)
    with (fuel := S (List.length tokens)) (current := 0)
         (children := @nil Node)
    as (result & final & -> & Hfinal & H); [|lia|simpl; lia|].
  - intros current children t Ht Hinv.
    pose proof (ParserFacts.node_at_takes tokens current t Ht) as Hk.
    pose proof (filter_prefix_grows tokens current _ t Ht Hk) as Hgrow.
    assert (Hpush : List.length
                      (push children (fst (node_at (skipn current tokens) t)))
                    <= List.length children
                       + (if is_content_token t then 1 else 0)).
    { unfold node_at, is_content_token.
      destruct (Lexer.type t); cbn [fst push type_eqb negb];
        rewrite ?length_app; simpl; lia. }
    lia.
  - cbn [bind]. eexists. split; [reflexivity|].
    now rewrite firstn_all2 in H.
Qed.

End ParserMore.

(** X5: the ordered list nodes of the tree of a token sequence are the
    lists of its maximal runs of consecutive ordered-list-item tokens, one
    list for each run and in order, with one item for each token of the
    run. *)
Theorem ordered_items_are_grouped :
  forall tokens : list Lexer.Token,
    exists children,
      Parser.parse tokens = Returns (Parser.document_node children) /\
      filter Props.is_ordered_list children
      = map (fun run =>
               Parser.list_node NodeType.ordered_list
                 (map Spec.item_node run))
            (Spec.runs Lexer.ordered_list_item tokens).
Proof.
  intros tokens.
  apply (ParserMore.parse_runs Lexer.ordered_list_item
           Props.is_ordered_list Props.ordered_list_of_run).
  - intros rest t Hty. unfold Spec.node_at. rewrite Hty. split; reflexivity.
  - intros rest t n Hty. unfold Spec.node_at.
    destruct (Lexer.type t); cbn [fst]; intros E; inversion E; subst;
      try reflexivity.
    contradiction.
Qed.

(** X6: the table nodes of the tree of a token sequence are the tables of
    its maximal runs of consecutive table-row tokens, one table for each run
    and in order; the rows of a table are the cells of the tokens of its
    run, in order. *)
Theorem table_rows_are_grouped :
  forall tokens : list Lexer.Token,
    exists children,
      Parser.parse tokens = Returns (Parser.document_node children) /\
      filter Props.is_table children
      = map Props.table_of_run (Spec.runs Lexer.table_row tokens) /\
      Forall (fun table =>
                exists run,
                  In run (Spec.runs Lexer.table_row tokens) /\
                  Ast.rows table
                  = Some (map (fun r =>
                                 Parser.row_node (Lexer.cells r)) run))
             (filter Props.is_table children).
Proof.
  intros tokens.
  destruct (ParserMore.parse_runs Lexer.table_row Props.is_table
              Props.table_of_run tokens) as (children & E & H).
  - intros rest t Hty. unfold Spec.node_at. rewrite Hty. split; reflexivity.
  - intros rest t n Hty. unfold Spec.node_at.
    destruct (Lexer.type t); cbn [fst]; intros E; inversion E; subst;
      try reflexivity.
    contradiction.
  - exists children. split; [exact E|]. split; [exact H|].
    rewrite H. apply Forall_forall. intros table Hin.
    apply in_map_iff in Hin. destruct Hin as (run & <- & Hrun).
    exists run. split; [exact Hrun|reflexivity].
Qed.

(** X7: every sequence of token objects, each with one of the token types
    of the lexer and in any order, also an order that the lexer would not
    produce, has a tree: on it [parse] returns, it does not throw, and the
    document has at most one child for each token that is not a line
    break. *)
Theorem parse_returns_on_token_objects :
  forall tokens : list Lexer.Token,
    exists children,
      Parser.parse tokens = Returns (Parser.document_node children) /\
      List.length children
      <= List.length (filter Props.is_content_token tokens) /\
      List.length children <= List.length tokens.
Proof.
  intros tokens.
  destruct (ParserMore.parse_children_bound tokens) as (children & E & H).
  exists children. split; [exact E|]. split; [exact H|].
  pose proof (filter_length_le Props.is_content_token tokens). lia.
Qed.

(** ** Strings seen from a cursor *)

Module StringMore.

Import Props.

Lemma length_append (a b : string) :
  String.length (a ++ b) = String.length a + String.length b.
Proof. induction a; simpl; auto. Qed.

Lemma get_after (pre s : string) (n : nat) :
  String.get (String.length pre + n) (pre ++ s) = String.get n s.
Proof. induction pre; simpl; auto. Qed.

Lemma substring_after (pre s : string) (a n : nat) :
  String.substring (String.length pre + a) n (pre ++ s)
  = String.substring a n s.
Proof. induction pre; simpl; auto. Qed.

Lemma index_after (pre s p : string) (n : nat) :
  String.index (String.length pre + n) p (pre ++ s)
  = option_map (Nat.add (String.length pre)) (String.index n p s).
Proof.
  induction pre as [|c pre IH]; simpl.
  - destruct (String.index n p s); reflexivity.
  - rewrite IH. destruct (String.index n p s); reflexivity.
Qed.

Lemma js_substring_after (pre s : string) (a b : nat) :
  Js.substring (String.length pre + a) (String.length pre + b) (pre ++ s)
  = Js.substring a b s.
Proof.
  unfold Js.substring.
  rewrite Nat.add_min_distr_l, Nat.add_max_distr_l, substring_after.
  f_equal. lia.
Qed.

Lemma charIs_after (pre s : string) (n : nat) (c : ascii) :
  Js.charIs (String.length pre + n) c (pre ++ s) = Js.charIs n c s.
Proof. unfold Js.charIs, Js.charAt. now rewrite get_after. Qed.

Lemma substring_prefix (c tail : string) :
  String.substring 0 (String.length c) (c ++ tail) = c.
Proof.
  induction c as [|a c IH]; simpl.
  - destruct tail; reflexivity.
  - now rewrite IH.
Qed.

Lemma js_substring_prefix (c tail : string) :
  Js.substring 0 (String.length c) (c ++ tail) = c.
Proof.
  unfold Js.substring. rewrite Nat.min_l, Nat.max_r, Nat.sub_0_r by lia.
  apply substring_prefix.
Qed.

Lemma prefix_app (p tail : string) : String.prefix p (p ++ tail) = true.
Proof. apply String.prefix_correct, substring_prefix. Qed.

Lemma prefix_head_mismatch (a b : ascii) (p s : string) :
  a <> b -> String.prefix (String a p) (String b s) = false.
Proof.
  intros Hne. destruct (String.prefix (String a p) (String b s)) eqn:E;
    [|reflexivity].
  apply String.prefix_correct in E. simpl in E. injection E as E _.
  congruence.
Qed.

Lemma index_at_0 (p : string) (b : ascii) (s : string) :
  String.index 0 p (String b s)
  = if String.prefix p (String b s) then Some 0
    else option_map S (String.index 0 p s).
Proof.
  simpl. destruct (String.prefix p (String b s)); [reflexivity|].
  destruct (String.index 0 p s); reflexivity.
Qed.


(** The first occurrence of a string that starts with [a], after a text
    without [a], is right after that text. *)
Lemma index_first (a : ascii) (p c tail : string) :
  free_of a c = true ->
  String.index 0 (String a p) (c ++ String a p ++ tail)
  = Some (String.length c).
Proof.
  induction c as [|b c IH]; intros H.
  - cbn [append String.length]. rewrite index_at_0.
    change (String a (p ++ tail)) with (String a p ++ tail)%string.
    now rewrite prefix_app.
  - unfold free_of in H. cbn [Js.all_chars] in H.
    apply andb_true_iff in H. destruct H as [Hb Hc].
    apply negb_true_iff, Ascii.eqb_neq in Hb.
    change ((String b c ++ String a p ++ tail)%string)
      with (String b (c ++ String a p ++ tail)).
    rewrite index_at_0, prefix_head_mismatch by congruence.
    now rewrite (IH Hc).
Qed.

Lemma two_chars_not_first (i : nat) (a b c : ascii) (s : string) :
  String.get i s = Some c -> c <> a ->
  String.eqb (Js.substring i (i + 2) s) (String a (String b "")) = false.
Proof.
  intros Hc Hne.
  destruct (String.eqb (Js.substring i (i + 2) s) (String a (String b "")))
    eqn:E; [|reflexivity].
  apply two_chars_at in E. destruct E as [E _]. congruence.
Qed.

Lemma two_chars_not_second (i : nat) (a b : ascii) (s : string) :
  String.get (S i) s <> Some b ->
  String.eqb (Js.substring i (i + 2) s) (String a (String b "")) = false.
Proof.
  intros Hne.
  destruct (String.eqb (Js.substring i (i + 2) s) (String a (String b "")))
    eqn:E; [|reflexivity].
  apply two_chars_at in E. destruct E as [_ E]. congruence.
Qed.

Lemma endsWith_cons (a c d : ascii) (s : string) :
  Js.endsWith (String a "") (String c (String d s))
  = Js.endsWith (String a "") (String d s).
Proof.
  unfold Js.endsWith. cbn [String.length Nat.leb].
  rewrite !Nat.sub_succ, !Nat.sub_0_r. reflexivity.
Qed.

Lemma startsWith_char (a b : ascii) (s : string) :
  a <> b -> Js.startsWith (String a "") (String b s) = false.
Proof. intros H. now apply prefix_head_mismatch. Qed.

Lemma free_of_head (a b : ascii) (c : string) :
  free_of a (String b c) = true -> b <> a /\ free_of a c = true.
Proof.
  unfold free_of. cbn [Js.all_chars]. intros H.
  apply andb_true_iff in H. destruct H as [Hb Hc].
  apply negb_true_iff, Ascii.eqb_neq in Hb. auto.
Qed.

Lemma startsWith_get (a : ascii) (s : string) :
  Js.startsWith (String a "") s = false -> String.get 0 s <> Some a.
Proof.
  intros H E. destruct s as [|b s]; [discriminate|].
  cbn [String.get] in E. injection E as ->.
  unfold Js.startsWith in H.
  change (String a s) with (String a "" ++ s)%string in H.
  rewrite prefix_app in H. discriminate.
Qed.

Lemma append_nil_r (s : string) : (s ++ "")%string = s.
Proof. induction s as [|a s IH]; simpl; congruence. Qed.

(** *** Facts at a position of a text that is given in pieces *)

Lemma get_at (text pre : string) (a : ascii) (tail : string) (n : nat) :
  text = (pre ++ String a tail)%string -> n = String.length pre ->
  String.get n text = Some a.
Proof.
  intros -> ->. pose proof (get_after pre (String a tail) 0) as H.
  rewrite Nat.add_0_r in H. rewrite H. reflexivity.
Qed.

Lemma get_at_end (text : string) (n : nat) :
  n = String.length text -> String.get n text = None.
Proof.
  intros ->. induction text as [|a text IH]; simpl; auto.
Qed.

Lemma charIs_at (text pre : string) (a : ascii) (tail : string) (n : nat) :
  text = (pre ++ String a tail)%string -> n = String.length pre ->
  Js.charIs n a text = true.
Proof. intros H1 H2. apply charIs_get. eapply get_at; eauto. Qed.

Lemma indexOf_at (text pre c : string) (a : ascii) (p tail : string)
    (n r : nat) :
  text = (pre ++ c ++ String a p ++ tail)%string ->
  n = String.length pre -> free_of a c = true ->
  r = String.length pre + String.length c ->
  Js.indexOf (String a p) n text = Some r.
Proof.
  intros -> -> Hc ->. unfold Js.indexOf.
  pose proof (index_after pre (c ++ String a p ++ tail) (String a p) 0) as H.
  rewrite Nat.add_0_r in H. rewrite H, index_first by assumption.
  reflexivity.
Qed.

Lemma substring_at (text pre c tail : string) (x y : nat) :
  text = (pre ++ c ++ tail)%string ->
  x = String.length pre -> y = String.length pre + String.length c ->
  Js.substring x y text = c.
Proof.
  intros -> -> ->.
  pose proof (js_substring_after pre (c ++ tail) 0 (String.length c)) as H.
  rewrite Nat.add_0_r in H. rewrite H. apply js_substring_prefix.
Qed.



End StringMore.

(** ** The inline scan, from the cursor on *)

Module InlineMore.

Import Ast Parser Spec Props StringMore.

Lemma flush_moved (before : list Node) (cur : string) (ch : list Node) :
  flush cur (before ++ ch)
  = (fst (flush cur ch), before ++ snd (flush cur ch)).
Proof.
  unfold flush. destruct (Js.truthy cur); cbn [fst snd];
    [rewrite app_assoc|]; reflexivity.
Qed.

Lemma flush_fst (cur : string) (ch : list Node) : fst (flush cur ch) = "".
Proof.
  unfold flush, Js.truthy. destruct (String.eqb cur "") eqn:E;
    cbn [negb fst]; [|reflexivity].
  now apply String.eqb_eq in E.
Qed.

Lemma flush_snd (cur : string) (ch : list Node) :
  snd (flush cur ch) = ch ++ text_nodes cur.
Proof.
  unfold flush, text_nodes. destruct (Js.truthy cur); cbn [snd];
    [reflexivity|now rewrite app_nil_r].
Qed.

Lemma flush_pair (cur : string) (ch : list Node) :
  flush cur ch = ("", ch ++ text_nodes cur).
Proof.
  rewrite (surjective_pairing (flush cur ch)), flush_fst, flush_snd.
  reflexivity.
Qed.

Ltac moved_eq :=
  unfold moved; cbn [i currentText children];
  rewrite <- ?app_assoc, ?Nat.add_assoc; reflexivity.

Section Moved.

Variables (pre rest : string) (before : list Node).

#[local] Abbreviation k := (String.length pre).

Lemma check_bold_moved (st : Scan) :
  check_bold (pre ++ rest) (moved k before st)
  = moved_check k before (check_bold rest st).
Proof.
  unfold check_bold. cbn [moved i currentText children].
  rewrite js_substring_span, substring_after, <- js_substring_span.
  destruct (String.eqb (Js.substring (i st) (i st + 2) rest) "**");
    [|reflexivity].
  rewrite !flush_pair, <- Nat.add_assoc. unfold Js.indexOf.
  rewrite index_after.
  destruct (String.index (i st + 2) "**" rest) as [e|];
    cbn [option_map moved_check moved i currentText children];
    [|moved_eq].
  rewrite js_substring_after. moved_eq.
Qed.

Lemma check_italic_moved (st : Scan) :
  check_italic (pre ++ rest) (moved k before st)
  = moved_check k before (check_italic rest st).
Proof.
  unfold check_italic. cbn [moved i currentText children].
  rewrite <- Nat.add_assoc, !charIs_after.
  destruct (Js.charIs (i st) "*" rest && negb (Js.charIs (i st + 1) "*" rest));
    [|reflexivity].
  rewrite !flush_pair. unfold Js.indexOf. rewrite index_after.
  destruct (String.index (i st + 1) "*" rest) as [e|];
    cbn [option_map moved_check moved i currentText children];
    [|moved_eq].
  rewrite <- Nat.add_assoc, charIs_after.
  destruct (Js.charIs (e + 1) "*" rest);
    cbn [negb moved_check moved i currentText children];
    [moved_eq|].
  rewrite js_substring_after. moved_eq.
Qed.

Lemma check_code_moved (st : Scan) :
  check_code (pre ++ rest) (moved k before st)
  = moved_check k before (check_code rest st).
Proof.
  unfold check_code. cbn [moved i currentText children].
  rewrite charIs_after.
  destruct (Js.charIs (i st) "`" rest); [|reflexivity].
  rewrite !flush_pair, <- Nat.add_assoc. unfold Js.indexOf.
  rewrite index_after.
  destruct (String.index (i st + 1) "`" rest) as [e|];
    cbn [option_map moved_check moved i currentText children];
    [|moved_eq].
  rewrite js_substring_after. moved_eq.
Qed.

Lemma check_link_moved (st : Scan) :
  check_link (pre ++ rest) (moved k before st)
  = moved_check k before (check_link rest st).
Proof.
  unfold check_link. cbn [moved i currentText children].
  rewrite charIs_after.
  destruct (Js.charIs (i st) "[" rest); [|reflexivity].
  rewrite !flush_pair. unfold Js.indexOf. rewrite index_after.
  destruct (String.index (i st) "]" rest) as [linkEnd|];
    cbn [option_map moved_check moved i currentText children];
    [|moved_eq].
  rewrite <- !Nat.add_assoc, charIs_after.
  destruct (Js.charIs (linkEnd + 1) "(" rest);
    cbn [moved_check moved i currentText children];
    [|moved_eq].
  rewrite index_after.
  destruct (String.index (linkEnd + 2) ")" rest) as [urlEnd|];
    cbn [option_map moved_check moved i currentText children];
    [|moved_eq].
  rewrite !js_substring_after. moved_eq.
Qed.

Lemma check_image_moved (st : Scan) :
  check_image (pre ++ rest) (moved k before st)
  = moved_check k before (check_image rest st).
Proof.
  unfold check_image. cbn [moved i currentText children].
  rewrite js_substring_span, substring_after, <- js_substring_span.
  destruct (String.eqb (Js.substring (i st) (i st + 2) rest) "![");
    [|reflexivity].
  rewrite !flush_pair, <- Nat.add_assoc. unfold Js.indexOf.
  rewrite index_after.
  destruct (String.index (i st + 2) "]" rest) as [altEnd|];
    cbn [option_map moved_check moved i currentText children];
    [|moved_eq].
  rewrite <- !Nat.add_assoc, charIs_after.
  destruct (Js.charIs (altEnd + 1) "(" rest);
    cbn [moved_check moved i currentText children];
    [|moved_eq].
  rewrite index_after.
  destruct (String.index (altEnd + 2) ")" rest) as [srcEnd|];
    cbn [option_map moved_check moved i currentText children];
    [|moved_eq].
  rewrite !js_substring_after. moved_eq.
Qed.

Lemma regular_character_moved (st : Scan) :
  regular_character (pre ++ rest) (moved k before st)
  = moved k before (regular_character rest st).
Proof.
  unfold regular_character, Js.charAt.
  cbn [moved i currentText children].
  rewrite get_after. moved_eq.
Qed.

Lemma and_then_moved (c : Check) (st : Scan) (f g : Scan -> Scan) :
  (forall st', f (moved k before st') = moved k before (g st')) ->
  and_then (moved_check k before c) (moved k before st) f
  = moved k before (and_then c st g).
Proof.
  intros H. destruct c as [st'|cur ch]; cbn [and_then moved_check];
    [reflexivity|].
  rewrite <- H. reflexivity.
Qed.

(** One iteration looks at nothing before the cursor and at none of the
    nodes already pushed. *)
Lemma inline_step_moved (st : Scan) :
  inline_step (pre ++ rest) (moved k before st)
  = moved k before (inline_step rest st).
Proof.
  unfold inline_step.
  rewrite check_bold_moved. apply and_then_moved. intros st1.
  rewrite check_italic_moved. apply and_then_moved. intros st2.
  rewrite check_code_moved. apply and_then_moved. intros st3.
  rewrite check_link_moved. apply and_then_moved. intros st4.
  rewrite check_image_moved. apply and_then_moved. intros st5.
  apply regular_character_moved.
Qed.

Lemma inline_loop_moved (fuel : nat) :
  forall st,
    inline_loop fuel (pre ++ rest) (moved k before st)
    = (st' <- inline_loop fuel rest st ;; Returns (moved k before st')).
Proof.
  induction fuel as [|fuel IH]; intros st; [reflexivity|].
  cbn [inline_loop].
  replace (i (moved k before st) <? String.length (pre ++ rest))
    with (i st <? String.length rest).
  - destruct (i st <? String.length rest); [|reflexivity].
    rewrite inline_step_moved. apply IH.
  - cbn [moved i]. rewrite length_append.
    destruct (i st <? String.length rest) eqn:E; symmetry.
    + apply Nat.ltb_lt in E. apply Nat.ltb_lt. lia.
    + apply Nat.ltb_ge in E. apply Nat.ltb_ge. lia.
Qed.

Lemma scan_from_moved (st : Scan) :
  scan_from (pre ++ rest) (moved k before st)
  = (st' <- scan_from rest st ;; Returns (moved k before st')).
Proof.
  unfold scan_from. rewrite <- inline_loop_moved. f_equal.
  cbn [moved i]. rewrite length_append. f_equal. lia.
Qed.

End Moved.

Lemma moved_nothing (st : Scan) : moved 0 [] st = st.
Proof. destruct st; reflexivity. Qed.

(** Every iteration moves the cursor forward. *)
Lemma inline_step_progress (text : string) (st : Scan) :
  i st < i (inline_step text st).
Proof.
  pose proof (inline_step_moved "" text (children st)
                (mkScan (i st) (currentText st) [])) as H.
  unfold moved at 1 in H. cbn [append String.length Nat.add] in H.
  cbn [i currentText children] in H.
  rewrite app_nil_r, InlineFacts.scan_eta in H. rewrite H.
  destruct (InlineFacts.inline_step_keeps text
              (mkScan (i st) (currentText st) [])) as [_ Hlt];
    [constructor|].
  exact Hlt.
Qed.

(** More fuel than the characters left changes nothing. *)
Lemma inline_loop_fuel (text : string) :
  forall f1 f2 st,
    String.length text - i st < f1 -> String.length text - i st < f2 ->
    inline_loop f1 text st = inline_loop f2 text st.
Proof.
  induction f1 as [|f1 IH]; intros f2 st H1 H2; [lia|].
  destruct f2 as [|f2]; [lia|]. cbn [inline_loop].
  destruct (i st <? String.length text) eqn:E; [|reflexivity].
  apply Nat.ltb_lt in E. pose proof (inline_step_progress text st).
  apply IH; lia.
Qed.

Lemma scan_from_step (text : string) (st : Scan) :
  i st < String.length text ->
  scan_from text st = scan_from text (inline_step text st).
Proof.
  intros H. unfold scan_from.
  pose proof (inline_step_progress text st) as Hp.
  transitivity (inline_loop (String.length text - i st) text
                  (inline_step text st)).
  - cbn [inline_loop]. apply Nat.ltb_lt in H. now rewrite H.
  - apply inline_loop_fuel; lia.
Qed.

Lemma scan_from_end (text : string) (st : Scan) :
  String.length text <= i st -> scan_from text st = Returns st.
Proof.
  intros H. unfold scan_from. cbn [inline_loop].
  apply Nat.ltb_ge in H. now rewrite H.
Qed.

Lemma scan_from_returns (text : string) :
  exists st, scan_from text (mkScan 0 "" []) = Returns st.
Proof.
  destruct (InlineFacts.inline_loop_returns text
              (S (String.length text - 0)) (mkScan 0 "" []))
    as (st & E & _); [cbn [i]; lia|constructor|].
  exists st. exact E.
Qed.

Lemma parseInlineContent_scan (text : string) :
  parseInlineContent (Some text)
  = if Js.truthy text
    then st <- scan_from text (mkScan 0 "" []) ;;
         Returns (children st ++ text_nodes (currentText st))
    else Returns [].
Proof.
  unfold parseInlineContent, scan_from. cbn [i]. rewrite Nat.sub_0_r.
  destruct (Js.truthy text); cbn [negb]; [|reflexivity].
  destruct (inline_loop (S (String.length text)) text (mkScan 0 "" []));
    cbn [bind]; try reflexivity.
  now rewrite flush_snd.
Qed.

Lemma inline_scan (rest : string) (st : Scan) :
  scan_from rest (mkScan 0 "" []) = Returns st ->
  inline (Some rest) = children st ++ text_nodes (currentText st).
Proof.
  intros E. unfold inline. rewrite parseInlineContent_scan.
  destruct rest as [|a rest].
  - rewrite scan_from_end in E by (cbn; lia). injection E as <-.
    reflexivity.
  - cbn [Js.truthy String.eqb negb]. rewrite E. reflexivity.
Qed.

(** *** A character that opens nothing *)

Lemma bold_skips (text : string) (n : nat) (cur : string) (ch : list Node)
    (c : ascii) :
  String.get n text = Some c -> c <> "*"%char ->
  check_bold text (mkScan n cur ch) = Next cur ch.
Proof.
  intros H Hne. unfold check_bold. cbn [i currentText children].
  now rewrite (two_chars_not_first n "*" "*" c).
Qed.

Lemma italic_skips (text : string) (n : nat) (cur : string)
    (ch : list Node) (c : ascii) :
  String.get n text = Some c -> c <> "*"%char ->
  check_italic text (mkScan n cur ch) = Next cur ch.
Proof.
  intros H Hne. unfold check_italic. cbn [i currentText children].
  now rewrite (charIs_other n c "*").
Qed.

Lemma code_skips (text : string) (n : nat) (cur : string) (ch : list Node)
    (c : ascii) :
  String.get n text = Some c -> c <> "`"%char ->
  check_code text (mkScan n cur ch) = Next cur ch.
Proof.
  intros H Hne. unfold check_code. cbn [i currentText children].
  now rewrite (charIs_other n c "`").
Qed.

Lemma link_skips (text : string) (n : nat) (cur : string) (ch : list Node)
    (c : ascii) :
  String.get n text = Some c -> c <> "["%char ->
  check_link text (mkScan n cur ch) = Next cur ch.
Proof.
  intros H Hne. unfold check_link. cbn [i currentText children].
  now rewrite (charIs_other n c "[").
Qed.

Lemma image_skips (text : string) (n : nat) (cur : string) (ch : list Node)
    (c : ascii) :
  String.get n text = Some c ->
  (c = "!"%char -> String.get (S n) text <> Some "["%char) ->
  check_image text (mkScan n cur ch) = Next cur ch.
Proof.
  intros H Hne. unfold check_image. cbn [i currentText children].
  destruct (Ascii.eqb c "!") eqn:E.
  - apply Ascii.eqb_eq in E.
    now rewrite (two_chars_not_second n "!" "[") by auto.
  - apply Ascii.eqb_neq in E.
    now rewrite (two_chars_not_first n "!" "[" c).
Qed.

Lemma regular_at (text : string) (n : nat) (cur : string) (ch : list Node)
    (c : ascii) :
  String.get n text = Some c ->
  regular_character text (mkScan n cur ch)
  = mkScan (n + 1) (cur ++ String c "") ch.
Proof.
  intros H. unfold regular_character, Js.charAt.
  cbn [i currentText children]. now rewrite H.
Qed.

Lemma is_plain_chars (c : ascii) :
  is_plain c = true -> c <> "*"%char /\ c <> "`"%char /\ c <> "["%char.
Proof.
  unfold is_plain. intros H. apply negb_true_iff in H.
  apply orb_false_iff in H. destruct H as [H H3].
  apply orb_false_iff in H. destruct H as [H1 H2].
  apply Ascii.eqb_neq in H1, H2, H3. auto.
Qed.

(** At a character that opens nothing the iteration appends it to the
    buffer. *)
Lemma step_plain (text : string) (n : nat) (cur : string) (ch : list Node)
    (c : ascii) :
  String.get n text = Some c -> is_plain c = true ->
  (c = "!"%char -> String.get (S n) text <> Some "["%char) ->
  inline_step text (mkScan n cur ch)
  = mkScan (n + 1) (cur ++ String c "") ch.
Proof.
  intros H Hp Himg. apply is_plain_chars in Hp.
  destruct Hp as (H1 & H2 & H3). unfold inline_step.
  rewrite (bold_skips text n cur ch c H H1).
  cbn [and_then i currentText children].
  rewrite (italic_skips text n cur ch c H H1).
  cbn [and_then i currentText children].
  rewrite (code_skips text n cur ch c H H2).
  cbn [and_then i currentText children].
  rewrite (link_skips text n cur ch c H H3).
  cbn [and_then i currentText children].
  rewrite (image_skips text n cur ch c H Himg).
  cbn [and_then i currentText children].
  apply regular_at, H.
Qed.

Lemma plain_head (c : ascii) (p : string) :
  plain (String c p) = true -> is_plain c = true /\ plain p = true.
Proof. unfold plain. cbn [Js.all_chars]. apply andb_true_iff. Qed.

(** A stretch of characters that open nothing goes to the buffer. *)
Lemma plain_prefix (p : string) :
  forall tail cur ch,
    plain p = true -> opens_image p tail = false ->
    scan_from (p ++ tail) (mkScan 0 cur ch)
    = (st <- scan_from tail (mkScan 0 (cur ++ p) ch) ;;
       Returns (moved (String.length p) [] st)).
Proof.
  induction p as [|c p IH]; intros tail cur ch Hp Himg.
  - cbn [append String.length]. rewrite append_nil_r.
    destruct (scan_from tail (mkScan 0 cur ch)); cbn [bind];
      try reflexivity.
    now rewrite moved_nothing.
  - apply plain_head in Hp. destruct Hp as [Hc Hp].
    cbn [append]. rewrite scan_from_step by (cbn; lia).
    rewrite (step_plain _ 0 cur ch c); [|reflexivity|exact Hc|].
    + change (String c (p ++ tail)) with (String c "" ++ (p ++ tail))%string.
      change (mkScan (0 + 1) (cur ++ String c "") ch)
        with (moved (String.length (String c "")) []
                (mkScan 0 (cur ++ String c "") ch)).
      rewrite scan_from_moved, IH; [|exact Hp|].
      * rewrite RendererFacts.append_assoc. cbn [append].
        destruct (scan_from tail (mkScan 0 (cur ++ String c p) ch));
          cbn [bind]; reflexivity.
      * destruct p as [|d p]; [reflexivity|].
        unfold opens_image in *. now rewrite endsWith_cons in Himg.
    + intros ->. cbn [String.get]. destruct p as [|d p].
      * cbn [append]. apply startsWith_get.
        unfold opens_image in Himg.
        destruct (Js.startsWith "[" tail); [|reflexivity].
        rewrite andb_true_r in Himg. exact Himg.
      * cbn [append String.get]. apply plain_head in Hp.
        destruct Hp as [Hd _]. apply is_plain_chars in Hd.
        intros E. injection E as ->. tauto.
Qed.

(** The nodes of a text that starts with a stretch [p] of characters that
    open nothing, when the iteration at the character after [p] pushes the
    node [n] and goes on at [rest]. *)
Lemma compose (p body m rest : string) (n : Node) :
  plain p = true -> opens_image p body = false ->
  body = (m ++ rest)%string -> m <> "" ->
  (forall cur ch,
     inline_step body (mkScan 0 cur ch)
     = mkScan (String.length m) "" (ch ++ text_nodes cur ++ [n])) ->
  parseInlineContent (Some (p ++ body)%string)
  = Returns (text_nodes p ++ n :: inline (Some rest)).
Proof.
  intros Hp Himg Hbody Hm Hstep.
  assert (Hlen : 0 < String.length body).
  { rewrite Hbody, length_append. destruct m; [congruence|]. cbn. lia. }
  rewrite parseInlineContent_scan.
  assert (Ht : Js.truthy (p ++ body) = true).
  { unfold Js.truthy. apply negb_true_iff, String.eqb_neq.
    intros E. apply (f_equal String.length) in E.
    rewrite length_append in E. cbn in E. lia. }
  rewrite Ht, plain_prefix by assumption. cbn [append].
  rewrite scan_from_step by exact Hlen. rewrite Hstep.
  replace (mkScan (String.length m) "" ([] ++ text_nodes p ++ [n]))
    with (moved (String.length m) (text_nodes p ++ [n]) (mkScan 0 "" []))
    by (unfold moved; cbn [i currentText children app];
        now rewrite Nat.add_0_r, app_nil_r).
  rewrite Hbody, scan_from_moved.
  destruct (scan_from_returns rest) as [st E].
  rewrite E, (inline_scan rest st E). cbn [bind].
  unfold moved. cbn [i currentText children app].
  now rewrite <- !app_assoc.
Qed.

(** *** The iteration at each construct *)

Ltac reassociate :=
  repeat (cbn [append]; rewrite ?RendererFacts.append_assoc); reflexivity.

Ltac pieces E := rewrite E; reassociate.

Lemma truthy_nonempty (s : string) : s <> "" -> Js.truthy s = true.
Proof.
  intros H. unfold Js.truthy. now apply negb_true_iff, String.eqb_neq.
Qed.


Ltac lengths :=
  repeat (cbn [String.length append]; rewrite ?length_append); lia.

Lemma opens_image_other (p : string) (a : ascii) (s : string) :
  a <> "["%char -> opens_image p (String a s) = false.
Proof.
  intros H. unfold opens_image.
  rewrite startsWith_char by congruence. apply andb_false_r.
Qed.

Lemma opens_image_end (p : string) : opens_image p "" = false.
Proof. unfold opens_image. apply andb_false_r. Qed.


(** A text of characters that open nothing goes to the buffer as it is. *)
Lemma scan_plain (p cur : string) (ch : list Node) :
  plain p = true ->
  scan_from p (mkScan 0 cur ch)
  = Returns (mkScan (String.length p) (cur ++ p) ch).
Proof.
  intros Hp.
  pose proof (plain_prefix p "" cur ch Hp (opens_image_end p)) as H.
  rewrite append_nil_r, (scan_from_end "") in H by (cbn; lia).
  rewrite H. cbn [bind]. unfold moved. cbn [i currentText children app].
  now rewrite Nat.add_0_r.
Qed.

Lemma step_code (c rest cur : string) (ch : list Node) :
  free_of "`" c = true ->
  inline_step ("`" ++ c ++ "`" ++ rest) (mkScan 0 cur ch)
  = mkScan (String.length ("`" ++ c ++ "`")) ""
      (ch ++ text_nodes cur ++ [leaf NodeType.inline_code c]).
Proof.
  intros Hc. remember ("`" ++ c ++ "`" ++ rest)%string as text eqn:E.
  assert (H0 : String.get 0 text = Some "`"%char)
    by (rewrite E; reflexivity).
  assert (H1 : Js.indexOf "`" (0 + 1) text = Some (String.length c + 1)).
  { apply (indexOf_at text "`" c "`" "" rest);
      [pieces E|reflexivity|exact Hc|lengths]. }
  assert (H2 : Js.substring (0 + 1) (String.length c + 1) text = c).
  { apply (substring_at text "`" c ("`" ++ rest));
      [pieces E|reflexivity|lengths]. }
  unfold inline_step.
  rewrite (bold_skips text 0 cur ch _ H0) by discriminate.
  cbn [and_then i currentText children].
  rewrite (italic_skips text 0 cur ch _ H0) by discriminate.
  cbn [and_then i currentText children].
  unfold check_code. cbn [i currentText children].
  rewrite (proj2 (charIs_get 0 "`" text) H0), flush_pair, H1, H2.
  cbn [and_then]. f_equal; [lengths|now rewrite <- app_assoc].
Qed.


Lemma step_bold (c rest cur : string) (ch : list Node) :
  free_of "*" c = true ->
  inline_step ("**" ++ c ++ "**" ++ rest) (mkScan 0 cur ch)
  = mkScan (String.length ("**" ++ c ++ "**")) ""
      (ch ++ text_nodes cur ++ [leaf NodeType.bold c]).
Proof.
  intros Hc. remember ("**" ++ c ++ "**" ++ rest)%string as text eqn:E.
  assert (H0 : String.eqb (Js.substring 0 (0 + 2) text) "**" = true).
  { apply two_chars_at. rewrite E. split; reflexivity. }
  assert (H1 : Js.indexOf "**" (0 + 2) text = Some (String.length c + 2)).
  { apply (indexOf_at text "**" c "*" "*" rest);
      [pieces E|reflexivity|exact Hc|lengths]. }
  assert (H2 : Js.substring (0 + 2) (String.length c + 2) text = c).
  { apply (substring_at text "**" c ("**" ++ rest));
      [pieces E|reflexivity|lengths]. }
  unfold inline_step, check_bold. cbn [i currentText children].
  rewrite H0, flush_pair, H1, H2.
  cbn [and_then]. f_equal; [lengths|now rewrite <- app_assoc].
Qed.

Lemma startsWith_charIs (a : ascii) (s : string) :
  Js.startsWith (String a "") s = false -> Js.charIs 0 a s = false.
Proof.
  intros H. destruct (Js.charIs 0 a s) eqn:E; [|reflexivity].
  apply charIs_get in E. now apply startsWith_get in H.
Qed.

Lemma step_italic (c rest cur : string) (ch : list Node) :
  c <> "" -> free_of "*" c = true -> Js.startsWith "*" rest = false ->
  inline_step ("*" ++ c ++ "*" ++ rest) (mkScan 0 cur ch)
  = mkScan (String.length ("*" ++ c ++ "*")) ""
      (ch ++ text_nodes cur ++ [leaf NodeType.italic c]).
Proof.
  intros Hne Hc Hrest.
  remember ("*" ++ c ++ "*" ++ rest)%string as text eqn:E.
  assert (H0 : String.get 0 text = Some "*"%char)
    by (rewrite E; reflexivity).
  assert (Hs : exists a, String.get (0 + 1) text = Some a /\ a <> "*"%char).
  { destruct c as [|a c]; [congruence|]. exists a.
    apply free_of_head in Hc. rewrite E. split; [reflexivity|tauto]. }
  destruct Hs as (a & Hs & Ha).
  assert (H1 : Js.indexOf "*" (0 + 1) text = Some (String.length c + 1)).
  { apply (indexOf_at text "*" c "*" "" rest);
      [pieces E|reflexivity|exact Hc|lengths]. }
  assert (H2 : Js.substring (0 + 1) (String.length c + 1) text = c).
  { apply (substring_at text "*" c ("*" ++ rest));
      [pieces E|reflexivity|lengths]. }
  assert (H3 : Js.charIs (String.length c + 1 + 1) "*" text = false).
  { replace text with (("*" ++ c ++ "*") ++ rest)%string by (symmetry; pieces E).
    replace (String.length c + 1 + 1)
      with (String.length ("*" ++ c ++ "*") + 0) by lengths.
    rewrite charIs_after. now apply startsWith_charIs. }
  unfold inline_step, check_bold. cbn [i currentText children].
  rewrite (two_chars_not_second 0 "*" "*" text)
    by (change (S 0) with (0 + 1); rewrite Hs; congruence).
  cbn [and_then i currentText children].
  unfold check_italic. cbn [i currentText children].
  rewrite (proj2 (charIs_get 0 "*" text) H0).
  rewrite (charIs_other (0 + 1) a "*" text Hs Ha).
  cbn [andb negb]. rewrite flush_pair, H1, H3, H2.
  cbn [and_then negb]. f_equal; [lengths|now rewrite <- app_assoc].
Qed.

Lemma step_link (label url rest cur : string) (ch : list Node) :
  free_of "]" label = true -> free_of ")" url = true ->
  inline_step ("[" ++ label ++ "](" ++ url ++ ")" ++ rest) (mkScan 0 cur ch)
  = mkScan (String.length ("[" ++ label ++ "](" ++ url ++ ")")) ""
      (ch ++ text_nodes cur ++ [link_node label url]).
Proof.
  intros Hl Hu.
  remember ("[" ++ label ++ "](" ++ url ++ ")" ++ rest)%string
    as text eqn:E.
  assert (H0 : String.get 0 text = Some "["%char)
    by (rewrite E; reflexivity).
  assert (H1 : Js.indexOf "]" 0 text = Some (String.length label + 1)).
  { apply (indexOf_at text "" ("[" ++ label) "]" ""
             ("(" ++ url ++ ")" ++ rest));
      [pieces E|reflexivity| |lengths].
    unfold free_of. cbn [append Js.all_chars]. exact Hl. }
  assert (H2 : Js.charIs (String.length label + 1 + 1) "(" text = true).
  { apply (charIs_at text ("[" ++ label ++ "]") "(" (url ++ ")" ++ rest));
      [pieces E|lengths]. }
  assert (H3 : Js.indexOf ")" (String.length label + 1 + 2) text
               = Some (String.length label + 3 + String.length url)).
  { apply (indexOf_at text ("[" ++ label ++ "](") url ")" "" rest);
      [pieces E|lengths|exact Hu|lengths]. }
  assert (H4 : Js.substring (0 + 1) (String.length label + 1) text = label).
  { apply (substring_at text "[" label ("](" ++ url ++ ")" ++ rest));
      [pieces E|reflexivity|lengths]. }
  assert (H5 : Js.substring (String.length label + 1 + 2)
                 (String.length label + 3 + String.length url) text = url).
  { apply (substring_at text ("[" ++ label ++ "](") url (")" ++ rest));
      [pieces E|lengths|lengths]. }
  unfold inline_step.
  rewrite (bold_skips text 0 cur ch _ H0) by discriminate.
  cbn [and_then i currentText children].
  rewrite (italic_skips text 0 cur ch _ H0) by discriminate.
  cbn [and_then i currentText children].
  rewrite (code_skips text 0 cur ch _ H0) by discriminate.
  cbn [and_then i currentText children].
  unfold check_link. cbn [i currentText children].
  rewrite (proj2 (charIs_get 0 "[" text) H0), flush_pair, H1, H2.
  cbv zeta. rewrite H3, H4, H5.
  cbn [and_then]. f_equal; [lengths|now rewrite <- app_assoc].
Qed.

Lemma step_image (alt src rest cur : string) (ch : list Node) :
  free_of "]" alt = true -> free_of ")" src = true ->
  inline_step ("![" ++ alt ++ "](" ++ src ++ ")" ++ rest) (mkScan 0 cur ch)
  = mkScan (String.length ("![" ++ alt ++ "](" ++ src ++ ")")) ""
      (ch ++ text_nodes cur ++ [image_node alt src]).
Proof.
  intros Ha Hs.
  remember ("![" ++ alt ++ "](" ++ src ++ ")" ++ rest)%string
    as text eqn:E.
  assert (H0 : String.get 0 text = Some "!"%char)
    by (rewrite E; reflexivity).
  assert (Hi : String.eqb (Js.substring 0 (0 + 2) text) "![" = true).
  { apply two_chars_at. rewrite E. split; reflexivity. }
  assert (H1 : Js.indexOf "]" (0 + 2) text = Some (String.length alt + 2)).
  { apply (indexOf_at text "![" alt "]" "" ("(" ++ src ++ ")" ++ rest));
      [pieces E|reflexivity|exact Ha|lengths]. }
  assert (H2 : Js.charIs (String.length alt + 2 + 1) "(" text = true).
  { apply (charIs_at text ("![" ++ alt ++ "]") "(" (src ++ ")" ++ rest));
      [pieces E|lengths]. }
  assert (H3 : Js.indexOf ")" (String.length alt + 2 + 2) text
               = Some (String.length alt + 4 + String.length src)).
  { apply (indexOf_at text ("![" ++ alt ++ "](") src ")" "" rest);
      [pieces E|lengths|exact Hs|lengths]. }
  assert (H4 : Js.substring (0 + 2) (String.length alt + 2) text = alt).
  { apply (substring_at text "![" alt ("](" ++ src ++ ")" ++ rest));
      [pieces E|reflexivity|lengths]. }
  assert (H5 : Js.substring (String.length alt + 2 + 2)
                 (String.length alt + 4 + String.length src) text = src).
  { apply (substring_at text ("![" ++ alt ++ "](") src (")" ++ rest));
      [pieces E|lengths|lengths]. }
  unfold inline_step.
  rewrite (bold_skips text 0 cur ch _ H0) by discriminate.
  cbn [and_then i currentText children].
  rewrite (italic_skips text 0 cur ch _ H0) by discriminate.
  cbn [and_then i currentText children].
  rewrite (code_skips text 0 cur ch _ H0) by discriminate.
  cbn [and_then i currentText children].
  rewrite (link_skips text 0 cur ch _ H0) by discriminate.
  cbn [and_then i currentText children].
  unfold check_image. cbn [i currentText children].
  rewrite Hi, flush_pair, H1, H2.
  cbv zeta. rewrite H3, H4, H5.
  cbn [and_then]. f_equal; [lengths|now rewrite <- app_assoc].
Qed.

End InlineMore.

(** X8: a text that is not empty and has no asterisk, no backtick and no
    opening bracket is one text node that holds the text as it is. *)
Theorem plain_text_is_one_text_node :
  forall text : string,
    text <> "" -> Props.plain text = true ->
    Parser.parseInlineContent (Some text)
    = Returns [Ast.leaf NodeType.text text].
Proof.
  intros text Hne Hp. rewrite InlineMore.parseInlineContent_scan.
  pose proof (InlineMore.truthy_nonempty text Hne) as Ht.
  rewrite Ht, InlineMore.scan_plain by exact Hp.
  cbn [bind Parser.children Parser.currentText append app].
  unfold Props.text_nodes. now rewrite Ht.
Qed.

(** A sentence with an exclamation mark and a closing bracket. *)
Lemma plain_text_is_one_text_node_witness :
  Parser.parseInlineContent (Some "Hello] world!")
  = Returns [Ast.leaf NodeType.text "Hello] world!"].
Proof.
  apply plain_text_is_one_text_node; [discriminate|reflexivity].
Defined.

(** X9: after a stretch [p] of characters that open nothing, a backtick, a
    text [c] without backtick and a backtick are a code node with content
    [c]; the text before is a text node of its own, and the scan goes on
    with the rest as if the rest stood alone. *)
Theorem code_span_is_a_code_node :
  forall p c rest : string,
    Props.plain p = true -> Props.free_of "`" c = true ->
    exists nodes,
      Parser.parseInlineContent (Some rest) = Returns nodes /\
      Parser.parseInlineContent (Some (p ++ "`" ++ c ++ "`" ++ rest)%string)
      = Returns (Props.text_nodes p
                 ++ Ast.leaf NodeType.inline_code c :: nodes).
Proof.
  intros p c rest Hp Hc. exists (Spec.inline (Some rest)).
  split; [apply ParserFacts.inline_returns|].
  apply (InlineMore.compose p _ ("`" ++ c ++ "`") rest).
  - exact Hp.
  - apply InlineMore.opens_image_other. discriminate.
  - InlineMore.reassociate.
  - discriminate.
  - intros cur ch. now apply InlineMore.step_code.
Qed.

Lemma code_span_is_a_code_node_witness :
  Props.plain "Run " = true /\ Props.free_of "`" "npm *test*" = true /\
  exists nodes,
    Parser.parseInlineContent (Some " now") = Returns nodes /\
    Parser.parseInlineContent (Some "Run `npm *test*` now")
    = Returns (Props.text_nodes "Run "
               ++ Ast.leaf NodeType.inline_code "npm *test*" :: nodes).
Proof.
  assert (H1 : Props.plain "Run " = true) by reflexivity.
  assert (H2 : Props.free_of "`" "npm *test*" = true) by reflexivity.
  split; [exact H1|]. split; [exact H2|].
  exact (code_span_is_a_code_node "Run " "npm *test*" " now" H1 H2).
Defined.

(** X10: after a stretch [p] of characters that open nothing, two asterisks,
    a text [c] without asterisk and two asterisks are a bold node with
    content [c], also when [c] is empty; the scan goes on with the rest as
    if the rest stood alone. *)
Theorem closed_bold_is_a_bold_node :
  forall p c rest : string,
    Props.plain p = true -> Props.free_of "*" c = true ->
    exists nodes,
      Parser.parseInlineContent (Some rest) = Returns nodes /\
      Parser.parseInlineContent (Some (p ++ "**" ++ c ++ "**" ++ rest)%string)
      = Returns (Props.text_nodes p ++ Ast.leaf NodeType.bold c :: nodes).
Proof.
  intros p c rest Hp Hc. exists (Spec.inline (Some rest)).
  split; [apply ParserFacts.inline_returns|].
  apply (InlineMore.compose p _ ("**" ++ c ++ "**") rest).
  - exact Hp.
  - apply InlineMore.opens_image_other. discriminate.
  - InlineMore.reassociate.
  - discriminate.
  - intros cur ch. now apply InlineMore.step_bold.
Qed.

Lemma closed_bold_is_a_bold_node_witness :
  Props.plain "This is " = true /\ Props.free_of "*" "bold" = true /\
  exists nodes,
    Parser.parseInlineContent (Some " text.") = Returns nodes /\
    Parser.parseInlineContent (Some "This is **bold** text.")
    = Returns (Props.text_nodes "This is "
               ++ Ast.leaf NodeType.bold "bold" :: nodes).
Proof.
  assert (H1 : Props.plain "This is " = true) by reflexivity.
  assert (H2 : Props.free_of "*" "bold" = true) by reflexivity.
  split; [exact H1|]. split; [exact H2|].
  exact (closed_bold_is_a_bold_node "This is " "bold" " text." H1 H2).
Defined.

(** X11: after a stretch [p] of characters that open nothing, an asterisk, a
    text [c] that is not empty and has no asterisk, and an asterisk that no
    asterisk follows are an italic node with content [c]; the scan goes on
    with the rest as if the rest stood alone. *)
Theorem closed_italic_is_an_italic_node :
  forall p c rest : string,
    Props.plain p = true -> c <> "" -> Props.free_of "*" c = true ->
    Js.startsWith "*" rest = false ->
    exists nodes,
      Parser.parseInlineContent (Some rest) = Returns nodes /\
      Parser.parseInlineContent (Some (p ++ "*" ++ c ++ "*" ++ rest)%string)
      = Returns (Props.text_nodes p ++ Ast.leaf NodeType.italic c :: nodes).
Proof.
  intros p c rest Hp Hne Hc Hrest. exists (Spec.inline (Some rest)).
  split; [apply ParserFacts.inline_returns|].
  apply (InlineMore.compose p _ ("*" ++ c ++ "*") rest).
  - exact Hp.
  - apply InlineMore.opens_image_other. discriminate.
  - InlineMore.reassociate.
  - discriminate.
  - intros cur ch. now apply InlineMore.step_italic.
Qed.

Lemma closed_italic_is_an_italic_node_witness :
  Props.plain "This is " = true /\ "italic" <> "" /\
  Props.free_of "*" "italic" = true /\
  Js.startsWith "*" " text." = false /\
  exists nodes,
    Parser.parseInlineContent (Some " text.") = Returns nodes /\
    Parser.parseInlineContent (Some "This is *italic* text.")
    = Returns (Props.text_nodes "This is "
               ++ Ast.leaf NodeType.italic "italic" :: nodes).
Proof.
  assert (H1 : Props.plain "This is " = true) by reflexivity.
  assert (H2 : "italic" <> "") by discriminate.
  assert (H3 : Props.free_of "*" "italic" = true) by reflexivity.
  assert (H4 : Js.startsWith "*" " text." = false) by reflexivity.
  split; [exact H1|]. split; [exact H2|]. split; [exact H3|].
  split; [exact H4|].
  exact (closed_italic_is_an_italic_node "This is " "italic" " text."
           H1 H2 H3 H4).
Defined.

(** X12: after a stretch [p] of characters that open nothing and that does
    not end with an exclamation mark, a label without closing bracket in
    brackets, directly followed by a target without closing parenthesis in
    parentheses, is a link node with that label and target; the scan goes on
    with the rest as if the rest stood alone. *)
Theorem link_is_a_link_node :
  forall p label url rest : string,
    Props.plain p = true -> Js.endsWith "!" p = false ->
    Props.free_of "]" label = true -> Props.free_of ")" url = true ->
    exists nodes,
      Parser.parseInlineContent (Some rest) = Returns nodes /\
      Parser.parseInlineContent
        (Some (p ++ "[" ++ label ++ "](" ++ url ++ ")" ++ rest)%string)
      = Returns (Props.text_nodes p ++ Parser.link_node label url :: nodes).
Proof.
  intros p label url rest Hp Hend Hl Hu. exists (Spec.inline (Some rest)).
  split; [apply ParserFacts.inline_returns|].
  apply (InlineMore.compose p _ ("[" ++ label ++ "](" ++ url ++ ")") rest).
  - exact Hp.
  - unfold Props.opens_image. now rewrite Hend.
  - InlineMore.reassociate.
  - discriminate.
  - intros cur ch. now apply InlineMore.step_link.
Qed.

Lemma link_is_a_link_node_witness :
  Props.plain "See " = true /\ Js.endsWith "!" "See " = false /\
  Props.free_of "]" "Google" = true /\
  Props.free_of ")" "https://google.com" = true /\
  exists nodes,
    Parser.parseInlineContent (Some ".") = Returns nodes /\
    Parser.parseInlineContent (Some "See [Google](https://google.com).")
    = Returns (Props.text_nodes "See "
               ++ Parser.link_node "Google" "https://google.com" :: nodes).
Proof.
  assert (H1 : Props.plain "See " = true) by reflexivity.
  assert (H2 : Js.endsWith "!" "See " = false) by reflexivity.
  assert (H3 : Props.free_of "]" "Google" = true) by reflexivity.
  assert (H4 : Props.free_of ")" "https://google.com" = true)
    by reflexivity.
  split; [exact H1|]. split; [exact H2|]. split; [exact H3|].
  split; [exact H4|].
  exact (link_is_a_link_node "See " "Google" "https://google.com" "."
           H1 H2 H3 H4).
Defined.

(** X13: after a stretch [p] of characters that open nothing, an exclamation
    mark, an alternative text without closing bracket in brackets, directly
    followed by a source without closing parenthesis in parentheses, is an
    image node with that alternative text and source; the scan goes on with
    the rest as if the rest stood alone. *)
Theorem image_is_an_image_node :
  forall p alt src rest : string,
    Props.plain p = true ->
    Props.free_of "]" alt = true -> Props.free_of ")" src = true ->
    exists nodes,
      Parser.parseInlineContent (Some rest) = Returns nodes /\
      Parser.parseInlineContent
        (Some (p ++ "![" ++ alt ++ "](" ++ src ++ ")" ++ rest)%string)
      = Returns (Props.text_nodes p ++ Parser.image_node alt src :: nodes).
Proof.
  intros p alt src rest Hp Ha Hs. exists (Spec.inline (Some rest)).
  split; [apply ParserFacts.inline_returns|].
  apply (InlineMore.compose p _ ("![" ++ alt ++ "](" ++ src ++ ")") rest).
  - exact Hp.
  - apply InlineMore.opens_image_other. discriminate.
  - InlineMore.reassociate.
  - discriminate.
  - intros cur ch. now apply InlineMore.step_image.
Qed.

Lemma image_is_an_image_node_witness :
  Props.plain "Logo: " = true /\ Props.free_of "]" "Alt text" = true /\
  Props.free_of ")" "https://example.com/image.jpg" = true /\
  exists nodes,
    Parser.parseInlineContent (Some "") = Returns nodes /\
    Parser.parseInlineContent
      (Some "Logo: ![Alt text](https://example.com/image.jpg)")
    = Returns (Props.text_nodes "Logo: "
               ++ Parser.image_node "Alt text"
                    "https://example.com/image.jpg" :: nodes).
Proof.
  assert (H1 : Props.plain "Logo: " = true) by reflexivity.
  assert (H2 : Props.free_of "]" "Alt text" = true) by reflexivity.
  assert (H3 : Props.free_of ")" "https://example.com/image.jpg" = true)
    by reflexivity.
  split; [exact H1|]. split; [exact H2|]. split; [exact H3|].
  exact (image_is_an_image_node "Logo: " "Alt text"
           "https://example.com/image.jpg" "" H1 H2 H3).
Defined.



(** ** What a scan leaves *)

Module ScanMore.

Import Ast Parser Spec Props.

Lemma push_not_nil {A : Type} (l : list A) (x : A) : l ++ [x] <> [].
Proof. destruct l; discriminate. Qed.

Lemma check_bold_pushes (text : string) (st st' : Scan) :
  check_bold text st = Continue st' -> children st' <> [].
Proof.
  unfold check_bold. destruct (String.eqb _ _); [|discriminate].
  rewrite InlineMore.flush_pair. destruct (Js.indexOf _ _ _); [|discriminate].
  intros E. injection E as <-. apply push_not_nil.
Qed.

Lemma check_italic_pushes (text : string) (st st' : Scan) :
  check_italic text st = Continue st' -> children st' <> [].
Proof.
  unfold check_italic. destruct (_ && _); [|discriminate].
  rewrite InlineMore.flush_pair. destruct (Js.indexOf _ _ _); [|discriminate].
  destruct (negb _); [|discriminate].
  intros E. injection E as <-. apply push_not_nil.
Qed.

Lemma check_code_pushes (text : string) (st st' : Scan) :
  check_code text st = Continue st' -> children st' <> [].
Proof.
  unfold check_code. destruct (Js.charIs _ _ _); [|discriminate].
  rewrite InlineMore.flush_pair. destruct (Js.indexOf _ _ _); [|discriminate].
  intros E. injection E as <-. apply push_not_nil.
Qed.

Lemma check_link_pushes (text : string) (st st' : Scan) :
  check_link text st = Continue st' -> children st' <> [].
Proof.
  unfold check_link. destruct (Js.charIs _ _ _); [|discriminate].
  rewrite InlineMore.flush_pair. destruct (Js.indexOf _ _ _); [|discriminate].
  destruct (Js.charIs _ _ _); [|discriminate].
  destruct (Js.indexOf _ _ _); [|discriminate].
  intros E. injection E as <-. apply push_not_nil.
Qed.

Lemma check_image_pushes (text : string) (st st' : Scan) :
  check_image text st = Continue st' -> children st' <> [].
Proof.
  unfold check_image. destruct (String.eqb _ _); [|discriminate].
  rewrite InlineMore.flush_pair. destruct (Js.indexOf _ _ _); [|discriminate].
  destruct (Js.charIs _ _ _); [|discriminate].
  destruct (Js.indexOf _ _ _); [|discriminate].
  intros E. injection E as <-. apply push_not_nil.
Qed.

(** After an iteration there is a node or a buffered character. *)
Lemma inline_step_live (text : string) (st : Scan) :
  children (inline_step text st) <> [] \/
  currentText (inline_step text st) <> "".
Proof.
  unfold inline_step.
  destruct (check_bold text st) as [s|cur1 ch1] eqn:E1; cbn [and_then];
    [left; eapply check_bold_pushes; eauto|].
  destruct (check_italic text _) as [s|cur2 ch2] eqn:E2; cbn [and_then];
    [left; eapply check_italic_pushes; eauto|].
  destruct (check_code text _) as [s|cur3 ch3] eqn:E3; cbn [and_then];
    [left; eapply check_code_pushes; eauto|].
  destruct (check_link text _) as [s|cur4 ch4] eqn:E4; cbn [and_then];
    [left; eapply check_link_pushes; eauto|].
  destruct (check_image text _) as [s|cur5 ch5] eqn:E5; cbn [and_then];
    [left; eapply check_image_pushes; eauto|].
  right. unfold regular_character. cbn [i currentText children].
  destruct (Js.charAt (i st) text); destruct cur5; discriminate.
Qed.

Lemma inline_loop_live (text : string) :
  forall fuel st st',
    inline_loop fuel text st = Returns st' ->
    (children st <> [] \/ currentText st <> "") \/ i st < String.length text ->
    children st' <> [] \/ currentText st' <> "".
Proof.
  induction fuel as [|fuel IH]; intros st st' E H; [discriminate|].
  cbn [inline_loop] in E.
  destruct (i st <? String.length text) eqn:Hlt.
  - apply (IH _ _ E). left. apply inline_step_live.
  - injection E as <-. apply Nat.ltb_ge in Hlt.
    destruct H as [H|H]; [exact H|lia].
Qed.

End ScanMore.

(** X15: the scan of a text returns no node only for the empty text: a text
    that is not empty always has at least one inline node. *)
Theorem no_inline_nodes_only_for_empty_text :
  forall text : string,
    Parser.parseInlineContent (Some text) = Returns [] <-> text = "".
Proof.
  intros text. split; [|intros ->; reflexivity].
  destruct text as [|a text]; [reflexivity|]. intros H. exfalso.
  rewrite InlineMore.parseInlineContent_scan in H.
  cbn [Js.truthy String.eqb negb] in H.
  destruct (Props.scan_from _ _) as [st| |] eqn:E; cbn [bind] in H;
    try discriminate.
  injection H as H. apply app_eq_nil in H. destruct H as [Hch Htext].
  apply ScanMore.inline_loop_live in E; [|right; cbn; lia].
  destruct E as [E|E]; [now apply E|].
  unfold Props.text_nodes in Htext.
  rewrite (InlineMore.truthy_nonempty _ E) in Htext. discriminate.
Qed.

(** ** Escaping *)

Module EscapeMore.

Import Spec Props Renderer.

(** The cases of [escape_char]: the five characters in the order of the
    replacements, or any other character. *)
Ltac escape_cases c :=
  let E1 := fresh "E" in
  let E2 := fresh "E" in
  let E3 := fresh "E" in
  let E4 := fresh "E" in
  let E5 := fresh "E" in
  destruct (Ascii.eqb c "&") eqn:E1;
    [apply Ascii.eqb_eq in E1; subst c|
     destruct (Ascii.eqb c "<") eqn:E2;
       [apply Ascii.eqb_eq in E2; subst c|
        destruct (Ascii.eqb c ">") eqn:E3;
          [apply Ascii.eqb_eq in E3; subst c|
           destruct (Ascii.eqb c (Js.chr 34)) eqn:E4;
             [apply Ascii.eqb_eq in E4; subst c|
              destruct (Ascii.eqb c "'") eqn:E5;
                [apply Ascii.eqb_eq in E5; subst c|
                 apply Ascii.eqb_neq in E1, E2, E3, E4, E5]]]]].

Ltac heads :=
  repeat match goal with
         | H : String _ _ = String _ _ |- _ =>
             injection H; clear H; intros
         end.

Lemma escape_each_nonempty (c : ascii) (s : string) :
  escape_each (String c s) <> "".
Proof.
  cbn [escape_each]. unfold escape_char. escape_cases c; discriminate.
Qed.

Lemma escape_each_injective (a : string) :
  forall b, escape_each a = escape_each b -> a = b.
Proof.
  induction a as [|x a IH]; intros [|y b] H.
  - reflexivity.
  - symmetry in H. now apply escape_each_nonempty in H.
  - now apply escape_each_nonempty in H.
  - cbn [escape_each] in H. unfold escape_char in H.
    escape_cases x; escape_cases y; cbn [append Js.chr] in H; heads;
      try discriminate; try congruence;
      f_equal; try congruence; now apply IH.
Qed.

Lemma escape_char_length (c : ascii) :
  1 <= String.length (escape_char c) /\
  (is_special c = true -> 1 < String.length (escape_char c)) /\
  (is_special c = false -> escape_char c = String c "").
Proof.
  unfold escape_char, is_special.
  destruct (Ascii.eqb c "&"); [cbn; repeat split; try lia; discriminate|].
  destruct (Ascii.eqb c "<"); [cbn; repeat split; try lia; discriminate|].
  destruct (Ascii.eqb c ">"); [cbn; repeat split; try lia; discriminate|].
  destruct (Ascii.eqb c (Js.chr 34));
    [cbn; repeat split; try lia; discriminate|].
  destruct (Ascii.eqb c "'"); [cbn; repeat split; try lia; discriminate|].
  cbn. repeat split; try lia; discriminate.
Qed.

Lemma escape_each_length (s : string) :
  String.length s <= String.length (escape_each s) /\
  (clean s = false -> String.length s < String.length (escape_each s)).
Proof.
  induction s as [|c s [IH1 IH2]]; [split; [auto|discriminate]|].
  cbn [escape_each String.length]. rewrite StringMore.length_append.
  destruct (escape_char_length c) as (H1 & H2 & _).
  split; [lia|].
  unfold clean. cbn [Js.all_chars]. intros H.
  apply andb_false_iff in H. destruct H as [H|H].
  - apply negb_false_iff in H. apply H2 in H. lia.
  - apply IH2 in H. lia.
Qed.

Lemma escape_each_clean (s : string) :
  clean s = true -> escape_each s = s.
Proof.
  induction s as [|c s IH]; [reflexivity|].
  unfold clean. cbn [Js.all_chars escape_each]. intros H.
  apply andb_true_iff in H. destruct H as [Hc Hs].
  apply negb_true_iff in Hc.
  destruct (escape_char_length c) as (_ & _ & H3).
  rewrite (H3 Hc), (IH Hs). reflexivity.
Qed.

End EscapeMore.

(** X16: escaping loses nothing: two texts with the same escaped text are
    the same text. *)
Theorem escaping_is_injective :
  forall a b : string,
    Renderer.escapeHtml (Some a) = Renderer.escapeHtml (Some b) -> a = b.
Proof.
  intros a b H. rewrite !RendererFacts.escapeHtml_each in H.
  now apply EscapeMore.escape_each_injective.
Qed.

(** The text and its escaped form are given; the ampersand of an entity is
    escaped once more. *)
Lemma escaping_is_injective_witness :
  Renderer.escapeHtml (Some "a &lt; b") = "a &amp;lt; b" /\
  "a &lt; b" = "a &lt; b".
Proof.
  assert (H : Renderer.escapeHtml (Some "a &lt; b")
              = Renderer.escapeHtml (Some "a &lt; b")) by reflexivity.
  split; [reflexivity|].
  exact (escaping_is_injective "a &lt; b" "a &lt; b" H).
Defined.

(** X17: escaping leaves a text as it is exactly when the text has none of
    the five characters [&], [<], [>], the double and the single quote;
    otherwise the result is strictly longer than the text.  The result is
    never shorter. *)
Theorem escaping_fixes_clean_texts_only :
  forall s : string,
    (Renderer.escapeHtml (Some s) = s <-> Props.clean s = true) /\
    (Props.clean s = false ->
     String.length s < String.length (Renderer.escapeHtml (Some s))) /\
    String.length s <= String.length (Renderer.escapeHtml (Some s)) /\
    Renderer.escapeHtml (Some "a<b") = "a&lt;b" /\
    Props.clean "a<b" = false.
Proof.
  intros s. rewrite RendererFacts.escapeHtml_each.
  destruct (EscapeMore.escape_each_length s) as [Hle Hlt].
  split; [split|split; [exact Hlt|split; [exact Hle|split; reflexivity]]].
  - intros H. destruct (Props.clean s) eqn:E; [reflexivity|].
    specialize (Hlt eq_refl). rewrite H in Hlt. lia.
  - apply EscapeMore.escape_each_clean.
Qed.

(** A text with an angle bracket grows. *)
Lemma escaping_fixes_clean_texts_only_witness :
  String.length "a<b" < String.length (Renderer.escapeHtml (Some "a<b")).
Proof.
  destruct (escaping_fixes_clean_texts_only "a<b") as (_ & H & _).
  apply H. reflexivity.
Defined.

(** ** Tables *)

Module TableMore.

Import Lexer Ast Parser Spec Props Renderer.

Lemma render_rows_data (run : list Token) :
  forall index,
    render_rows (S index) (map (fun r => row_node (Lexer.cells r)) run)
    = Returns (map (row_html "td") run).
Proof.
  induction run as [|r run IH]; intros index; [reflexivity|].
  cbn [map render_rows row_node Ast.cells Nat.eqb].
  rewrite IH. reflexivity.
Qed.

End TableMore.

(** X18: the table of a run of table-row tokens renders with the cells of
    its first row as header cells and the cells of every other row as data
    cells, one row of markup for each token, whatever the cells hold; a
    table without rows renders as the empty string. *)
Theorem first_row_is_the_header_row :
  forall (hljs_highlight : option string -> string -> option string)
         (options : Renderer.Options)
         (t : Lexer.Token) (run : list Lexer.Token),
    Renderer.renderNode hljs_highlight options (Props.table_of_run (t :: run))
    = Returns ("<table>" ++ Js.nl
               ++ Js.join Js.nl
                    (Props.row_html "th" t :: map (Props.row_html "td") run)
               ++ Js.nl ++ "</table>")%string /\
    Renderer.renderNode hljs_highlight options (Props.table_of_run [])
    = Returns "".
Proof.
  intros hl options t run.
  rewrite !RendererFacts.renderNode_unfold. unfold Renderer.render_case.
  unfold Props.table_of_run. cbn [Ast.type]. unfold Renderer.renderTable.
  cbn [Ast.rows map]. split; [|reflexivity].
  cbn [Renderer.render_rows Parser.row_node Ast.cells Nat.eqb].
  rewrite TableMore.render_rows_data. reflexivity.
Qed.

(** ** The highlighter and the options *)

Module ConverterMore.

Import Lexer Ast Parser Spec Props.

Lemma mapM_ext {A B : Type} (f g : A -> Outcome B) (l : list A) :
  Forall (fun a => f a = g a) l -> mapM f l = mapM g l.
Proof.
  induction 1 as [|a l Ha _ IH]; simpl; auto.
  now rewrite Ha, IH.
Qed.

Section TwoRenderers.

Variables hl hl' : option string -> string -> option string.
Variables o o' : Renderer.Options.

Hypothesis same_code :
  forall node,
    Renderer.renderCodeBlock hl o node = Renderer.renderCodeBlock hl' o' node.

Hypothesis same_theme : Renderer.theme o = Renderer.theme o'.

(** Two renderers that render code blocks alike render every node of the
    tree builder alike. *)
Lemma node_at_agree (rest : list Token) (t : Token) (n : Node) :
  fst (node_at rest t) = Some n ->
  Renderer.renderNode hl o n = Renderer.renderNode hl' o' n.
Proof.
  unfold node_at. rewrite !RendererFacts.renderNode_unfold.
  destruct (Lexer.type t); cbn [fst]; intros E; inversion E; subst; clear E;
    unfold Renderer.render_case;
    cbn [Ast.type list_node blockquote_node block leaf object];
    try reflexivity.
  - unfold Renderer.renderHeader, Renderer.renderInlineContent.
    cbn [Ast.children Ast.content Ast.level].
    destruct (inline (Lexer.text t)) as [|child more] eqn:Hch;
      [reflexivity|].
    rewrite <- Hch, !RendererFacts.render_children_inline. reflexivity.
  - f_equal. apply same_code.
  - unfold Renderer.renderList.
    now rewrite !RendererFacts.render_items_run.
  - unfold Renderer.renderOrderedList.
    now rewrite !RendererFacts.render_items_run.
  - unfold Renderer.renderBlockquote, Renderer.children_or_content,
      blockquote_node, block.
    cbn [Ast.children]. now rewrite !RendererFacts.render_children_inline.
  - unfold Renderer.renderParagraph, block. cbn [Ast.children Ast.content].
    destruct (inline _) as [|child more] eqn:Hch; [reflexivity|].
    rewrite <- Hch, !RendererFacts.render_children_inline. reflexivity.
Qed.

Lemma parse_agree (tokens : list Token) :
  exists children,
    parse tokens = Returns (document_node children) /\
    Forall (fun n => Renderer.renderNode hl o n
                     = Renderer.renderNode hl' o' n) children.
Proof.
  unfold parse.
  destruct (ParserFacts.parse_loop_invariant
              (fun _ ch =>
                 Forall (fun n => Renderer.renderNode hl o n
                                  = Renderer.renderNode hl' o' n) ch)
              tokens)
    with (fuel := S (List.length tokens)) (current := 0)
         (children := @nil Node)
    as (result & final & -> & _ & H); [|lia|constructor|].
  - intros current children t Ht Hinv.
    destruct (fst (node_at (skipn current tokens) t)) as [n|] eqn:Hn;
      cbn [push]; auto.
    apply Forall_app. split; auto. constructor; [|constructor].
    eapply node_at_agree; eauto.
  - cbn [bind]. eauto.
Qed.

Lemma pipeline_agree (markdown : Js.Value) :
  (tokens <- Lexer.tokenize markdown ;;
   ast <- Parser.parse tokens ;;
   Renderer.render hl o (Some ast))
  = (tokens <- Lexer.tokenize markdown ;;
     ast <- Parser.parse tokens ;;
     Renderer.render hl' o' (Some ast)).
Proof.
  destruct (Lexer.tokenize markdown) as [tokens| |]; cbn [bind];
    try reflexivity.
  destruct (parse_agree tokens) as (children & -> & H). cbn [bind].
  unfold Renderer.render, document_node. cbn [Ast.type].
  rewrite !RendererFacts.renderNode_unfold. unfold Renderer.render_case.
  cbn [Ast.type Ast.children]. rewrite (mapM_ext _ _ _ H).
  destruct (mapM _ children); cbn [bind]; try reflexivity.
  unfold Renderer.wrapInDocument. now rewrite same_theme.
Qed.

End TwoRenderers.

Lemma convert_agree (hl hl' : option string -> string -> option string)
    (current current' : Renderer.Options) (markdown : Js.Value)
    (options options' : Converter.CallOptions) :
  (forall node,
     Renderer.renderCodeBlock hl (Converter.spread current options) node
     = Renderer.renderCodeBlock hl' (Converter.spread current' options')
         node) ->
  Renderer.theme (Converter.spread current options)
  = Renderer.theme (Converter.spread current' options') ->
  Converter.convert hl current markdown options
  = Converter.convert hl' current' markdown options'.
Proof.
  intros Hcode Htheme. unfold Converter.convert.
  now rewrite (pipeline_agree hl hl' _ _ Hcode Htheme markdown).
Qed.

Lemma spread_merge (current : Renderer.Options)
    (first second : Converter.CallOptions) :
  Converter.spread (Converter.spread current first) second
  = Converter.spread current (merge first second).
Proof.
  unfold Converter.spread, merge. cbn.
  destruct (Converter.highlight second), (Converter.theme second);
    reflexivity.
Qed.

Lemma calls_merged (hl : option string -> string -> option string)
    (current : Renderer.Options)
    (arguments : list (Js.Value * Converter.CallOptions)) :
  forall given,
    Session.calls hl (Converter.spread current given) arguments
    = map (fun '(markdown, options) =>
             Converter.convert hl current markdown options)
          (merged given arguments).
Proof.
  induction arguments as [|[markdown options] later IH]; intros given;
    [reflexivity|].
  cbn [Session.calls Session.call merged map].
  rewrite spread_merge, IH. f_equal.
  unfold Converter.convert. now rewrite spread_merge.
Qed.

End ConverterMore.

(** X19: with highlighting switched off, by the call or by what the
    renderer holds, the page does not depend on the highlighter. *)
Theorem no_highlighting_ignores_the_highlighter :
  forall (hl hl' : option string -> string -> option string)
         (current : Renderer.Options) (markdown : Js.Value)
         (options : Converter.CallOptions),
    Renderer.highlight (Converter.spread current options) = false ->
    Converter.convert hl current markdown options
    = Converter.convert hl' current markdown options.
Proof.
  intros hl hl' current markdown options H.
  apply ConverterMore.convert_agree; [|reflexivity].
  intros node. unfold Renderer.renderCodeBlock. now rewrite H.
Qed.

(** A fenced block with a language, a highlighter that marks everything and
    one that fails. *)
Lemma no_highlighting_ignores_the_highlighter_witness :
  Converter.convert (fun _ _ => Some "<mark>x</mark>") Converter.defaults
    (Js.VString ("```js" ++ Js.nl ++ "x" ++ Js.nl ++ "```")%string)
    (Converter.mkCallOptions (Some false) None)
  = Converter.convert (fun _ _ => None) Converter.defaults
      (Js.VString ("```js" ++ Js.nl ++ "x" ++ Js.nl ++ "```")%string)
      (Converter.mkCallOptions (Some false) None).
Proof.
  apply no_highlighting_ignores_the_highlighter. reflexivity.
Defined.

(** X20: a highlighter that fails on every call gives the page that
    switching highlighting off gives: the code of every block is escaped. *)
Theorem failing_highlighter_is_no_highlighting :
  forall (hl : option string -> string -> option string)
         (current : Renderer.Options) (markdown : Js.Value)
         (options : Converter.CallOptions),
    Converter.convert (fun _ _ => None) current markdown options
    = Converter.convert hl current markdown
        (Converter.mkCallOptions (Some false) (Converter.theme options)).
Proof.
  intros hl current markdown options.
  apply ConverterMore.convert_agree; [|reflexivity].
  intros node. unfold Renderer.renderCodeBlock, Converter.spread.
  cbn [Renderer.highlight Converter.highlight andb].
  destruct (_ && _); reflexivity.
Qed.

(** X21: the options of a call stay in the converter: each call of a row of
    calls on one converter returns what a call on the converter as it was
    before the row returns for the options of all calls so far, where a
    later call overrides an earlier one key by key. *)
Theorem options_stay_for_later_calls :
  forall (hl : option string -> string -> option string)
         (current : Renderer.Options)
         (arguments : list (Js.Value * Converter.CallOptions)),
    Session.calls hl current arguments
    = map (fun '(markdown, options) =>
             Converter.convert hl current markdown options)
          (Props.merged (Converter.mkCallOptions None None) arguments).
Proof.
  intros hl current arguments.
  rewrite <- ConverterMore.calls_merged. f_equal.
  destruct current; reflexivity.
Qed.

(** ** The configuration *)

Module ConfigMore.

Import Config.

Lemma length_zero {A : Type} (l : list A) : (List.length l =? 0) = true <-> l = [].
Proof.
  destruct l; simpl; split; intros H; try reflexivity; discriminate.
Qed.

Lemma flat_map_nil {A B : Type} (f : A -> list B) (l : list A) :
  flat_map f l = [] <-> forall a, In a l -> f a = [].
Proof.
  induction l as [|x l IH]; simpl.
  - split; [intros _ a []|reflexivity].
  - split.
    + intros H. apply app_eq_nil in H. destruct H as [Hx Hl].
      intros a [<-|Hin]; [exact Hx|]. now apply IH.
    + intros H. rewrite (H x) by auto. simpl. apply IH. auto.
Qed.

Lemma no_error_iff (test : bool) (message : string) :
  (if test then [message] else []) = [] <-> test = false.
Proof. destruct test; split; intros H; try reflexivity; discriminate. Qed.

End ConfigMore.

(** X22: [validate] accepts a configuration exactly when its theme is falsy
    or one of the two theme names, each of the seven boolean options is
    undefined or a boolean, and its output directory is falsy or a string;
    it never warns, and it is valid exactly when it lists no error. *)
Theorem validate_accepts_exactly :
  forall config : Config.Object,
    (Config.valid (Config.validate config) = true <->
     (Config.truthy (config "theme") = true ->
      config "theme" = Config.Text "light" \/
      config "theme" = Config.Text "dark") /\
     (forall option,
        In option Config.booleanOptions ->
        config option = Config.Undefined \/
        exists b, config option = Config.Boolean b) /\
     (Config.truthy (config "outputDir") = true ->
      exists s, config "outputDir" = Config.Text s)) /\
    (Config.valid (Config.validate config) = true <->
     Config.errors (Config.validate config) = []) /\
    Config.warnings (Config.validate config) = [].
Proof.
  intros config. unfold Config.validate.
  cbn [Config.valid Config.errors Config.warnings].
  split; [|split; [apply ConfigMore.length_zero|reflexivity]].
  rewrite ConfigMore.length_zero. split.
  - intros H. apply app_eq_nil in H. destruct H as [Ht H].
    apply app_eq_nil in H. destruct H as [Hb Hd].
    apply ConfigMore.no_error_iff in Ht, Hd.
    unfold Config.boolean_errors in Hb.
    rewrite ConfigMore.flat_map_nil in Hb. repeat split.
    + intros Htruthy. rewrite Htruthy in Ht. cbn [andb] in Ht.
      apply negb_false_iff in Ht.
      destruct (config "theme") as [| | | |s|]; try discriminate.
      cbn [Config.is_theme] in Ht. apply orb_true_iff in Ht.
      destruct Ht as [Ht|Ht]; apply String.eqb_eq in Ht; subst; auto.
    + intros option Hin. specialize (Hb option Hin).
      apply ConfigMore.no_error_iff in Hb.
      destruct (config option) as [| |b| | |]; try discriminate; eauto.
    + intros Htruthy. rewrite Htruthy in Hd. cbn [andb] in Hd.
      apply negb_false_iff in Hd.
      destruct (config "outputDir") as [| | | |s|]; try discriminate. eauto.
  - intros (Ht & Hb & Hd).
    assert (E1 : Config.truthy (config "theme")
                 && negb (Config.is_theme (config "theme")) = false).
    { destruct (Config.truthy (config "theme")); [|reflexivity].
      destruct (Ht eq_refl) as [-> | ->]; reflexivity. }
    assert (E2 : Config.boolean_errors config = []).
    { unfold Config.boolean_errors. apply ConfigMore.flat_map_nil.
      intros option Hin. destruct (Hb option Hin) as [-> | [b ->]];
        reflexivity. }
    assert (E3 : Config.truthy (config "outputDir")
                 && negb (Config.is_string (config "outputDir")) = false).
    { destruct (Config.truthy (config "outputDir")); [|reflexivity].
      destruct (Hd eq_refl) as [s ->]. reflexivity. }
    now rewrite E1, E2, E3.
Qed.

(** ** The arguments of the agent *)

Module AgentMore.

Import Agent Props.

Lemma switch_step (key : string) (value : option string) (options : Options) :
  snd (switch key value options) = 1 \/ snd (switch key value options) = 2.
Proof.
  unfold switch.
  destruct (String.eqb key "theme"); [auto|].
  destruct (String.eqb key "output-dir"); [auto|].
  destruct (String.eqb key "toc"); [auto|].
  destruct (String.eqb key "math"); [auto|].
  destruct (String.eqb key "no-highlight"); auto.
Qed.

Lemma switch_other (key : string) (value : option string)
    (options : Options) :
  is_option key = false -> switch key value options = (options, 2).
Proof.
  unfold is_option, switch. intros H.
  repeat (apply orb_false_iff in H; destruct H as [H ?]).
  now repeat match goal with E : _ = false |- _ => rewrite E; clear E end.
Qed.

Lemma nth_error_after {A : Type} (pre rest : list A) (n : nat) :
  nth_error (pre ++ rest) (List.length pre + n) = nth_error rest n.
Proof. induction pre; simpl; auto. Qed.

(** The loop reads nothing before its index. *)
Lemma args_loop_after (pre rest : list string) (fuel : nat) :
  forall i options,
    args_loop fuel (pre ++ rest) (List.length pre + i) options
    = args_loop fuel rest i options.
Proof.
  induction fuel as [|fuel IH]; intros i options; [reflexivity|].
  cbn [args_loop]. rewrite <- !Nat.add_assoc, !nth_error_after.
  destruct (nth_error rest i) as [arg|]; [|reflexivity].
  destruct (switch (strip arg) (nth_error rest (i + 1)) options)
    as [options' step].
  rewrite <- Nat.add_assoc. apply IH.
Qed.

(** More fuel than the arguments left changes nothing. *)
Lemma args_loop_fuel (args : list string) :
  forall f1 f2 i options,
    List.length args - i < f1 -> List.length args - i < f2 ->
    args_loop f1 args i options = args_loop f2 args i options.
Proof.
  induction f1 as [|f1 IH]; intros f2 i options H1 H2; [lia|].
  destruct f2 as [|f2]; [lia|]. cbn [args_loop].
  destruct (nth_error args i) as [arg|] eqn:E; [|reflexivity].
  pose proof (nth_error_in_range _ _ _ E).
  pose proof (switch_step (strip arg) (nth_error args (i + 1)) options) as Hs.
  destruct (switch (strip arg) (nth_error args (i + 1)) options)
    as [options' step].
  cbn [snd] in Hs. apply IH; lia.
Qed.

Lemma args_loop_returns (args : list string) :
  forall fuel i options,
    List.length args - i < fuel ->
    exists result, args_loop fuel args i options = Returns result.
Proof.
  induction fuel as [|fuel IH]; intros i options H; [lia|].
  cbn [args_loop].
  destruct (nth_error args i) as [arg|] eqn:E; [|eauto].
  pose proof (nth_error_in_range _ _ _ E).
  pose proof (switch_step (strip arg) (nth_error args (i + 1)) options) as Hs.
  destruct (switch (strip arg) (nth_error args (i + 1)) options)
    as [options' step].
  cbn [snd] in Hs. apply IH; lia.
Qed.

Lemma starts_with_dashes (arg : string) :
  Js.startsWith "--" arg = true -> arg = ("--" ++ Js.drop 2 arg)%string.
Proof.
  unfold Js.startsWith. destruct arg as [|a [|b s]]; cbn [String.prefix].
  - discriminate.
  - destruct (ascii_dec "-" a); discriminate.
  - destruct (ascii_dec "-" a) as [<-|]; [|discriminate].
    destruct (ascii_dec "-" b) as [<-|]; [|discriminate]. reflexivity.
Qed.

(** The key of an argument is a name only for the two spellings of the
    name. *)
Lemma strip_named (name arg : string) :
  strip arg = name -> named name arg.
Proof.
  unfold strip, named. destruct (Js.startsWith "--" arg) eqn:E; [|auto].
  intros <-. right. now apply starts_with_dashes.
Qed.

Lemma strip_other (name arg : string) :
  ~ named name arg -> String.eqb (strip arg) name = false.
Proof.
  intros H. apply String.eqb_neq. intros E. now apply H, strip_named.
Qed.

(** The loop on a list of arguments, by its first argument. *)
Lemma args_from_cons (arg : string) (rest : list string) (options : Options) :
  args_from (arg :: rest) options
  = args_from
      (skipn (snd (switch (strip arg) (hd_error rest) options) - 1) rest)
      (fst (switch (strip arg) (hd_error rest) options)).
Proof.
  unfold args_from.
  transitivity
    (args_loop (List.length (arg :: rest)) (arg :: rest)
       (snd (switch (strip arg) (hd_error rest) options))
       (fst (switch (strip arg) (hd_error rest) options))).
  { cbn [args_loop nth_error Nat.add]. unfold hd_error.
    now destruct (switch (strip arg) _ options). }
  pose proof (switch_step (strip arg) (hd_error rest) options) as Hs.
  destruct (switch (strip arg) (hd_error rest) options) as [options' step].
  cbn [fst snd] in *. destruct Hs as [-> | ->]; cbn [Nat.sub skipn].
  - apply (args_loop_after [arg] rest (List.length (arg :: rest)) 0).
  - destruct rest as [|next rest]; [reflexivity|].
    rewrite (args_loop_after [arg; next] rest _ 0).
    apply args_loop_fuel; cbn [List.length]; lia.
Qed.

End AgentMore.

(** X23: the argument loop of the agent reads its arguments from left to
    right, each iteration by the first argument alone, which names an
    option with or without two dashes before the name.  [toc] and [math]
    set their option to true and [no-highlight] sets [highlight] to false,
    and the loop goes on at the next argument; [theme] and [output-dir]
    keep the next argument as their value, which is undefined at the end
    of the arguments, and the loop goes on after it; an argument that names
    none of the five changes nothing, and the loop goes on after the next
    argument as well.  The loop returns for every list of arguments. *)
Theorem agent_arguments_go_left_to_right :
  forall (arg : string) (rest : list string) (options : Agent.Options),
    (Props.named "toc" arg ->
     Agent.args_from (arg :: rest) options
     = Agent.args_from rest
         (Agent.mkOptions (Agent.theme options) (Agent.outputDir options)
            (Some true) (Agent.math options) (Agent.highlight options))) /\
    (Props.named "math" arg ->
     Agent.args_from (arg :: rest) options
     = Agent.args_from rest
         (Agent.mkOptions (Agent.theme options) (Agent.outputDir options)
            (Agent.toc options) (Some true) (Agent.highlight options))) /\
    (Props.named "no-highlight" arg ->
     Agent.args_from (arg :: rest) options
     = Agent.args_from rest
         (Agent.mkOptions (Agent.theme options) (Agent.outputDir options)
            (Agent.toc options) (Agent.math options) (Some false))) /\
    (Props.named "theme" arg ->
     Agent.args_from (arg :: rest) options
     = Agent.args_from (tl rest)
         (Agent.mkOptions (Some (hd_error rest)) (Agent.outputDir options)
            (Agent.toc options) (Agent.math options)
            (Agent.highlight options))) /\
    (Props.named "output-dir" arg ->
     Agent.args_from (arg :: rest) options
     = Agent.args_from (tl rest)
         (Agent.mkOptions (Agent.theme options) (Some (hd_error rest))
            (Agent.toc options) (Agent.math options)
            (Agent.highlight options))) /\
    (~ Props.named "toc" arg -> ~ Props.named "math" arg ->
     ~ Props.named "no-highlight" arg -> ~ Props.named "theme" arg ->
     ~ Props.named "output-dir" arg ->
     Agent.args_from (arg :: rest) options
     = Agent.args_from (tl rest) options) /\
    Agent.args_from [] options = Returns options /\
    (exists result, Agent.args_from (arg :: rest) options = Returns result) /\
    Agent.parse_arguments
      ["--theme"; "dark"; "toc"; "docs"; "--math"; "--no-highlight";
       "--output-dir"]
    = Returns (Agent.mkOptions (Some (Some "dark")) (Some None) (Some true)
                 None (Some false)).
Proof.
  intros arg rest options.
  assert (Htl : skipn 1 rest = tl rest) by (now destruct rest).
  repeat match goal with |- _ /\ _ => split end;
    try (intros [-> | ->]; rewrite AgentMore.args_from_cons;
         cbn [Agent.strip Agent.switch fst snd Nat.sub skipn];
         try rewrite Htl; reflexivity).
  - intros H1 H2 H3 H4 H5. rewrite AgentMore.args_from_cons.
    unfold Agent.switch.
    rewrite (AgentMore.strip_other _ _ H4), (AgentMore.strip_other _ _ H5),
      (AgentMore.strip_other _ _ H1), (AgentMore.strip_other _ _ H2),
      (AgentMore.strip_other _ _ H3).
    cbn [fst snd Nat.sub]. now rewrite Htl.
  - reflexivity.
  - apply AgentMore.args_loop_returns. lia.
  - reflexivity.
Qed.

(** A flag with its dashes, before a folder name. *)
Lemma agent_arguments_go_left_to_right_witness :
  Agent.args_from ["--toc"; "docs"] Agent.empty
  = Agent.args_from ["docs"]
      (Agent.mkOptions None None (Some true) None None).
Proof.
  destruct (agent_arguments_go_left_to_right "--toc" ["docs"] Agent.empty)
    as [H _].
  apply H. right. reflexivity.
Defined.

(** X24: an argument that is not one of the five option names, with or
    without the two dashes, makes the loop skip the argument after it, so
    an option that follows a stray argument is not read. *)
Theorem stray_argument_hides_the_next :
  forall (arg next : string) (rest : list string) (options : Agent.Options),
    Props.is_option (Agent.strip arg) = false ->
    Agent.args_from (arg :: next :: rest) options
    = Agent.args_from rest options.
Proof.
  intros arg next rest options H.
  rewrite AgentMore.args_from_cons, AgentMore.switch_other by exact H.
  reflexivity.
Qed.

(** A folder name before two flags: only the second flag is read. *)
Lemma stray_argument_hides_the_next_witness :
  Agent.parse_arguments ["docs"; "--toc"; "--math"]
  = Agent.parse_arguments ["--math"].
Proof.
  apply (stray_argument_hides_the_next "docs" "--toc" ["--math"]).
  reflexivity.
Defined.

(** ** Simple documents *)

Module TrimMore.

Import Props.

Lemma trimStart_head (s : string) (c : ascii) (s' : string) :
  Js.trimStart s = String c s' -> Js.is_space c = false.
Proof.
  induction s as [|a s IH]; cbn [Js.trimStart]; [discriminate|].
  destruct (Js.is_space a) eqn:E; [exact IH|].
  intros H. injection H as <- _. exact E.
Qed.

Lemma trimEnd_head (u : string) (c : ascii) (s' : string) :
  Js.trimEnd u = String c s' -> exists s0, u = String c s0.
Proof.
  destruct u as [|a u]; cbn [Js.trimEnd]; [discriminate|].
  destruct (Js.trimEnd u); [destruct (Js.is_space a); [discriminate|]|];
    intros H; injection H as <- _; eauto.
Qed.

(** A trimmed line does not start with white space. *)
Lemma trim_head (s : string) (c : ascii) (s' : string) :
  Js.trim s = String c s' -> Js.is_space c = false.
Proof.
  unfold Js.trim. intros H. apply trimEnd_head in H. destruct H as [s0 H].
  eapply trimStart_head; eauto.
Qed.

Lemma trimEnd_app (a b : string) :
  Js.trimEnd b <> "" -> Js.trimEnd (a ++ b) = (a ++ Js.trimEnd b)%string.
Proof.
  intros Hb. induction a as [|c a IH]; [reflexivity|].
  cbn [append Js.trimEnd]. rewrite IH.
  destruct (a ++ Js.trimEnd b)%string eqn:E; [|reflexivity].
  destruct a; cbn [append] in E; [contradiction|discriminate].
Qed.

Lemma tight_parts (t : string) :
  tight t = true ->
  Js.trimEnd t = t /\ t <> "" /\
  exists c s, t = String c s /\ Js.is_space c = false.
Proof.
  unfold tight. destruct t as [|c s]; [discriminate|]. intros H.
  apply andb_true_iff in H. destruct H as [Hc He].
  apply negb_true_iff in Hc. apply String.eqb_eq in He.
  split; [exact He|]. split; [discriminate|]. eauto.
Qed.

(** White space is trimmed at neither end after a front that starts with
    another character and before a tight text. *)
Lemma trim_front_tight (c : ascii) (front t : string) :
  Js.is_space c = false -> tight t = true ->
  Js.trim (String c front ++ t) = (String c front ++ t)%string.
Proof.
  intros Hc Ht. apply tight_parts in Ht. destruct Ht as (He & Hne & _).
  unfold Js.trim. cbn [append Js.trimStart]. rewrite Hc.
  change (String c (front ++ t)) with (String c front ++ t)%string.
  rewrite trimEnd_app; rewrite He; auto.
Qed.

Lemma trimEnd_no_space (r : string) :
  Js.all_chars (fun c => negb (Js.is_space c)) r = true -> Js.trimEnd r = r.
Proof.
  induction r as [|c r IH]; [reflexivity|]. cbn [Js.all_chars Js.trimEnd].
  intros H. apply andb_true_iff in H. destruct H as [Hc Hr].
  apply negb_true_iff in Hc. rewrite (IH Hr), Hc.
  destruct r; reflexivity.
Qed.

Lemma split_no_newline (a : string) :
  no_newline a = true -> Js.split Js.newline a = [a].
Proof.
  induction a as [|c a IH]; [reflexivity|]. intros H.
  apply StringMore.free_of_head in H. destruct H as [Hc Ha].
  cbn [Js.split]. apply Ascii.eqb_neq in Hc. rewrite Hc, (IH Ha).
  reflexivity.
Qed.

Lemma split_app_newline (a s : string) :
  no_newline a = true ->
  Js.split Js.newline (a ++ String Js.newline s)
  = a :: Js.split Js.newline s.
Proof.
  induction a as [|c a IH]; intros H.
  - cbn [append Js.split]. now rewrite Ascii.eqb_refl.
  - apply StringMore.free_of_head in H. destruct H as [Hc Ha].
    cbn [append Js.split]. apply Ascii.eqb_neq in Hc.
    rewrite Hc, (IH Ha). reflexivity.
Qed.

(** Splitting what was joined gives the lines back. *)
Lemma split_join (lines : list string) :
  lines <> [] -> Forall (fun l => no_newline l = true) lines ->
  Js.split Js.newline (Js.join Js.nl lines) = lines.
Proof.
  induction lines as [|x lines IH]; [congruence|]. intros _ H.
  pose proof (Forall_inv H) as Hx. pose proof (Forall_inv_tail H) as Ht.
  destruct lines as [|y lines].
  - apply split_no_newline, Hx.
  - change (Js.join Js.nl (x :: y :: lines))
      with (x ++ String Js.newline (Js.join Js.nl (y :: lines)))%string.
    rewrite (split_app_newline _ _ Hx), IH; [reflexivity|discriminate|auto].
Qed.

End TrimMore.

Module SimpleMore.

Import Lexer Ast Parser Spec Props.

(** *** What the first character of a trimmed line rules out *)

Lemma header_needs_hash (c : ascii) (s : string) :
  Ascii.eqb c "#" = false -> match_header (String c s) = None.
Proof.
  intros H. unfold match_header. cbn [hashes_then_rest Nat.leb].
  now rewrite H.
Qed.

Lemma fence_needs_backtick (c : ascii) (s : string) :
  Ascii.eqb c "`" = false -> Js.startsWith fence (String c s) = false.
Proof.
  intros H. apply Ascii.eqb_neq in H.
  apply StringMore.prefix_head_mismatch. congruence.
Qed.

Lemma starts_with_needs (a c : ascii) (s : string) :
  Ascii.eqb c a = false -> Js.startsWith (String a "") (String c s) = false.
Proof.
  intros H. apply Ascii.eqb_neq in H.
  apply StringMore.prefix_head_mismatch. congruence.
Qed.

Lemma list_needs_bullet (c : ascii) (s : string) :
  Js.is_space c = false -> is_bullet c = false ->
  match_list (String c s) = None.
Proof. intros H1 H2. cbn [match_list]. now rewrite H1, H2. Qed.

Lemma ordered_needs_digit (c : ascii) (s : string) :
  Js.is_space c = false -> Js.is_digit c = false ->
  match_ordered (String c s) = None.
Proof. intros H1 H2. cbn [match_ordered]. now rewrite H1, H2. Qed.

Lemma rule_needs_mark (c : ascii) (s : string) :
  is_rule_char c = false -> test_hr (String c s) = false.
Proof.
  intros H. unfold test_hr. cbn [Js.all_chars]. rewrite H.
  apply andb_false_r.
Qed.

Lemma truthy_cons (c : ascii) (s : string) : Js.truthy (String c s) = true.
Proof. reflexivity. Qed.

(** *** The token of each kind of line *)

Lemma tokenize_words (lines : list string) (i : nat) (t : string) :
  wordy t = true ->
  tokenize_line lines i t = Returns (token_of i (Words t), i).
Proof.
  unfold wordy. destruct (Js.trim t) as [|c s] eqn:E; [discriminate|].
  intros H. apply negb_true_iff in H. unfold opens_block in H.
  repeat (apply orb_false_iff in H; destruct H as [H ?]).
  pose proof (TrimMore.trim_head _ _ _ E) as Hs.
  unfold tokenize_line. rewrite E, truthy_cons. cbn [negb].
  rewrite header_needs_hash, fence_needs_backtick by assumption.
  rewrite list_needs_bullet, ordered_needs_digit by assumption.
  rewrite starts_with_needs, rule_needs_mark by assumption.
  rewrite starts_with_needs by assumption. reflexivity.
Qed.

Lemma rest_of_title (t : string) :
  tight t = true -> one_line t = true ->
  space_then_rest (String " " t) = Some t.
Proof.
  intros Ht Hl. apply TrimMore.tight_parts in Ht.
  destruct Ht as (_ & _ & c & s & -> & Hc).
  cbn [space_then_rest]. change (Js.is_space " ") with true. cbv iota.
  cbn [spaces_then_rest]. rewrite Hc. unfold rest_of_line.
  rewrite truthy_cons. unfold one_line in Hl. now rewrite Hl.
Qed.

Lemma hashes_then_title (t : string) :
  space_then_rest (String " " t) = Some t ->
  forall n more count,
    n <= more -> 1 <= count + n ->
    hashes_then_rest more count (hashes n ++ String " " t)
    = Some (count + n, t).
Proof.
  intros Hrest. induction n as [|n IH]; intros more count Hn Hc.
  - cbn [hashes append]. rewrite Nat.add_0_r.
    assert (Hle : (1 <=? count) = true) by (apply Nat.leb_le; lia).
    destruct more as [|more]; cbn [hashes_then_rest];
      rewrite Hle, Hrest; [reflexivity|].
    change (Ascii.eqb " " "#") with false. reflexivity.
  - destruct more as [|more]; [lia|].
    cbn [hashes append hashes_then_rest].
    change (Ascii.eqb "#" "#") with true. cbv iota.
    rewrite IH by lia. f_equal. f_equal. lia.
Qed.

Lemma hashes_head (n : nat) :
  1 <= n -> hashes n = String "#" (hashes (n - 1)).
Proof.
  destruct n as [|n]; [lia|]. intros _. cbn [hashes Nat.sub].
  now rewrite Nat.sub_0_r.
Qed.

Lemma tokenize_title (lines : list string) (i n : nat) (t : string) :
  1 <= n -> n <= 6 -> tight t = true -> one_line t = true ->
  tokenize_line lines i (source (Title n t))
  = Returns (token_of i (Title n t), i).
Proof.
  intros H1 H6 Ht Hl. unfold token_of. cbn [source].
  assert (Htrim : Js.trim (hashes n ++ " " ++ t)
                  = (hashes n ++ " " ++ t)%string).
  { rewrite (hashes_head n H1).
    replace (String "#" (hashes (n - 1)) ++ " " ++ t)%string
      with (String "#" (hashes (n - 1) ++ " ") ++ t)%string
      by (cbn [append]; now rewrite RendererFacts.append_assoc).
    apply TrimMore.trim_front_tight; [reflexivity|exact Ht]. }
  unfold tokenize_line. rewrite Htrim.
  assert (Htruthy : Js.truthy (hashes n ++ " " ++ t) = true).
  { rewrite (hashes_head n H1). reflexivity. }
  rewrite Htruthy. cbn [negb]. unfold match_header.
  change (" " ++ t)%string with (String " " t).
  rewrite (hashes_then_title t (rest_of_title t Ht Hl) n 6 0) by lia.
  reflexivity.
Qed.

Lemma substringFrom_tail (a : ascii) (s : string) :
  Js.substringFrom 1 (String a s) = s.
Proof.
  unfold Js.substringFrom.
  apply (StringMore.substring_at _ (String a "") s ""); cbn [String.length];
    try lia.
  cbn [append]. now rewrite StringMore.append_nil_r.
Qed.

Lemma tokenize_quote (lines : list string) (i : nat) (t : string) :
  tight t = true ->
  tokenize_line lines i (source (Quote t))
  = Returns (token_of i (Quote t), i).
Proof.
  intros Ht. unfold token_of. cbn [source].
  assert (Htrim : Js.trim ("> " ++ t) = ("> " ++ t)%string).
  { apply (TrimMore.trim_front_tight ">" " " t); [reflexivity|exact Ht]. }
  assert (Hcontent : Js.trim (Js.substringFrom 1 ("> " ++ t)) = t).
  { cbn [append]. rewrite substringFrom_tail.
    destruct (TrimMore.tight_parts t Ht) as (He & _ & c & s & E & Hc).
    unfold Js.trim. cbn [Js.trimStart]. change (Js.is_space " ") with true.
    cbv iota. rewrite E. cbn [Js.trimStart]. rewrite Hc, <- E. exact He. }
  unfold tokenize_line. rewrite Htrim, Hcontent.
  change ("> " ++ t)%string with (String ">" (String " " t)).
  rewrite truthy_cons. cbn [negb].
  rewrite header_needs_hash, fence_needs_backtick by reflexivity.
  rewrite list_needs_bullet, ordered_needs_digit by reflexivity.
  change (Js.startsWith ">" (String ">" (String " " t)))
    with (String.prefix (">" ++ "") (">" ++ String " " t))%string.
  rewrite StringMore.prefix_app. reflexivity.
Qed.

Lemma rule_char_kinds (c : ascii) :
  is_rule_char c = true ->
  Js.is_space c = false /\ Js.is_digit c = false /\
  Ascii.eqb c "#" = false /\ Ascii.eqb c "`" = false /\
  Ascii.eqb c ">" = false /\ Ascii.eqb c Js.newline = false.
Proof.
  unfold is_rule_char. intros H.
  apply orb_true_iff in H. destruct H as [H|H];
    [apply orb_true_iff in H; destruct H as [H|H]|];
    apply Ascii.eqb_eq in H; subst c; repeat split; reflexivity.
Qed.

Lemma rule_chars_no_space (r : string) :
  Js.all_chars is_rule_char r = true ->
  Js.all_chars (fun c => negb (Js.is_space c)) r = true /\
  no_newline r = true.
Proof.
  induction r as [|c r IH]; [split; reflexivity|].
  unfold no_newline, free_of. cbn [Js.all_chars]. intros H.
  apply andb_true_iff in H. destruct H as [Hc Hr].
  destruct (rule_char_kinds c Hc) as (Hs & _ & _ & _ & _ & Hn).
  destruct (IH Hr) as [IH1 IH2]. rewrite Hs, Hn, IH1. split; [reflexivity|].
  exact IH2.
Qed.

Lemma tokenize_rule (lines : list string) (i : nat) (r : string) :
  test_hr r = true ->
  tokenize_line lines i r = Returns (token_of i (Rule r), i).
Proof.
  intros H. pose proof H as Hhr. unfold test_hr in H.
  apply andb_true_iff in H. destruct H as [Hlen Hall].
  apply Nat.leb_le in Hlen.
  destruct r as [|c [|d r]]; cbn [String.length] in Hlen; try lia.
  pose proof Hall as Hall'. cbn [Js.all_chars] in Hall'.
  apply andb_true_iff in Hall'. destruct Hall' as [Hc Hd].
  apply andb_true_iff in Hd. destruct Hd as [Hd _].
  destruct (rule_char_kinds c Hc) as (Hs & Hdig & Hh & Hb & Hq & _).
  destruct (rule_char_kinds d Hd) as (Hsd & _).
  destruct (rule_chars_no_space _ Hall) as [Hns _].
  assert (Htrim : Js.trim (String c (String d r)) = String c (String d r)).
  { unfold Js.trim. cbn [Js.trimStart]. rewrite Hs.
    now apply TrimMore.trimEnd_no_space. }
  unfold tokenize_line. rewrite Htrim, truthy_cons. cbn [negb].
  rewrite header_needs_hash, fence_needs_backtick by assumption.
  assert (Hlist : match_list (String c (String d r)) = None).
  { cbn [match_list space_then_rest]. rewrite Hs, Hsd.
    now destruct (is_bullet c). }
  rewrite Hlist, ordered_needs_digit, starts_with_needs by assumption.
  rewrite Hhr. reflexivity.
Qed.

Lemma tokenize_blank (lines : list string) (i : nat) (ws : string) :
  Js.trim ws = "" ->
  tokenize_line lines i ws = Returns (token_of i (Blank ws), i).
Proof. intros H. unfold tokenize_line. now rewrite H. Qed.

Ltac conjuncts H :=
  repeat (apply andb_true_iff in H;
          let H' := fresh "H" in destruct H as [H H']).

Lemma tokenize_simple (lines : list string) (i : nat) (l : Line) :
  simple l = true ->
  tokenize_line lines i (source l) = Returns (token_of i l, i).
Proof.
  destruct l as [n t|t|t|r|ws]; cbn [simple]; intros H.
  - conjuncts H. apply Nat.leb_le in H. apply Nat.leb_le in H3.
    now apply tokenize_title.
  - conjuncts H. now apply tokenize_words.
  - conjuncts H. now apply tokenize_quote.
  - now apply tokenize_rule.
  - conjuncts H. apply String.eqb_eq in H. now apply tokenize_blank.
Qed.

(** *** The tokens, the tree and the markup of a document *)

Lemma simple_no_newline (l : Line) :
  simple l = true -> no_newline (source l) = true.
Proof.
  destruct l as [n t|t|t|r|ws]; cbn [simple source]; intros H.
  - conjuncts H. unfold no_newline, free_of.
    rewrite !RendererFacts.all_chars_app. apply andb_true_iff. split.
    + clear. induction n as [|n IH]; [reflexivity|].
      cbn [hashes Js.all_chars]. now rewrite IH.
    + cbn [Js.all_chars andb]. change (negb (Ascii.eqb " " Js.newline)) with true.
      cbn [andb]. unfold one_line in H0.
      clear - H0. induction t as [|c t IH]; [reflexivity|].
      cbn [Js.all_chars] in *. apply andb_true_iff in H0.
      destruct H0 as [Hc Ht]. rewrite (IH Ht), andb_true_r.
      apply negb_true_iff in Hc. apply negb_true_iff.
      unfold Js.is_line_terminator in Hc. apply orb_false_iff in Hc.
      destruct Hc as [Hc _]. apply Nat.eqb_neq in Hc.
      apply Ascii.eqb_neq. intros ->. now apply Hc.
  - conjuncts H. exact H0.
  - conjuncts H. unfold no_newline, free_of in *. cbn [append Js.all_chars].
    exact H0.
  - unfold test_hr in H. apply andb_true_iff in H. destruct H as [_ H].
    now apply rule_chars_no_space.
  - conjuncts H. exact H0.
Qed.

Lemma tokenize_loop_simple (doc : list Line) :
  Forall (fun l => simple l = true) doc ->
  forall fuel i tokens,
    List.length doc - i < fuel ->
    tokenize_loop fuel (map source doc) i tokens
    = Returns (tokens ++ tokens_from i (skipn i doc)).
Proof.
  intros Hdoc. induction fuel as [|fuel IH]; intros i tokens Hfuel; [lia|].
  cbn [tokenize_loop]. rewrite nth_error_map.
  destruct (nth_error doc i) as [l|] eqn:E; cbn [option_map].
  - rewrite Forall_forall in Hdoc.
    rewrite (tokenize_simple _ _ _ (Hdoc l (nth_error_In _ _ E))).
    cbn [bind]. pose proof (nth_error_in_range _ _ _ E).
    rewrite IH by lia.
    rewrite (skipn_cons_nth_error _ _ _ E). cbn [tokens_from].
    now rewrite <- app_assoc.
  - rewrite (skipn_nil_nth_error _ _ E). cbn [tokens_from].
    now rewrite app_nil_r.
Qed.

Lemma nth_error_tokens_from (doc : list Line) :
  forall k j,
    nth_error (tokens_from k doc) j
    = option_map (token_of (k + j)) (nth_error doc j).
Proof.
  induction doc as [|l doc IH]; intros k [|j]; cbn [tokens_from nth_error];
    try reflexivity.
  - now rewrite Nat.add_0_r.
  - rewrite IH. now rewrite Nat.add_succ_r.
Qed.

Lemma tokens_from_length (doc : list Line) :
  forall k, List.length (tokens_from k doc) = List.length doc.
Proof. induction doc; intros k; cbn; auto. Qed.

Lemma inline_plain (t : string) :
  t <> "" -> plain t = true -> inline (Some t) = [leaf NodeType.text t].
Proof.
  intros Hne Hp. unfold inline.
  rewrite InlineMore.parseInlineContent_scan.
  pose proof (InlineMore.truthy_nonempty t Hne) as Ht.
  rewrite Ht, InlineMore.scan_plain by exact Hp.
  cbn [bind Parser.children Parser.currentText append app].
  unfold text_nodes. now rewrite Ht.
Qed.

Lemma wordy_nonempty (t : string) : wordy t = true -> t <> "".
Proof. intros H ->. discriminate. Qed.

(** The step of the tree builder at the token of a line. *)
Lemma node_at_simple (rest : list Token) (i : nat) (l : Line)
    (children : list Node) :
  simple l = true ->
  push children (fst (node_at rest (token_of i l))) = children ++ node_of l /\
  snd (node_at rest (token_of i l)) = 1.
Proof.
  destruct l as [n t|t|t|r|ws]; cbn [simple]; intros H;
    unfold node_at, token_of; cbn [Lexer.type fst snd push node_of].
  - conjuncts H. destruct (TrimMore.tight_parts t H2) as (_ & Hne & _).
    cbn [Lexer.text Lexer.level]. now rewrite (inline_plain t Hne H1).
  - conjuncts H. cbn [Lexer.content].
    now rewrite (inline_plain t (wordy_nonempty t H) H1).
  - conjuncts H. destruct (TrimMore.tight_parts t H) as (_ & Hne & _).
    unfold blockquote_node. cbn [Lexer.content].
    now rewrite (inline_plain t Hne H1).
  - split; reflexivity.
  - split; [now rewrite app_nil_r|reflexivity].
Qed.

Lemma firstn_succ {A : Type} (l : list A) (j : nat) (x : A) :
  nth_error l j = Some x -> firstn (j + 1) l = firstn j l ++ [x].
Proof.
  revert j. induction l as [|a l IH]; intros [|j] H; simpl in *;
    try discriminate.
  - now injection H as ->.
  - now rewrite (IH j H).
Qed.

Lemma parse_simple (doc : list Line) :
  Forall (fun l => simple l = true) doc ->
  Parser.parse (tokens_from 0 doc)
  = Returns (document_node (flat_map node_of doc)).
Proof.
  intros Hdoc. unfold Parser.parse.
  destruct (ParserFacts.parse_loop_invariant
              (fun current ch => ch = flat_map node_of (firstn current doc))
              (tokens_from 0 doc))
    with (fuel := S (List.length (tokens_from 0 doc))) (current := 0)
         (children := @nil Node)
    as (result & final & -> & Hfinal & ->); [|lia|reflexivity|].
  - intros current children t Ht ->.
    rewrite nth_error_tokens_from in Ht.
    destruct (nth_error doc current) as [l|] eqn:E; [|discriminate].
    cbn [option_map Nat.add] in Ht. injection Ht as <-.
    rewrite Forall_forall in Hdoc.
    destruct (node_at_simple (skipn current (tokens_from 0 doc)) current l
                (flat_map node_of (firstn current doc))
                (Hdoc l (nth_error_In _ _ E))) as [-> ->].
    rewrite (firstn_succ _ _ _ E), flat_map_app. cbn [flat_map].
    now rewrite app_nil_r.
  - cbn [bind]. rewrite tokens_from_length in Hfinal.
    now rewrite firstn_all2 by exact Hfinal.
Qed.

Lemma mapM_cons {A B : Type} (f : A -> Outcome B) (h : A) (a : list A) :
  mapM f (h :: a) = (v <- f h ;; vs <- mapM f a ;; Returns (v :: vs)).
Proof. reflexivity. Qed.

Lemma mapM_app {A B : Type} (f : A -> Outcome B) (a b : list A)
    (x y : list B) :
  mapM f a = Returns x -> mapM f b = Returns y ->
  mapM f (a ++ b) = Returns (x ++ y).
Proof.
  revert x. induction a as [|h a IH]; intros x Ha Hb.
  - injection Ha as <-. exact Hb.
  - change ((h :: a) ++ b) with (h :: (a ++ b)).
    rewrite mapM_cons in *.
    destruct (f h) as [v| |]; cbn [bind] in *; try discriminate.
    destruct (mapM f a) as [vs| |] eqn:E; cbn [bind] in *; try discriminate.
    injection Ha as <-. now rewrite (IH vs eq_refl Hb).
Qed.

Section Rendering.

Variable hljs_highlight : option string -> string -> option string.
Variable options : Renderer.Options.

Lemma render_line (l : Line) :
  mapM (Renderer.renderNode hljs_highlight options) (node_of l)
  = Returns (markup l).
Proof. destruct l; reflexivity. Qed.

Lemma render_lines (doc : list Line) :
  mapM (Renderer.renderNode hljs_highlight options) (flat_map node_of doc)
  = Returns (flat_map markup doc).
Proof.
  induction doc as [|l doc IH]; [reflexivity|]. cbn [flat_map].
  apply mapM_app; [apply render_line|exact IH].
Qed.

(** The pipeline on the lines of a simple document. *)
Lemma pipeline_simple (doc : list Line) :
  doc <> [] -> Forall (fun l => simple l = true) doc ->
  (tokens <- Lexer.tokenize (Js.VString (Js.join Js.nl (map source doc))) ;;
   ast <- Parser.parse tokens ;;
   Renderer.render hljs_highlight options (Some ast))
  = Returns (Renderer.wrapInDocument options
               (Js.join Js.nl (flat_map markup doc))).
Proof.
  intros Hne Hdoc. cbn [Lexer.tokenize]. unfold Lexer.tokenize_string.
  rewrite TrimMore.split_join.
  - rewrite (tokenize_loop_simple doc Hdoc) by (rewrite length_map; lia).
    cbn [bind app skipn]. rewrite (parse_simple doc Hdoc). cbn [bind].
    unfold Renderer.render, document_node. cbn [Ast.type].
    rewrite RendererFacts.renderNode_unfold. unfold Renderer.render_case.
    cbn [Ast.type Ast.children]. rewrite render_lines. reflexivity.
  - destruct doc; [congruence|discriminate].
  - apply Forall_map. eapply Forall_impl; [|exact Hdoc].
    intros l. apply simple_no_newline.
Qed.

End Rendering.

End SimpleMore.

(** X25: a document of the fragment (titles of level one to six, lines of
    words, quotes, rules and blank lines, the words without inline markers)
    converts line by line: the page holds, in order and joined by line
    feeds, a heading for each title, a paragraph for each line of words (two
    lines in a row are two paragraphs), a block quote for each quote, a rule
    for each line of rule marks and nothing for a blank line, with every
    text escaped. *)
Theorem simple_documents_convert_line_by_line :
  forall (hljs_highlight : option string -> string -> option string)
         (current : Renderer.Options) (options : Converter.CallOptions)
         (doc : list Props.Line),
    forallb Props.simple doc = true ->
    Converter.convert hljs_highlight current
      (Js.VString (Js.join Js.nl (map Props.source doc))) options
    = Returns (Renderer.wrapInDocument (Converter.spread current options)
                 (Js.join Js.nl (flat_map Props.markup doc))).
Proof.
  intros hl current options doc H.
  destruct doc as [|l doc]; [reflexivity|].
  unfold Converter.convert.
  rewrite SimpleMore.pipeline_simple; [reflexivity|discriminate|].
  apply Forall_forall. intros x Hin.
  rewrite forallb_forall in H. now apply H.
Qed.

(** A title, two lines of words, a blank line, a quote and a rule. *)
Lemma simple_documents_convert_line_by_line_witness :
  Converter.convert (fun _ _ => None) Converter.defaults
    (Js.VString
       (Js.join Js.nl
          ["## Notes & more"; "first line"; "second line"; "";
           "> said <so>"; "---"]))
    (Converter.mkCallOptions None None)
  = Returns (Renderer.wrapInDocument Converter.defaults
               (Js.join Js.nl
                  ["<h2>Notes &amp; more</h2>"; "<p>first line</p>";
                   "<p>second line</p>";
                   "<blockquote>said &lt;so&gt;</blockquote>"; "<hr>"])).
Proof.
  apply (simple_documents_convert_line_by_line (fun _ _ => None)
           Converter.defaults (Converter.mkCallOptions None None)
           [Props.Title 2 "Notes & more"; Props.Words "first line";
            Props.Words "second line"; Props.Blank "";
            Props.Quote "said <so>"; Props.Rule "---"]).
  reflexivity.
Defined.

(** ** Documents of one list *)

Module ListMore.

Import Lexer Ast Parser Spec Props.








(** *** The pipeline on the lines of one list *)





Section Rendering.

Variable hljs_highlight : option string -> string -> option string.
Variable options : Renderer.Options.


End Rendering.

End ListMore.





(** ** Documents of one fenced block *)

Module FenceMore.

Import Lexer Ast Parser Spec Props.

Lemma code_lines_closed (body : list string) (closing : string)
    (rest : list string) :
  Forall not_a_fence body ->
  Js.startsWith fence (Js.trim closing) = true ->
  code_lines (body ++ closing :: rest) = body.
Proof.
  intros Hbody Hc. induction Hbody as [|l body Hl _ IH]; cbn [app code_lines].
  - now rewrite Hc.
  - unfold not_a_fence in Hl. now rewrite Hl, IH.
Qed.

Lemma label_trim (lang : string) :
  label lang = true ->
  Js.trim (fence ++ lang) = (fence ++ lang)%string /\ Js.trim lang = lang.
Proof.
  unfold label. intros H. apply orb_true_iff in H. destruct H as [H|H].
  - apply negb_true_iff in H. destruct lang; [|discriminate].
    split; reflexivity.
  - split.
    + apply (TrimMore.trim_front_tight "`" "``" lang); [reflexivity|exact H].
    + destruct (TrimMore.tight_parts lang H) as (He & _ & c & s & E & Hc).
      unfold Js.trim. rewrite E. cbn [Js.trimStart]. rewrite Hc, <- E.
      exact He.
Qed.

Lemma language_of_label (lang : string) :
  label lang = true ->
  Js.trim (Js.substringFrom 3 (Js.trim (fence ++ lang))) = lang.
Proof.
  intros H. destruct (label_trim lang H) as [-> Hl].
  replace (Js.substringFrom 3 (fence ++ lang)) with lang; [exact Hl|].
  symmetry. unfold Js.substringFrom.
  apply (StringMore.substring_at _ fence lang ""); [|reflexivity|].
  - now rewrite StringMore.append_nil_r.
  - rewrite StringMore.length_append. reflexivity.
Qed.

Lemma code_lines_facts (body : list string) :
  forallb code_line body = true ->
  Forall not_a_fence body /\ Forall (fun l => no_newline l = true) body.
Proof.
  intros H. rewrite forallb_forall in H.
  split; apply Forall_forall; intros l Hin; specialize (H l Hin);
    unfold code_line in H; apply andb_true_iff in H; destruct H as [H1 H2];
    [now apply negb_true_iff in H1|exact H2].
Qed.

(** The tokens of a fenced block that is closed: one token, and nothing for
    the closing line. *)
Lemma tokenize_fenced (lang : string) (body : list string) :
  label lang = true -> Forall not_a_fence body ->
  tokenize_loop
    (S (List.length ((fence ++ lang)%string :: body ++ [fence])))
    ((fence ++ lang)%string :: body ++ [fence]) 0 []
  = Returns [mkToken code_block (fence ++ lang) (Js.join Js.nl body) 0
               (0 + 1 + List.length body - 0 + 1)
               None None (Some lang) (Some (Js.join Js.nl body)) None].
Proof.
  intros Hlabel Hbody.
  set (lines := (fence ++ lang)%string :: body ++ [fence]).
  assert (Hopen : Js.startsWith fence (Js.trim (fence ++ lang)) = true).
  { destruct (label_trim lang Hlabel) as [-> _].
    apply StringMore.prefix_app. }
  assert (Hcode : code_lines (skipn (0 + 1) lines) = body).
  { apply code_lines_closed; [exact Hbody|reflexivity]. }
  change (tokenize_loop (S (List.length lines)) lines 0 [])
    with (' (token, i') <- tokenize_line lines 0 (fence ++ lang) ;;
          tokenize_loop (List.length lines) lines (S i') ([] ++ [token])).
  rewrite (LexerFacts.tokenize_line_fence lines 0 _ Hopen). cbn [bind].
  unfold fence_token. rewrite Hcode, (language_of_label lang Hlabel).
  cbn [app].
  assert (Hend : nth_error lines (S (0 + 1 + List.length body)) = None).
  { apply nth_error_None. unfold lines. cbn [List.length].
    rewrite length_app. cbn [List.length]. lia. }
  unfold lines at 1. cbn [List.length tokenize_loop]. fold lines.
  now rewrite Hend.
Qed.

End FenceMore.

(** X28: an opening fence with a language, any lines that are not fences
    and a closing fence convert to one code block: the language is what
    follows the fence, the code is the lines as they are, joined by line
    feeds, whatever they look like (a line that looks like a title or a
    list item stays code), and the closing fence gives nothing. *)
Theorem fenced_lines_are_one_code_block :
  forall (hljs_highlight : option string -> string -> option string)
         (current : Renderer.Options) (options : Converter.CallOptions)
         (lang : string) (body : list string),
    Props.label lang = true -> Props.no_newline lang = true ->
    forallb Props.code_line body = true ->
    Converter.convert hljs_highlight current
      (Js.VString
         (Js.join Js.nl
            ((Lexer.fence ++ lang)%string :: body ++ [Lexer.fence])))
      options
    = Returns
        (Renderer.wrapInDocument (Converter.spread current options)
           (Renderer.renderCodeBlock hljs_highlight
              (Converter.spread current options)
              (Props.code_node lang body))).
Proof.
  intros hl current options lang body Hlabel Hlang Hbody.
  destruct (FenceMore.code_lines_facts body Hbody) as [Hfence Hnl].
  unfold Converter.convert. cbn [Lexer.tokenize].
  unfold Lexer.tokenize_string.
  rewrite TrimMore.split_join; [|discriminate|].
  - rewrite (FenceMore.tokenize_fenced lang body Hlabel Hfence).
    reflexivity.
  - constructor.
    + unfold Props.no_newline, Props.free_of in *.
      rewrite RendererFacts.all_chars_app. now rewrite Hlang.
    + apply Forall_app. split; [exact Hnl|]. now constructor.
Qed.

(** Code that looks like Markdown, with highlighting switched off. *)
Lemma fenced_lines_are_one_code_block_witness :
  Converter.convert (fun _ _ => None) Converter.defaults
    (Js.VString
       (Js.join Js.nl ["```md"; "# no title"; "- no <item>"; "```"]))
    (Converter.mkCallOptions (Some false) None)
  = Returns
      (Renderer.wrapInDocument (Renderer.mkOptions false "light")
         ("<pre><code class=" ++ Renderer.dq ++ "language-md" ++ Renderer.dq
          ++ "># no title" ++ Js.nl ++ "- no &lt;item&gt;</code></pre>")).
Proof.
  apply (fenced_lines_are_one_code_block (fun _ _ => None)
           Converter.defaults (Converter.mkCallOptions (Some false) None)
           "md" ["# no title"; "- no <item>"]);
    reflexivity.
Defined.

(** ** Documents of one table *)

Module RowMore.

Import Lexer Ast Parser Spec Props.

Lemma split_app_char (c : ascii) (a s : string) :
  free_of c a = true ->
  Js.split c (a ++ String c s) = a :: Js.split c s.
Proof.
  induction a as [|x a IH]; intros H.
  - cbn [append Js.split]. now rewrite Ascii.eqb_refl.
  - apply StringMore.free_of_head in H. destruct H as [Hx Ha].
    cbn [append Js.split]. apply Ascii.eqb_neq in Hx.
    rewrite Hx, (IH Ha). reflexivity.
Qed.

Lemma cell_parts (c : string) :
  cell_words c = true ->
  tight c = true /\ free_of "|" c = true /\ no_newline c = true.
Proof.
  unfold cell_words. intros H.
  apply andb_true_iff in H. destruct H as [H H3].
  apply andb_true_iff in H. destruct H as [H1 H2]. auto.
Qed.

Lemma cell_text_parts (c : string) :
  cell_text c = true ->
  free_of "|" c = true /\ no_newline c = true /\
  (c = "" \/ tight c = true).
Proof.
  unfold cell_text. intros H. apply orb_true_iff in H.
  destruct H as [H|H].
  - destruct c; [auto|discriminate].
  - apply cell_parts in H. destruct H as (H1 & H2 & H3). auto.
Qed.

Lemma free_of_padded (a : ascii) (c : string) :
  Ascii.eqb " " a = false -> free_of a c = true ->
  free_of a (padded c) = true.
Proof.
  intros Ha Hc. unfold free_of, padded in *.
  cbn [append Js.all_chars]. rewrite RendererFacts.all_chars_app, Hc, Ha.
  cbn [Js.all_chars]. now rewrite Ha.
Qed.

Lemma split_cells (cells : list string) :
  Forall (fun c => cell_text c = true) cells ->
  Js.split "|" (cells_text cells) = map padded cells ++ [""].
Proof.
  induction 1 as [|c cells Hc _ IH]; [reflexivity|].
  cbn [cells_text map app]. apply cell_text_parts in Hc.
  destruct Hc as (Hc & _).
  change ("|" ++ cells_text cells)%string
    with (String "|" (cells_text cells)).
  rewrite split_app_char, IH; [reflexivity|].
  now apply free_of_padded.
Qed.

Lemma trimEnd_spaces (a b : string) :
  Js.all_chars Js.is_space b = true -> Js.trimEnd (a ++ b) = Js.trimEnd a.
Proof.
  intros Hb. induction a as [|x a IH].
  - cbn [append]. induction b as [|y b IHb]; [reflexivity|].
    cbn [Js.all_chars] in Hb. apply andb_true_iff in Hb.
    destruct Hb as [Hy Hb]. cbn [Js.trimEnd]. now rewrite (IHb Hb), Hy.
  - cbn [append Js.trimEnd]. now rewrite IH.
Qed.

Lemma trim_padded (c : string) : tight c = true -> Js.trim (padded c) = c.
Proof.
  intros H. destruct (TrimMore.tight_parts c H) as (He & _ & x & s & E & Hx).
  unfold Js.trim, padded. cbn [append Js.trimStart].
  change (Js.is_space " ") with true. cbv iota.
  assert (Hs : Js.trimStart (c ++ " ") = (c ++ " ")%string).
  { rewrite E. cbn [append Js.trimStart]. now rewrite Hx. }
  rewrite Hs, trimEnd_spaces; [exact He|reflexivity].
Qed.

Lemma cells_of_pieces (cells : list string) :
  Forall (fun c => cell_text c = true) cells ->
  filter Js.truthy (map Js.trim (map padded cells ++ [""])) = kept cells.
Proof.
  unfold kept. induction 1 as [|c cells Hc _ IH]; [reflexivity|].
  cbn [map app filter]. apply cell_text_parts in Hc.
  destruct Hc as (_ & _ & [-> | Hc]).
  - change (Js.truthy (Js.trim (padded ""))) with false.
    change (Js.truthy "") with false. cbv iota. exact IH.
  - rewrite (trim_padded c Hc).
    destruct (TrimMore.tight_parts c Hc) as (_ & Hne & _).
    rewrite (InlineMore.truthy_nonempty c Hne). now rewrite IH.
Qed.

(** The cells of the line of a row are the cells it was written from,
    without the empty ones. *)
Lemma table_cells_row (cells : list string) :
  Forall (fun c => cell_text c = true) cells ->
  table_cells (row_line cells) = kept cells.
Proof.
  intros H. unfold table_cells, row_line.
  change (String "|" (cells_text cells))
    with ("" ++ String "|" (cells_text cells))%string.
  rewrite split_app_char by reflexivity.
  rewrite (split_cells cells H). cbn [map filter].
  change (Js.truthy (Js.trim "")) with false. cbv iota.
  now apply cells_of_pieces.
Qed.

Lemma row_line_end (cells : list string) :
  exists front, row_line cells = (front ++ "|")%string.
Proof.
  unfold row_line. induction cells as [|c cells [front IH]].
  - now exists "".
  - exists (String "|" (padded c) ++ front)%string.
    cbn [cells_text append]. f_equal.
    change (String "|" (cells_text cells))
      with ("|" ++ cells_text cells)%string in IH.
    rewrite !RendererFacts.append_assoc. f_equal.
    destruct front as [|x front]; cbn [append] in IH |- *.
    + injection IH as ->. reflexivity.
    + injection IH as -> ->. reflexivity.
Qed.

Lemma endsWith_snoc (a : ascii) (front : string) :
  Js.endsWith (String a "") (front ++ String a "") = true.
Proof.
  induction front as [|x front IH].
  - unfold Js.endsWith. cbn [append String.length Nat.leb Nat.sub Js.drop].
    now rewrite String.eqb_refl.
  - cbn [append]. destruct (front ++ String a "")%string as [|d s] eqn:E.
    + destruct front; discriminate.
    + now rewrite StringMore.endsWith_cons.
Qed.

Lemma row_line_trim (cells : list string) :
  Js.trim (row_line cells) = row_line cells.
Proof.
  destruct (row_line_end cells) as [front E].
  unfold Js.trim. unfold row_line at 1. cbn [Js.trimStart].
  change (Js.is_space "|") with false. cbv iota.
  fold (row_line cells). rewrite E.
  apply TrimMore.trimEnd_app. discriminate.
Qed.

Lemma tokenize_row (lines : list string) (i : nat) (cells : list string) :
  Forall (fun c => cell_text c = true) cells ->
  tokenize_line lines i (row_line cells) = Returns (row_token i cells, i).
Proof.
  intros H. rewrite LexerFacts.tokenize_line_table_row.
  - rewrite row_line_trim, (table_cells_row cells H). reflexivity.
  - rewrite row_line_trim. unfold row_line.
    change (String "|" (cells_text cells))
      with ("|" ++ cells_text cells)%string.
    apply StringMore.prefix_app.
  - rewrite row_line_trim. destruct (row_line_end cells) as [front ->].
    apply endsWith_snoc.
Qed.

Lemma row_line_no_newline (cells : list string) :
  Forall (fun c => cell_text c = true) cells ->
  no_newline (row_line cells) = true.
Proof.
  intros H. unfold no_newline, free_of, row_line. cbn [Js.all_chars].
  change (negb (Ascii.eqb "|" Js.newline)) with true. cbn [andb].
  induction H as [|c cells Hc _ IH]; [reflexivity|].
  cbn [cells_text]. apply cell_text_parts in Hc.
  destruct Hc as (_ & Hc & _).
  rewrite !RendererFacts.all_chars_app.
  pose proof (free_of_padded Js.newline c eq_refl Hc) as Hp.
  unfold free_of in Hp. rewrite Hp. cbn [Js.all_chars]. now rewrite IH.
Qed.

Lemma tokenize_loop_rows (rows : list (list string)) :
  Forall (Forall (fun c => cell_text c = true)) rows ->
  forall fuel i tokens,
    List.length rows - i < fuel ->
    tokenize_loop fuel (map row_line rows) i tokens
    = Returns (tokens ++ row_tokens i (skipn i rows)).
Proof.
  intros Hrows. induction fuel as [|fuel IH]; intros i tokens Hfuel; [lia|].
  cbn [tokenize_loop]. rewrite nth_error_map.
  destruct (nth_error rows i) as [cells|] eqn:E; cbn [option_map].
  - rewrite Forall_forall in Hrows.
    rewrite (tokenize_row _ _ _ (Hrows cells (nth_error_In _ _ E))).
    cbn [bind]. pose proof (nth_error_in_range _ _ _ E). rewrite IH by lia.
    rewrite (skipn_cons_nth_error _ _ _ E). cbn [row_tokens].
    now rewrite <- app_assoc.
  - rewrite (skipn_nil_nth_error _ _ E). cbn [row_tokens].
    now rewrite app_nil_r.
Qed.

Lemma row_tokens_type (rows : list (list string)) :
  forall i, Forall (fun t => Lexer.type t = table_row) (row_tokens i rows).
Proof.
  induction rows as [|cells rows IH]; intros i; cbn [row_tokens];
    constructor; auto.
Qed.

Lemma row_tokens_cells (rows : list (list string)) :
  forall i,
    map (fun r => row_node (Lexer.cells r)) (row_tokens i rows)
    = map (fun cells => row_node (Some cells)) (map kept rows).
Proof.
  induction rows as [|cells rows IH]; intros i; [reflexivity|].
  cbn [row_tokens map]. now rewrite IH.
Qed.

(** Tokens of rows, at least one, make one table. *)
Lemma parse_one_table (tokens : list Token) :
  tokens <> [] -> Forall (fun t => Lexer.type t = table_row) tokens ->
  Parser.parse tokens = Returns (document_node [table_of_run tokens]).
Proof.
  intros Hne Hall. unfold Parser.parse.
  destruct (ParserFacts.parse_loop_invariant
              (fun current ch =>
                 (current = 0 /\ ch = []) \/
                 (List.length tokens <= current /\
                  ch = [table_of_run tokens]))
              tokens)
    with (fuel := S (List.length tokens)) (current := 0)
         (children := @nil Node)
    as (result & final & -> & Hfinal & H); [|lia|auto|].
  - intros current children t Ht [[-> ->]|[Hlen _]].
    + right. cbn [skipn]. unfold node_at.
      rewrite Forall_forall in Hall.
      rewrite (Hall t (nth_error_In _ _ Ht)). cbn [fst snd push].
      rewrite (ParserFacts.run_of_all _ tokens)
        by (now apply Forall_forall).
      split; [cbn; lia|reflexivity].
    + apply nth_error_in_range in Ht. lia.
  - destruct H as [[-> _]|[_ ->]]; [|reflexivity].
    destruct tokens; [congruence|cbn in Hfinal; lia].
Qed.

Lemma render_rows_cells (rows : list (list string)) :
  forall index,
    Renderer.render_rows (S index)
      (map (fun cells => row_node (Some cells)) rows)
    = Returns (map (row_markup "td") rows).
Proof.
  induction rows as [|cells rows IH]; intros index; [reflexivity|].
  cbn [map Renderer.render_rows row_node Ast.cells Nat.eqb].
  now rewrite IH.
Qed.

End RowMore.

(** X29: lines that each hold the cells of a row between pipes, every
    cell with a blank on each side and either empty or words without a
    pipe, convert to one table with one row for each line.  The empty
    cells are dropped; the other cells of the first line are header
    cells and those of every other line are data cells, each escaped inside
    its tag, also those of a line of dashes under the first line, which is
    a row like any other. *)
Theorem row_lines_are_one_table :
  forall (hljs_highlight : option string -> string -> option string)
         (current : Renderer.Options) (options : Converter.CallOptions)
         (first : list string) (others : list (list string)),
    forallb (forallb Props.cell_text) (first :: others) = true ->
    Converter.convert hljs_highlight current
      (Js.VString (Js.join Js.nl (map Props.row_line (first :: others))))
      options
    = Returns (Renderer.wrapInDocument (Converter.spread current options)
                 (Props.table_markup (Props.kept first)
                    (map Props.kept others))).
Proof.
  intros hl current options first others H.
  assert (Hrows : Forall (Forall (fun c => Props.cell_text c = true))
                    (first :: others)).
  { apply Forall_forall. intros cells Hin. apply Forall_forall.
    intros c Hc. rewrite forallb_forall in H. specialize (H cells Hin).
    rewrite forallb_forall in H. now apply H. }
  unfold Converter.convert. cbn [Lexer.tokenize].
  unfold Lexer.tokenize_string.
  rewrite TrimMore.split_join; [|discriminate|].
  - rewrite (RowMore.tokenize_loop_rows _ Hrows)
      by (rewrite length_map; lia).
    cbn [bind app skipn].
    rewrite RowMore.parse_one_table;
      [|discriminate|apply RowMore.row_tokens_type].
    cbn [bind]. unfold Renderer.render, Parser.document_node.
    cbn [Ast.type].
    rewrite RendererFacts.renderNode_unfold. unfold Renderer.render_case.
    cbn [Ast.type Ast.children mapM].
    rewrite RendererFacts.renderNode_unfold. unfold Renderer.render_case.
    unfold Props.table_of_run. cbn [Ast.type]. unfold Renderer.renderTable.
    cbn [Ast.rows]. rewrite RowMore.row_tokens_cells.
    cbn [map Renderer.render_rows Parser.row_node Ast.cells Nat.eqb].
    rewrite (RowMore.render_rows_cells (map Props.kept others) 0).
    reflexivity.
  - apply Forall_map. eapply Forall_impl; [|exact Hrows].
    intros cells. apply RowMore.row_line_no_newline.
Qed.

(** The table of the repository's test, with blanks around the dashes and
    with an empty cell in its last row. *)
Lemma row_lines_are_one_table_witness :
  Converter.convert (fun _ _ => None) Converter.defaults
    (Js.VString
       (Js.join Js.nl
          ["| Header 1 | Header 2 |"; "| --- | --- |";
           "| Cell <1> |  | Cell 2 |"]))
    (Converter.mkCallOptions None None)
  = Returns (Renderer.wrapInDocument Converter.defaults
               (Js.join Js.nl
                  ["<table>";
                   "<tr><th>Header 1</th><th>Header 2</th></tr>";
                   "<tr><td>---</td><td>---</td></tr>";
                   "<tr><td>Cell &lt;1&gt;</td><td>Cell 2</td></tr>";
                   "</table>"])).
Proof.
  apply (row_lines_are_one_table (fun _ _ => None) Converter.defaults
           (Converter.mkCallOptions None None)
           ["Header 1"; "Header 2"]
           [["---"; "---"]; ["Cell <1>"; ""; "Cell 2"]]).
  reflexivity.
Defined.

(** ** What the inline nodes spell *)

Module SpellMore.

Import Ast Parser Spec Props.

Lemma substring_split (s : string) :
  forall a x y,
    String.substring a (x + y) s
    = (String.substring a x s ++ String.substring (a + x) y s)%string.
Proof.
  induction s as [|c s IH]; intros a x y.
  - destruct a, x, y; reflexivity.
  - destruct a as [|a].
    + destruct x as [|x]; [reflexivity|].
      cbn [Nat.add String.substring append]. f_equal. apply (IH 0).
    + cbn [Nat.add String.substring]. apply IH.
Qed.

Lemma segment_split (a m b : nat) (s : string) :
  a <= m -> m <= b ->
  segment a b s = (segment a m s ++ segment m b s)%string.
Proof.
  intros H1 H2. unfold segment.
  replace (b - a) with ((m - a) + (b - m)) by lia.
  rewrite substring_split. do 2 f_equal. lia.
Qed.

Lemma js_substring_segment (a b : nat) (s : string) :
  a <= b -> Js.substring a b s = segment a b s.
Proof.
  intros H. unfold Js.substring, segment.
  now rewrite Nat.min_l, Nat.max_r by lia.
Qed.

Lemma segment_char (i : nat) (c : ascii) (s : string) :
  String.get i s = Some c -> segment i (i + 1) s = String c "".
Proof.
  intros H. unfold segment. replace (i + 1 - i) with 1 by lia.
  rewrite (substring_head s i 0 c H). now rewrite substring_empty.
Qed.

Lemma segment_found (p : string) (n e : nat) (s : string) :
  Js.indexOf p n s = Some e ->
  n <= e /\ segment e (e + String.length p) s = p.
Proof.
  intros H. split; [eapply InlineFacts.indexOf_from; eauto|].
  unfold segment. replace (e + String.length p - e) with (String.length p)
    by lia.
  eapply String.index_correct1. exact H.
Qed.

Lemma segment_all (n : nat) (s : string) :
  String.length s <= n -> segment 0 n s = s.
Proof.
  unfold segment. rewrite Nat.sub_0_r. revert n.
  induction s as [|c s IH]; intros n H.
  - destruct n; reflexivity.
  - destruct n as [|n]; cbn [String.length] in H; [lia|].
    cbn [String.substring]. f_equal. apply IH. lia.
Qed.

Lemma unparse_all_app (a b : list Node) :
  unparse_all (a ++ b) = (unparse_all a ++ unparse_all b)%string.
Proof.
  induction a as [|n a IH]; [reflexivity|].
  cbn [app unparse_all]. now rewrite IH, RendererFacts.append_assoc.
Qed.

Lemma unparse_text_nodes (cur : string) : unparse_all (text_nodes cur) = cur.
Proof.
  unfold text_nodes, Js.truthy. destruct (String.eqb cur "") eqn:E;
    cbn [negb unparse_all].
  - apply String.eqb_eq in E. now subst.
  - apply StringMore.append_nil_r.
Qed.

(** Flushing the buffer changes nothing of what is spelled. *)
Lemma spelled_flush (text : string) (n : nat) (cur : string)
    (ch : list Node) :
  spelled text (mkScan n cur ch) ->
  unparse_all (ch ++ text_nodes cur) = segment 0 n text.
Proof.
  unfold spelled. cbn [i currentText children]. intros <-.
  now rewrite unparse_all_app, unparse_text_nodes.
Qed.

(** A node pushed after a flush, with the cursor moved behind what the
    node stands for. *)
Lemma spelled_push (text : string) (n e : nat) (cur : string)
    (ch : list Node) (node : Node) :
  spelled text (mkScan n cur ch) -> n <= e ->
  unparse node = segment n e text ->
  spelled text (mkScan e "" ((ch ++ text_nodes cur) ++ [node])).
Proof.
  intros H Hle Hnode. unfold spelled. cbn [i currentText children].
  rewrite unparse_all_app, (spelled_flush text n cur ch H).
  cbn [unparse_all]. rewrite !StringMore.append_nil_r, Hnode.
  symmetry. apply segment_split; lia.
Qed.

Lemma spelled_next_flush (text : string) (st : Scan) :
  spelled text st ->
  spelled text
    (mkScan (i st) "" (children st ++ text_nodes (currentText st))).
Proof.
  intros H. unfold spelled. cbn [i currentText children].
  rewrite StringMore.append_nil_r.
  apply spelled_flush. now destruct st.
Qed.

Lemma spelled_eta (text : string) (st : Scan) :
  spelled text st ->
  spelled text (mkScan (i st) (currentText st) (children st)).
Proof. now destruct st. Qed.

Lemma check_bold_spelled (text : string) (st : Scan) :
  spelled text st -> check_spelled text st (check_bold text st).
Proof.
  intros H. unfold check_bold.
  destruct (String.eqb _ _) eqn:Hopen; [|now apply spelled_eta].
  rewrite InlineMore.flush_pair.
  destruct (Js.indexOf "**" (i st + 2) text) as [e|] eqn:He;
    [|now apply spelled_next_flush].
  cbn [check_spelled]. apply String.eqb_eq in Hopen.
  rewrite js_substring_segment in Hopen by lia.
  destruct (segment_found _ _ _ _ He) as [Hle Hclose].
  cbn [String.length] in Hclose.
  apply (spelled_push text (i st)); [now apply spelled_eta|lia|].
  unfold unparse, leaf. cbn [Ast.type Ast.content Renderer.or_empty].
  rewrite js_substring_segment by lia.
  rewrite (segment_split (i st) (i st + 2) (e + 2)) by lia.
  rewrite (segment_split (i st + 2) e (e + 2)) by lia.
  now rewrite Hopen, Hclose.
Qed.

Lemma check_italic_spelled (text : string) (st : Scan) :
  spelled text st -> check_spelled text st (check_italic text st).
Proof.
  intros H. unfold check_italic.
  destruct (Js.charIs (i st) "*" text) eqn:Hopen; cbn [andb];
    [|now apply spelled_eta].
  destruct (negb _); [|now apply spelled_eta].
  rewrite InlineMore.flush_pair.
  destruct (Js.indexOf "*" (i st + 1) text) as [e|] eqn:He;
    [|now apply spelled_next_flush].
  destruct (negb _); [|now apply spelled_next_flush].
  cbn [check_spelled]. apply charIs_get, segment_char in Hopen.
  destruct (segment_found _ _ _ _ He) as [Hle Hclose].
  cbn [String.length] in Hclose.
  apply (spelled_push text (i st)); [now apply spelled_eta|lia|].
  unfold unparse, leaf. cbn [Ast.type Ast.content Renderer.or_empty].
  rewrite js_substring_segment by lia.
  rewrite (segment_split (i st) (i st + 1) (e + 1)) by lia.
  rewrite (segment_split (i st + 1) e (e + 1)) by lia.
  now rewrite Hopen, Hclose.
Qed.

Lemma check_code_spelled (text : string) (st : Scan) :
  spelled text st -> check_spelled text st (check_code text st).
Proof.
  intros H. unfold check_code.
  destruct (Js.charIs (i st) "`" text) eqn:Hopen; [|now apply spelled_eta].
  rewrite InlineMore.flush_pair.
  destruct (Js.indexOf "`" (i st + 1) text) as [e|] eqn:He;
    [|now apply spelled_next_flush].
  cbn [check_spelled]. apply charIs_get, segment_char in Hopen.
  destruct (segment_found _ _ _ _ He) as [Hle Hclose].
  cbn [String.length] in Hclose.
  apply (spelled_push text (i st)); [now apply spelled_eta|lia|].
  unfold unparse, leaf. cbn [Ast.type Ast.content Renderer.or_empty].
  rewrite js_substring_segment by lia.
  rewrite (segment_split (i st) (i st + 1) (e + 1)) by lia.
  rewrite (segment_split (i st + 1) e (e + 1)) by lia.
  now rewrite Hopen, Hclose.
Qed.

(** A bracket, a text, a bracket, a parenthesis, a text and a parenthesis,
    from [a] (where the text starts) to [d] (the closing parenthesis), are
    one segment. *)
Lemma segment_target (text : string) (a b d : nat) :
  a <= b -> b + 2 <= d ->
  segment b (b + 1) text = "]" ->
  segment (b + 1) (b + 1 + 1) text = "(" ->
  segment d (d + 1) text = ")" ->
  segment a (d + 1) text
  = (segment a b text ++ "](" ++ segment (b + 2) d text ++ ")")%string.
Proof.
  intros Hab Hbd H1 H2 H3.
  rewrite (segment_split a b (d + 1)) by lia. f_equal.
  rewrite (segment_split b (b + 1) (d + 1)), H1 by lia.
  rewrite (segment_split (b + 1) (b + 1 + 1) (d + 1)), H2 by lia.
  replace (b + 1 + 1) with (b + 2) by lia.
  rewrite (segment_split (b + 2) d (d + 1)), H3 by lia.
  reflexivity.
Qed.

Lemma check_link_spelled (text : string) (st : Scan) :
  spelled text st -> check_spelled text st (check_link text st).
Proof.
  intros H. unfold check_link.
  destruct (Js.charIs (i st) "[" text) eqn:Hopen; [|now apply spelled_eta].
  rewrite InlineMore.flush_pair.
  destruct (Js.indexOf "]" (i st) text) as [b|] eqn:Hb;
    [|now apply spelled_next_flush].
  destruct (Js.charIs (b + 1) "(" text) eqn:Hparen;
    [|now apply spelled_next_flush].
  cbv zeta.
  destruct (Js.indexOf ")" (b + 2) text) as [d|] eqn:Hd;
    [|now apply spelled_next_flush].
  cbn [check_spelled]. apply charIs_get in Hopen.
  pose proof (segment_char _ _ _ Hopen) as Hseg.
  apply charIs_get, segment_char in Hparen.
  destruct (segment_found _ _ _ _ Hb) as [Hle1 Hclose1].
  destruct (segment_found _ _ _ _ Hd) as [Hle2 Hclose2].
  cbn [String.length] in Hclose1, Hclose2.
  assert (Hne : b <> i st).
  { intros ->. rewrite Hseg in Hclose1. discriminate. }
  apply (spelled_push text (i st)); [now apply spelled_eta|lia|].
  unfold unparse, link_node.
  cbn [Ast.type Ast.content Ast.url Renderer.or_empty].
  rewrite !js_substring_segment by lia.
  rewrite (segment_split (i st) (i st + 1) (d + 1)), Hseg by lia.
  rewrite (segment_target text (i st + 1) b d) by (assumption || lia).
  reflexivity.
Qed.

Lemma check_image_spelled (text : string) (st : Scan) :
  spelled text st -> check_spelled text st (check_image text st).
Proof.
  intros H. unfold check_image.
  destruct (String.eqb _ _) eqn:Hopen; [|now apply spelled_eta].
  rewrite InlineMore.flush_pair.
  destruct (Js.indexOf "]" (i st + 2) text) as [b|] eqn:Hb;
    [|now apply spelled_next_flush].
  destruct (Js.charIs (b + 1) "(" text) eqn:Hparen;
    [|now apply spelled_next_flush].
  cbv zeta.
  destruct (Js.indexOf ")" (b + 2) text) as [d|] eqn:Hd;
    [|now apply spelled_next_flush].
  cbn [check_spelled]. apply String.eqb_eq in Hopen.
  rewrite js_substring_segment in Hopen by lia.
  apply charIs_get, segment_char in Hparen.
  destruct (segment_found _ _ _ _ Hb) as [Hle1 Hclose1].
  destruct (segment_found _ _ _ _ Hd) as [Hle2 Hclose2].
  cbn [String.length] in Hclose1, Hclose2.
  apply (spelled_push text (i st)); [now apply spelled_eta|lia|].
  unfold unparse, image_node.
  cbn [Ast.type Ast.alt Ast.src Renderer.or_empty].
  rewrite !js_substring_segment by lia.
  rewrite (segment_split (i st) (i st + 2) (d + 1)), Hopen by lia.
  rewrite (segment_target text (i st + 2) b d) by (assumption || lia).
  reflexivity.
Qed.

Lemma regular_character_spelled (text : string) (n : nat) (cur : string)
    (ch : list Node) :
  n < String.length text -> spelled text (mkScan n cur ch) ->
  spelled text (regular_character text (mkScan n cur ch)).
Proof.
  intros Hlt H. unfold regular_character, Js.charAt.
  cbn [i currentText children].
  destruct (String.get n text) as [c|] eqn:E.
  - unfold spelled in *. cbn [i currentText children] in *.
    rewrite (segment_split 0 n (n + 1)) by lia.
    rewrite <- H, (segment_char _ _ _ E).
    now rewrite RendererFacts.append_assoc.
  - exfalso. clear - Hlt E. revert n Hlt E.
    induction text as [|a text IH]; intros n Hlt E; cbn in *; [lia|].
    destruct n as [|n]; [discriminate|]. apply (IH n); [lia|exact E].
Qed.

Lemma and_then_spelled (text : string) (c : Check) (st : Scan)
    (k : Scan -> Scan) :
  check_spelled text st c ->
  (forall cur ch,
     spelled text (mkScan (i st) cur ch) ->
     spelled text (k (mkScan (i st) cur ch))) ->
  spelled text (and_then c st k).
Proof.
  intros Hc Hk. destruct c as [st'|cur ch]; cbn [and_then]; auto.
Qed.

(** Every iteration keeps what is spelled equal to the text before the
    cursor. *)
Lemma inline_step_spelled (text : string) (st : Scan) :
  i st < String.length text -> spelled text st ->
  spelled text (inline_step text st).
Proof.
  intros Hlt H. unfold inline_step.
  apply and_then_spelled; [now apply check_bold_spelled|].
  intros cur1 ch1 H1.
  apply and_then_spelled; [now apply check_italic_spelled|].
  intros cur2 ch2 H2.
  apply and_then_spelled; [now apply check_code_spelled|].
  intros cur3 ch3 H3.
  apply and_then_spelled; [now apply check_link_spelled|].
  intros cur4 ch4 H4.
  apply and_then_spelled; [now apply check_image_spelled|].
  intros cur5 ch5 H5.
  now apply regular_character_spelled.
Qed.

Lemma inline_loop_spelled (text : string) :
  forall fuel st st',
    inline_loop fuel text st = Returns st' ->
    spelled text st ->
    spelled text st' /\ String.length text <= i st'.
Proof.
  induction fuel as [|fuel IH]; intros st st' E H; [discriminate|].
  cbn [inline_loop] in E.
  destruct (i st <? String.length text) eqn:Hlt.
  - apply Nat.ltb_lt in Hlt. apply (IH _ _ E).
    now apply inline_step_spelled.
  - injection E as <-. apply Nat.ltb_ge in Hlt. auto.
Qed.

End SpellMore.

(** X30: inline resolution loses and invents nothing: the nodes of a text,
    each written back as the Markdown it stands for (a text node as its
    content, a bold node as its content between double asterisks, and so
    on), spell the text again, character by character. *)
Theorem inline_nodes_spell_the_text :
  forall text : string,
    exists nodes,
      Parser.parseInlineContent (Some text) = Returns nodes /\
      Props.unparse_all nodes = text.
Proof.
  intros text. rewrite InlineMore.parseInlineContent_scan.
  destruct text as [|a text]; [exists []; split; reflexivity|].
  cbn [Js.truthy String.eqb negb].
  destruct (InlineMore.scan_from_returns (String a text)) as [st E].
  rewrite E. cbn [bind]. eexists. split; [reflexivity|].
  apply SpellMore.inline_loop_spelled in E; [|reflexivity].
  destruct E as [H Hend].
  rewrite (SpellMore.spelled_flush (String a text) (Parser.i st)
             (Parser.currentText st) (Parser.children st))
    by (now destruct st).
  now apply SpellMore.segment_all.
Qed.
